(** * Checkpoint-based task supervision: a shallow embedding

    This development embeds four TypeScript modules of the bot SDK:

    - [sdk/state-diff.ts]: the world-snapshot differ ([computeStateDiff])
      and its rendering ([formatStateDiff]);
    - [sdk/task-context.ts]: the per-task execution context ([TaskContext]);
    - [mcp/task-manager.ts]: the task registry ([TaskManager]), together
      with the part of the [run_task] harness of [mcp/server.ts] that
      invokes a task body and classifies its outcome;
    - [sdk/patterns.ts]: the supervised [loop] built on the context.

    JavaScript numbers that hold ticks, counts, experience, levels and
    tile coordinates are integers that a double represents exactly
    (below [2^53] in absolute value, as are their sums and products
    here) and are modelled by [Z]; the one place where the code leaves
    the integers, [Math.sqrt], is modelled with its double rounding.
    A JavaScript [Map] keeps its keys in insertion order; where that
    order is
    observable (it drives the order of the summary lines) the map is an
    association list, and the task table, whose order no property here
    depends on, is a [gmap].  Mutation of the diff object under
    construction is explicit state passing. *)

From Stdlib Require Import ZArith String Ascii List DecimalString Reals Lra.
From Stdlib Require DecimalZ DecimalPos.
From stdpp Require Import gmap strings list fin_maps.

Open Scope string_scope.
Open Scope Z_scope.

(* ===================================================================== *)
(** * Part I. Definitions                                                 *)
(* ===================================================================== *)

(** ** JavaScript primitives used by the sources *)

(** [`${n}`] for an integer [n]. *)
Definition show (n : Z) : string := NilZero.string_of_int (Z.to_int n).

(** Truthiness of a string ([''] is falsy). *)
Definition truthy (s : string) : bool :=
  match s with EmptyString => false | _ => true end.

(** [s || d] for an optional string. *)
Definition or_default (s : option string) (d : string) : string :=
  match s with
  | Some v => if truthy v then v else d
  | None => d
  end.

(** [`${s}`] for an optional string. *)
Definition show_opt (s : option string) : string :=
  match s with Some v => v | None => "undefined" end.

(** [arr.slice(-n)]: the last [n] elements. *)
Definition slice_last {A} (n : nat) (l : list A) : list A :=
  drop (length l - n)%nat l.

(** [arr.find(p)]. *)
Fixpoint find_first {A} (p : A -> bool) (l : list A) : option A :=
  match l with
  | [] => None
  | x :: r => if p x then Some x else find_first p r
  end.

(** *** Insertion-ordered maps ([Map<K, V>]) *)

Module JsMap.
Section Ops.
Context {K V : Type} `{EqDecision K}.

Definition t := list (K * V).

Fixpoint get (m : list (K * V)) (k : K) : option V :=
match m with
| [] => None
| (k', v) :: r => if decide (k' = k) then Some v else get r k
end.

Definition has (m : list (K * V)) (k : K) : bool :=
match get m k with Some _ => true | None => false end.

(** [m.set(k, v)]: an existing key keeps its position. *)
Fixpoint set (m : list (K * V)) (k : K) (v : V) : list (K * V) :=
match m with
| [] => [(k, v)]
| (k', v') :: r =>
    if decide (k' = k) then (k, v) :: r else (k', v') :: set r k v
end.

Definition keys (m : list (K * V)) : list K := map fst m.
End Ops.
End JsMap.

(** *** The real square root of a non-negative integer, rounded

    The integer nearest to the real [sqrt n] (halves go up) is
    [floor (sqrt n + 1/2)], the integer [r] with
    [(2r-1)^2 <= 4n < (2r+1)^2], which integer square root computes
    exactly; [round_sqrt_spec] below relates it to the real square
    root.  It is what [Math.round(Math.sqrt(n))] would be if the root
    were not rounded to a double first. *)
Definition round_sqrt (n : Z) : Z := (Z.sqrt (4 * n) + 1) / 2.

(** *** [Math.round(Math.sqrt(n))] in double precision

    For an integer [0 < n < 2^53], [Math.sqrt n] is the double nearest
    to the real root.  With [e = floor (log2 (sqrt n))] that double is
    [m * 2^(e - 52)], where the 53-bit significand [m] is the integer
    nearest to [sqrt n * 2^(52 - e)], the root of [n * 4^(52 - e)] (no
    tie arises: the root of an integer is an integer or irrational).
    [Math.round] of a double is exact: [floor (m / 2^(52 - e) + 1/2)]. *)
Definition sqrt_shift (n : Z) : Z := 52 - Z.log2 n / 2.

Definition sqrt_significand (n : Z) : Z := round_sqrt (n * 4 ^ sqrt_shift n).

Definition Math_round_sqrt (n : Z) : Z :=
  if n <=? 0 then 0
  else (2 * sqrt_significand n + 2 ^ sqrt_shift n) / 2 ^ (sqrt_shift n + 1).

(** *** [text.replace(/@\w+@/g, '')] *)

Definition is_word_char (c : ascii) : bool :=
  let n := nat_of_ascii c in
  ((48 <=? n) && (n <=? 57) || (65 <=? n) && (n <=? 90)
   || (97 <=? n) && (n <=? 122) || (n =? 95))%nat.

Definition is_at (c : ascii) : bool := (nat_of_ascii c =? 64)%nat.

(** The longest run of word characters at the head, and what follows. *)
Fixpoint span_word (s : list ascii) : list ascii * list ascii :=
  match s with
  | c :: r =>
      if is_word_char c then let (w, r') := span_word r in (c :: w, r')
      else ([], s)
  | [] => ([], [])
  end.

(** One attempt of the pattern right after an [@]: a non-empty word run
    followed by [@]; returns what follows the match. *)
Definition match_marker (after_at : list ascii) : option (list ascii) :=
  match span_word after_at with
  | (_ :: _, c :: rest) => if is_at c then Some rest else None
  | _ => None
  end.

Fixpoint strip_markers_fuel (fuel : nat) (s : list ascii) : list ascii :=
  match fuel with
  | O => s
  | S fuel' =>
      match s with
      | [] => []
      | c :: r =>
          if is_at c then
            match match_marker r with
            | Some rest => strip_markers_fuel fuel' rest
            | None => c :: strip_markers_fuel fuel' r
            end
          else c :: strip_markers_fuel fuel' r
      end
  end.

Definition strip_markers (s : string) : string :=
  let l := list_ascii_of_string s in
  string_of_list_ascii (strip_markers_fuel (length l) l).

(* ===================================================================== *)
(** ** World snapshots ([BotWorldState], as far as the differ reads it)  *)
(* ===================================================================== *)

Record InventoryItem := mkItem {
  item_name : string;
  item_count : Z;
  item_id : Z
}.

Record SkillState := mkSkill {
  skill_name : string;
  skill_experience : Z;
  skill_level : Z;
  skill_baseLevel : Z
}.

Record CombatEvent := mkEvent {
  evt_tick : Z;
  evt_type : string;
  evt_damage : Z
}.

Record PlayerState := mkPlayer {
  worldX : Z;
  worldZ : Z
}.

Record ShopState := mkShop {
  shop_isOpen : bool;
  shop_title : string
}.

Record NearbyNpc := mkNpc {
  npc_index : Z;
  npc_name : string;
  npc_inCombat : bool
}.

Record GameMessage := mkMessage {
  msg_tick : Z;
  msg_text : string
}.

Record BotWorldState := mkWorld {
  tick : Z;
  inventory : list InventoryItem;
  skills : list SkillState;
  combatEvents : option (list CombatEvent);
  player : option PlayerState;
  dialog_isOpen : bool;
  interface_isOpen : option bool;     (* [interface?.isOpen] *)
  shop : option ShopState;
  nearbyNpcs : list NearbyNpc;
  gameMessages : option (list GameMessage)
}.

(* ===================================================================== *)
(** ** [StateDiff]                                                        *)
(* ===================================================================== *)

Record TickDiff := mkTickDiff {
  tick_before : Z;
  tick_after : Z;
  tick_elapsed : Z
}.

(** An entry of [inventory.changed]: [{ ...item, before, after }]. *)
Record ChangedItem := mkChanged {
  ch_name : string;
  ch_count : Z;
  ch_id : Z;
  ch_before : Z;
  ch_after : Z
}.

Record InventoryDiff := mkInventoryDiff {
  gained : list InventoryItem;
  lost : list InventoryItem;
  changed : list ChangedItem
}.

Record XpGain := mkXpGain {
  xp_name : string;
  xp : Z;
  levelUp : bool;
  newLevel : option Z
}.

Record CombatDiff := mkCombatDiff {
  damageTaken : Z;
  damageDealt : Z;
  kills : Z;
  healthChange : Z
}.

Record PositionDiff := mkPositionDiff {
  moved : bool;
  pos_from : option (Z * Z);
  pos_to : option (Z * Z);
  distance : Z
}.

Record UiDiff := mkUiDiff {
  dialogOpened : bool;
  dialogClosed : bool;
  interfaceOpened : bool;
  interfaceClosed : bool;
  shopOpened : bool;
  shopClosed : bool
}.

Record NpcRef := mkNpcRef {
  ref_name : string;
  ref_index : Z
}.

Record NpcsDiff := mkNpcsDiff {
  appeared : list NpcRef;
  disappeared : list NpcRef;
  died : list NpcRef
}.

Record StateDiff := mkStateDiff {
  d_tick : TickDiff;
  d_inventory : InventoryDiff;
  d_xpGained : list XpGain;           (* [skills.xpGained] *)
  d_combat : CombatDiff;
  d_position : PositionDiff;
  d_ui : UiDiff;
  d_npcs : NpcsDiff;
  messages : list string;
  summary : list string
}.

Definition createEmptyDiff (t : Z) : StateDiff :=
  {| d_tick := mkTickDiff t t 0;
     d_inventory := mkInventoryDiff [] [] [];
     d_xpGained := [];
     d_combat := mkCombatDiff 0 0 0 0;
     d_position := mkPositionDiff false None None 0;
     d_ui := mkUiDiff false false false false false false;
     d_npcs := mkNpcsDiff [] [] [];
     messages := [];
     summary := [] |}.

(** Field updates of the diff under construction. *)
Definition push_summary (line : string) (d : StateDiff) : StateDiff :=
  {| d_tick := d_tick d; d_inventory := d_inventory d;
     d_xpGained := d_xpGained d; d_combat := d_combat d;
     d_position := d_position d; d_ui := d_ui d; d_npcs := d_npcs d;
     messages := messages d; summary := summary d ++ [line] |}.

Definition set_tick (t : TickDiff) (d : StateDiff) : StateDiff :=
  {| d_tick := t; d_inventory := d_inventory d;
     d_xpGained := d_xpGained d; d_combat := d_combat d;
     d_position := d_position d; d_ui := d_ui d; d_npcs := d_npcs d;
     messages := messages d; summary := summary d |}.

Definition set_inventory (i : InventoryDiff) (d : StateDiff) : StateDiff :=
  {| d_tick := d_tick d; d_inventory := i;
     d_xpGained := d_xpGained d; d_combat := d_combat d;
     d_position := d_position d; d_ui := d_ui d; d_npcs := d_npcs d;
     messages := messages d; summary := summary d |}.

Definition set_xpGained (x : list XpGain) (d : StateDiff) : StateDiff :=
  {| d_tick := d_tick d; d_inventory := d_inventory d;
     d_xpGained := x; d_combat := d_combat d;
     d_position := d_position d; d_ui := d_ui d; d_npcs := d_npcs d;
     messages := messages d; summary := summary d |}.

Definition set_combat (c : CombatDiff) (d : StateDiff) : StateDiff :=
  {| d_tick := d_tick d; d_inventory := d_inventory d;
     d_xpGained := d_xpGained d; d_combat := c;
     d_position := d_position d; d_ui := d_ui d; d_npcs := d_npcs d;
     messages := messages d; summary := summary d |}.

Definition set_position (p : PositionDiff) (d : StateDiff) : StateDiff :=
  {| d_tick := d_tick d; d_inventory := d_inventory d;
     d_xpGained := d_xpGained d; d_combat := d_combat d;
     d_position := p; d_ui := d_ui d; d_npcs := d_npcs d;
     messages := messages d; summary := summary d |}.

Definition set_ui (u : UiDiff) (d : StateDiff) : StateDiff :=
  {| d_tick := d_tick d; d_inventory := d_inventory d;
     d_xpGained := d_xpGained d; d_combat := d_combat d;
     d_position := d_position d; d_ui := u; d_npcs := d_npcs d;
     messages := messages d; summary := summary d |}.

Definition set_npcs (n : NpcsDiff) (d : StateDiff) : StateDiff :=
  {| d_tick := d_tick d; d_inventory := d_inventory d;
     d_xpGained := d_xpGained d; d_combat := d_combat d;
     d_position := d_position d; d_ui := d_ui d; d_npcs := n;
     messages := messages d; summary := summary d |}.

Definition set_messages (m : list string) (d : StateDiff) : StateDiff :=
  {| d_tick := d_tick d; d_inventory := d_inventory d;
     d_xpGained := d_xpGained d; d_combat := d_combat d;
     d_position := d_position d; d_ui := d_ui d; d_npcs := d_npcs d;
     messages := m; summary := summary d |}.

Definition push_if (c : bool) (line : string) (d : StateDiff) : StateDiff :=
  if c then push_summary line d else d.

(* ===================================================================== *)
(** ** [computeStateDiff]                                                 *)
(* ===================================================================== *)

(** *** Inventory *)

(** Group by item id and sum counts: one iteration of the grouping loop.
    An existing entry has its count increased in place; a new id is
    appended with a fresh [{ name, count, id }]. *)
Fixpoint add_count (m : list (Z * InventoryItem)) (it : InventoryItem)
  : list (Z * InventoryItem) :=
  match m with
  | [] => [(item_id it, mkItem (item_name it) (item_count it) (item_id it))]
  | (k, e) :: r =>
      if decide (k = item_id it)
      then (k, mkItem (item_name e) (item_count e + item_count it) (item_id e)) :: r
      else (k, e) :: add_count r it
  end.

Definition groupInventory (items : list InventoryItem) : list (Z * InventoryItem) :=
  fold_left add_count items [].

Definition push_gained (it : InventoryItem) (d : StateDiff) : StateDiff :=
  let i := d_inventory d in
  set_inventory (mkInventoryDiff (gained i ++ [it]) (lost i) (changed i)) d.

Definition push_lost (it : InventoryItem) (d : StateDiff) : StateDiff :=
  let i := d_inventory d in
  set_inventory (mkInventoryDiff (gained i) (lost i ++ [it]) (changed i)) d.

Definition push_changed (c : ChangedItem) (d : StateDiff) : StateDiff :=
  let i := d_inventory d in
  set_inventory (mkInventoryDiff (gained i) (lost i) (changed i ++ [c])) d.

(** Body of the loop "Find gained items". *)
Definition gained_step (beforeInv : list (Z * InventoryItem))
    (d : StateDiff) (entry : Z * InventoryItem) : StateDiff :=
  let (id, item) := entry in
  match JsMap.get beforeInv id with
  | None =>
      push_summary ("+" ++ show (item_count item) ++ " " ++ item_name item)
        (push_gained item d)
  | Some beforeItem =>
      if item_count item >? item_count beforeItem then
        push_summary
          ("+" ++ show (item_count item - item_count beforeItem) ++ " " ++ item_name item)
          (push_changed
             (mkChanged (item_name item) (item_count item) (item_id item)
                (item_count beforeItem) (item_count item)) d)
      else d
  end.

(** Body of the loop "Find lost items". *)
Definition lost_step (afterInv : list (Z * InventoryItem))
    (d : StateDiff) (entry : Z * InventoryItem) : StateDiff :=
  let (id, item) := entry in
  match JsMap.get afterInv id with
  | None =>
      push_summary ("-" ++ show (item_count item) ++ " " ++ item_name item)
        (push_lost item d)
  | Some afterItem =>
      if item_count afterItem <? item_count item then
        let d' :=
          match find_first (fun c => Z.eqb (ch_id c) id) (changed (d_inventory d)) with
          | Some _ => d
          | None =>
              push_changed
                (mkChanged (item_name item) (item_count item) (item_id item)
                   (item_count item) (item_count afterItem)) d
          end in
        push_summary
          ("-" ++ show (item_count item - item_count afterItem) ++ " " ++ item_name item) d'
      else d
  end.

Definition diffInventory (before after : BotWorldState) (d : StateDiff) : StateDiff :=
  let beforeInv := groupInventory (inventory before) in
  let afterInv := groupInventory (inventory after) in
  let d1 := fold_left (gained_step beforeInv) afterInv d in
  fold_left (lost_step afterInv) beforeInv d1.

(** *** Skills *)

Definition buildSkills (l : list SkillState) : list (string * SkillState) :=
  fold_left (fun m s => JsMap.set m (skill_name s) s) l [].

Definition push_xp (x : XpGain) (d : StateDiff) : StateDiff :=
  set_xpGained (d_xpGained d ++ [x]) d.

(** Body of the loop over [after.skills]. *)
Definition skill_step (beforeSkills : list (string * SkillState))
    (d : StateDiff) (skill : SkillState) : StateDiff :=
  match JsMap.get beforeSkills (skill_name skill) with
  | Some beforeSkill =>
      if skill_experience skill >? skill_experience beforeSkill then
        let xpGain := skill_experience skill - skill_experience beforeSkill in
        let lvlUp := skill_baseLevel skill >? skill_baseLevel beforeSkill in
        let d' :=
          push_xp (mkXpGain (skill_name skill) xpGain lvlUp
                     (if lvlUp then Some (skill_baseLevel skill) else None)) d in
        if lvlUp then
          push_summary
            ("LEVEL UP! " ++ skill_name skill ++ " -> " ++ show (skill_baseLevel skill)) d'
        else
          push_summary ("+" ++ show xpGain ++ " " ++ skill_name skill ++ " XP") d'
      else d
  | None => d
  end.

Definition diffSkills (before after : BotWorldState) (d : StateDiff) : StateDiff :=
  fold_left (skill_step (buildSkills (skills before))) (skills after) d.

(** *** Combat *)

(** [skills.find(s => s.name === 'Hitpoints')?.level ?? 10]. *)
Definition hitpoints (w : BotWorldState) : Z :=
  match find_first (fun s => String.eqb (skill_name s) "Hitpoints") (skills w) with
  | Some s => skill_level s
  | None => 10
  end.

Definition combat_step (c : CombatDiff) (evt : CombatEvent) : CombatDiff :=
  if String.eqb (evt_type evt) "damage_taken" then
    mkCombatDiff (damageTaken c + evt_damage evt) (damageDealt c) (kills c) (healthChange c)
  else if String.eqb (evt_type evt) "damage_dealt" then
    mkCombatDiff (damageTaken c) (damageDealt c + evt_damage evt) (kills c) (healthChange c)
  else if String.eqb (evt_type evt) "kill" then
    mkCombatDiff (damageTaken c) (damageDealt c) (kills c + 1) (healthChange c)
  else c.

Definition diffCombat (before after : BotWorldState) (d : StateDiff) : StateDiff :=
  let c0 := d_combat d in
  let c1 := mkCombatDiff (damageTaken c0) (damageDealt c0) (kills c0)
              (hitpoints after - hitpoints before) in
  let c2 :=
    match combatEvents after with
    | Some evts =>
        let newEvents := List.filter (fun e => evt_tick e >? tick before) evts in
        fold_left combat_step newEvents c1
    | None => c1
    end in
  let d1 := set_combat c2 d in
  let d2 := push_if (damageTaken c2 >? 0)
              ("Took " ++ show (damageTaken c2) ++ " damage") d1 in
  let d3 := push_if (damageDealt c2 >? 0)
              ("Dealt " ++ show (damageDealt c2) ++ " damage") d2 in
  push_if (kills c2 >? 0)
    ("Killed " ++ show (kills c2) ++ " target(s)") d3.

(** *** Position

    [dist = Math.sqrt(dx*dx + dz*dz)] is the square root of the integer
    [dist2]; the tests [dist > 0] and [dist >= 5] are the tests
    [dist2 > 0] and [dist2 >= 25] (see [sqrt_pos_iff], [sqrt_ge5_iff]). *)
Definition dist2 (p q : PlayerState) : Z :=
  let dx := worldX q - worldX p in
  let dz := worldZ q - worldZ p in
  dx * dx + dz * dz.

Definition diffPosition (before after : BotWorldState) (d : StateDiff) : StateDiff :=
  match player before, player after with
  | Some pb, Some pa =>
      let n := dist2 pb pa in
      if n >? 0 then
        let d1 :=
          set_position
            (mkPositionDiff true
               (Some (worldX pb, worldZ pb))
               (Some (worldX pa, worldZ pa))
               (Math_round_sqrt n)) d in
        push_if (n >=? 25) ("Moved " ++ show (Math_round_sqrt n) ++ " tiles") d1
      else d
  | _, _ => d
  end.

(** *** UI transitions *)

(** [!!x?.isOpen]. *)
Definition opt_open (o : option bool) : bool :=
  match o with Some b => b | None => false end.

Definition shop_open (w : BotWorldState) : bool :=
  opt_open (shop_isOpen <$> shop w).

Definition diffUi (before after : BotWorldState) (d : StateDiff) : StateDiff :=
  let u :=
    {| dialogOpened := negb (dialog_isOpen before) && dialog_isOpen after;
       dialogClosed := dialog_isOpen before && negb (dialog_isOpen after);
       interfaceOpened :=
         negb (opt_open (interface_isOpen before)) && opt_open (interface_isOpen after);
       interfaceClosed :=
         opt_open (interface_isOpen before) && negb (opt_open (interface_isOpen after));
       shopOpened := negb (shop_open before) && shop_open after;
       shopClosed := shop_open before && negb (shop_open after) |} in
  let d1 := set_ui u d in
  let d2 := push_if (dialogOpened u) "Dialog opened" d1 in
  let d3 := push_if (dialogClosed u) "Dialog closed" d2 in
  let d4 := push_if (shopOpened u)
              ("Shop opened: " ++ show_opt (shop_title <$> shop after)) d3 in
  push_if (shopClosed u) "Shop closed" d4.

(** *** NPCs *)

Definition buildNpcs (l : list NearbyNpc) : list (Z * NearbyNpc) :=
  fold_left (fun m n => JsMap.set m (npc_index n) n) l [].

Definition push_appeared (r : NpcRef) (d : StateDiff) : StateDiff :=
  let n := d_npcs d in
  set_npcs (mkNpcsDiff (appeared n ++ [r]) (disappeared n) (died n)) d.

Definition push_disappeared (r : NpcRef) (d : StateDiff) : StateDiff :=
  let n := d_npcs d in
  set_npcs (mkNpcsDiff (appeared n) (disappeared n ++ [r]) (died n)) d.

Definition push_died (r : NpcRef) (d : StateDiff) : StateDiff :=
  let n := d_npcs d in
  set_npcs (mkNpcsDiff (appeared n) (disappeared n) (died n ++ [r])) d.

Definition appeared_step (beforeNpcs : list (Z * NearbyNpc))
    (d : StateDiff) (npc : NearbyNpc) : StateDiff :=
  if JsMap.has beforeNpcs (npc_index npc) then d
  else push_appeared (mkNpcRef (npc_name npc) (npc_index npc)) d.

Definition disappeared_step (afterNpcs : list (Z * NearbyNpc))
    (d : StateDiff) (entry : Z * NearbyNpc) : StateDiff :=
  let (idx, npc) := entry in
  if JsMap.has afterNpcs idx then d
  else
    let d1 := push_disappeared (mkNpcRef (npc_name npc) idx) d in
    if npc_inCombat npc then
      push_summary (npc_name npc ++ " died")
        (push_died (mkNpcRef (npc_name npc) idx) d1)
    else d1.

Definition diffNpcs (before after : BotWorldState) (d : StateDiff) : StateDiff :=
  let beforeNpcs := buildNpcs (nearbyNpcs before) in
  let afterNpcs := buildNpcs (nearbyNpcs after) in
  let d1 := fold_left (appeared_step beforeNpcs) (nearbyNpcs after) d in
  fold_left (disappeared_step afterNpcs) beforeNpcs d1.

(** *** Messages *)

Definition diffMessages (before after : BotWorldState) (d : StateDiff) : StateDiff :=
  match gameMessages after with
  | Some msgs =>
      let newMessages := List.filter (fun m => msg_tick m >? tick before) msgs in
      set_messages (map (fun m => strip_markers (msg_text m)) newMessages) d
  | None => d
  end.

(** *** The differ *)

Definition initDiff (before after : BotWorldState) : StateDiff :=
  let d0 := createEmptyDiff (tick before) in
  set_tick (mkTickDiff (tick before) (tick after) (tick after - tick before)) d0.

Definition computeStateDiff (before after : BotWorldState) : StateDiff :=
  let d1 := initDiff before after in
  let d2 := diffInventory before after d1 in
  let d3 := diffSkills before after d2 in
  let d4 := diffCombat before after d3 in
  let d5 := diffPosition before after d4 in
  let d6 := diffUi before after d5 in
  let d7 := diffNpcs before after d6 in
  diffMessages before after d7.

(** ** [formatStateDiff] *)

(** The line feed of [lines.join('\n')]. *)
Definition nl : string := String (ascii_of_nat 10) EmptyString.

(** The lines pushed by [formatStateDiff] when the summary is not empty. *)
Definition formatStateDiff_lines (diff : StateDiff) : list string :=
  let header := "Changes over " ++ show (tick_elapsed (d_tick diff)) ++ " ticks:" in
  let items := map (fun item => "  - " ++ item) (summary diff) in
  let msgs :=
    match messages diff with
    | [] => []
    | _ :: _ =>
        "Messages:" :: map (fun msg => "  > " ++ msg) (slice_last 3 (messages diff))
    end in
  header :: (items ++ msgs)%list.

Definition formatStateDiff (diff : StateDiff) : string :=
  match summary diff with
  | [] => "(no significant changes)"
  | _ :: _ => String.concat nl (formatStateDiff_lines diff)
  end.

(* ===================================================================== *)
(** ** External collaborators                                             *)
(* ===================================================================== *)

(** What the excluded layers answer during one synchronous operation:
    [Date.now()], [sdk.getState()] and the rendering
    [formatWorldState(state, sdk.getStateAge())] of that state. *)
Record Env := mkEnv {
  now : Z;
  sdkState : option BotWorldState;
  worldText : string
}.

(** Values a task body hands back ([result?: any], [data?: any]). *)
Inductive JsValue :=
| VUndefined
| VBool (b : bool)
| VNumber (n : Z)
| VString (s : string).

(** An [Error] object, with its message. *)
Record JsError := mkError { err_message : string }.

(** What a [throw] statement throws and what a promise is rejected
    with: any value.  The catch clauses ([catch (error: any)]) read
    [error.message], so three kinds are told apart: [null] and
    [undefined], on which that read raises a [TypeError]; an [Error]
    (or any object with a string [message]); and the other values
    (strings, numbers, booleans), on which the read gives [undefined]. *)
Inductive Thrown :=
| ThrownNull
| ThrownValue (v : JsValue)
| ThrownError (e : JsError).

(* ===================================================================== *)
(** ** [TaskContext]                                                      *)
(* ===================================================================== *)

Inductive ProgressStatus :=
| PStarting | PInProgress | PCompleted | PFailed | PPaused.

Record ProgressCounter := mkCounter {
  pc_current : Z;
  pc_total : Z;
  pc_unit : option string
}.

Record TaskProgress := mkProgress {
  tp_action : string;
  tp_status : ProgressStatus;
  tp_progress : option ProgressCounter;
  tp_message : option string;
  tp_data : option JsValue
}.

(** The argument of [reportProgress]: [status] is optional. *)
Record ProgressArg := mkProgressArg {
  pa_action : string;
  pa_status : option ProgressStatus;
  pa_progress : option ProgressCounter;
  pa_message : option string;
  pa_data : option JsValue
}.

Record CheckpointResult := mkResult {
  cr_continue : bool;
  cr_newInstructions : option string;
  cr_abort : option bool;
  cr_abortReason : option string
}.

(** [TaskStatus['status']]. *)
Inductive LiveStatus :=
| LRunning | LPaused | LCompleted | LFailed | LAborted.

Record TaskStatus := mkTaskStatus {
  ts_taskId : string;
  ts_status : LiveStatus;
  ts_currentAction : string;
  ts_startTime : Z;
  ts_elapsedMs : Z;
  ts_checkpointCount : Z;
  ts_lastCheckpointTime : Z;
  ts_stateDiff : StateDiff;
  ts_accumulatedDiff : StateDiff;
  ts_progressReports : list TaskProgress;
  ts_worldState : string;
  ts_error : option string
}.

(** How the awaited [onCheckpoint(status)] promise settles. *)
Inductive Settled :=
| Fulfilled (r : CheckpointResult)
| Rejected (t : Thrown).

(** How an [async] method completes for its caller. *)
Inductive Completion (A : Type) :=
| Returned (a : A)
| Raised (e : JsError).
Arguments Returned {A} a.
Arguments Raised {A} e.

(** The [TypeError] of a property read on [null] or [undefined]. *)
Definition type_error (what : string) : JsError :=
  mkError ("Cannot read properties of " ++ what ++ " (reading 'message')").

(** [error.message] for a caught value. *)
Definition message_of (t : Thrown) : Completion (option string) :=
  match t with
  | ThrownNull => Raised (type_error "null")
  | ThrownValue VUndefined => Raised (type_error "undefined")
  | ThrownValue _ => Returned None
  | ThrownError e => Returned (Some (err_message e))
  end.

Module TaskContext.

(** The private fields of the class.  The two callbacks are fixed at
    construction; the context only tests whether they are registered,
    so each is a flag here, and what is passed to [onProgress] is
    returned to the caller as a list of emitted reports.
    [lastAutoProgress] is the local of [setupStateMonitoring] captured
    by the state listener; [stateListener] tells whether the
    subscription is still held. *)
Record t := mk {
  taskId : string;
  startTime : Z;
  startState : option BotWorldState;
  lastCheckpointState : option BotWorldState;
  checkpointCount : Z;
  currentAction : string;
  status : LiveStatus;
  progressReports : list TaskProgress;
  onProgress : bool;
  onCheckpoint : bool;
  progressInterval : Z;
  stateListener : bool;
  lastAutoProgress : Z;
  lastProgressReport : Z;
  abortReason : option string;
  logs : list string
}.

(** Reports handed to [onProgress] by one operation. *)
Definition Emitted := list TaskProgress.

Definition emit (c : t) (p : TaskProgress) : Emitted :=
  if onProgress c then [p] else [].

(** [new TaskContext(bot, sdk, options)]. *)
Definition create (e : Env) (id : string) (hasProgress hasCheckpoint : bool)
    (interval : option Z) : t :=
  {| taskId := id;
     startTime := now e;
     startState := sdkState e;
     lastCheckpointState := sdkState e;
     checkpointCount := 0;
     currentAction := "initializing";
     status := LRunning;
     progressReports := [];
     onProgress := hasProgress;
     onCheckpoint := hasCheckpoint;
     progressInterval := default 5000 interval;
     stateListener := true;
     lastAutoProgress := now e;
     lastProgressReport := 0;
     abortReason := None;
     logs := [] |}.

Definition push_log (line : string) (c : t) : t :=
  {| taskId := taskId c; startTime := startTime c; startState := startState c;
     lastCheckpointState := lastCheckpointState c;
     checkpointCount := checkpointCount c; currentAction := currentAction c;
     status := status c; progressReports := progressReports c;
     onProgress := onProgress c; onCheckpoint := onCheckpoint c;
     progressInterval := progressInterval c; stateListener := stateListener c;
     lastAutoProgress := lastAutoProgress c;
     lastProgressReport := lastProgressReport c;
     abortReason := abortReason c; logs := logs c ++ [line] |}.

(** [log(...args)]; the arguments arrive already converted to strings
    ([JSON.stringify] for objects, [String] otherwise). *)
Definition log (args : list string) (c : t) : t :=
  push_log (String.concat " " args) c.

Definition warn (args : list string) (c : t) : t :=
  push_log ("[warn] " ++ String.concat " " args) c.

Definition getLogs (c : t) : list string := logs c.

Definition reportProgress (e : Env) (p : ProgressArg) (c : t) : t * Emitted :=
  let fullProgress :=
    {| tp_action := pa_action p;
       tp_status := default PInProgress (pa_status p);
       tp_progress := pa_progress p;
       tp_message := pa_message p;
       tp_data := pa_data p |} in
  let c1 :=
    {| taskId := taskId c; startTime := startTime c; startState := startState c;
       lastCheckpointState := lastCheckpointState c;
       checkpointCount := checkpointCount c; currentAction := currentAction c;
       status := status c;
       progressReports := progressReports c ++ [fullProgress];
       onProgress := onProgress c; onCheckpoint := onCheckpoint c;
       progressInterval := progressInterval c; stateListener := stateListener c;
       lastAutoProgress := lastAutoProgress c;
       lastProgressReport := now e;
       abortReason := abortReason c; logs := logs c |} in
  (log ["[Progress] " ++ pa_action p ++ ": " ++ or_default (pa_message p) ""] c1,
   emit c fullProgress).

Definition set_currentAction (a : string) (c : t) : t :=
  {| taskId := taskId c; startTime := startTime c; startState := startState c;
     lastCheckpointState := lastCheckpointState c;
     checkpointCount := checkpointCount c; currentAction := a;
     status := status c; progressReports := progressReports c;
     onProgress := onProgress c; onCheckpoint := onCheckpoint c;
     progressInterval := progressInterval c; stateListener := stateListener c;
     lastAutoProgress := lastAutoProgress c;
     lastProgressReport := lastProgressReport c;
     abortReason := abortReason c; logs := logs c |}.

Definition setAction (e : Env) (a : string) (c : t) : t * Emitted :=
  reportProgress e
    (mkProgressArg a (Some PStarting) None (Some ("Starting: " ++ a)) None)
    (set_currentAction a c).

Definition shouldContinue (c : t) : bool :=
  match status c with LRunning => true | _ => false end.

Definition getStateDiffFromStart (e : Env) (c : t) : StateDiff :=
  match startState c, sdkState e with
  | Some s, Some cur => computeStateDiff s cur
  | _, _ => createEmptyDiff 0
  end.

Definition getStateDiffSinceLastCheckpoint (e : Env) (c : t) : StateDiff :=
  match lastCheckpointState c, sdkState e with
  | Some s, Some cur => computeStateDiff s cur
  | _, _ => createEmptyDiff 0
  end.

Definition getStatus (e : Env) (c : t) : TaskStatus :=
  {| ts_taskId := taskId c;
     ts_status := status c;
     ts_currentAction := currentAction c;
     ts_startTime := startTime c;
     ts_elapsedMs := now e - startTime c;
     ts_checkpointCount := checkpointCount c;
     ts_lastCheckpointTime := lastProgressReport c;
     ts_stateDiff := getStateDiffSinceLastCheckpoint e c;
     ts_accumulatedDiff := getStateDiffFromStart e c;
     ts_progressReports := slice_last 10 (progressReports c);
     ts_worldState :=
       match sdkState e with Some _ => worldText e | None => "(no state)" end;
     ts_error := abortReason c |}.

Definition set_status (s : LiveStatus) (reason : option string) (c : t) : t :=
  {| taskId := taskId c; startTime := startTime c; startState := startState c;
     lastCheckpointState := lastCheckpointState c;
     checkpointCount := checkpointCount c; currentAction := currentAction c;
     status := s; progressReports := progressReports c;
     onProgress := onProgress c; onCheckpoint := onCheckpoint c;
     progressInterval := progressInterval c; stateListener := stateListener c;
     lastAutoProgress := lastAutoProgress c;
     lastProgressReport := lastProgressReport c;
     abortReason := reason; logs := logs c |}.

Definition paused (s : TaskStatus) : TaskStatus :=
  {| ts_taskId := ts_taskId s; ts_status := LPaused;
     ts_currentAction := ts_currentAction s; ts_startTime := ts_startTime s;
     ts_elapsedMs := ts_elapsedMs s; ts_checkpointCount := ts_checkpointCount s;
     ts_lastCheckpointTime := ts_lastCheckpointTime s;
     ts_stateDiff := ts_stateDiff s; ts_accumulatedDiff := ts_accumulatedDiff s;
     ts_progressReports := ts_progressReports s;
     ts_worldState := ts_worldState s; ts_error := ts_error s |}.

(** [checkpoint(reason)], first half: everything up to the test of
    [this.onCheckpoint].  Returns the status snapshot that is handed to
    the handler. *)
Definition checkpoint_enter (e : Env) (reason : string) (c : t) : t * TaskStatus :=
  let c1 :=
    {| taskId := taskId c; startTime := startTime c; startState := startState c;
       lastCheckpointState := lastCheckpointState c;
       checkpointCount := checkpointCount c + 1; currentAction := currentAction c;
       status := status c; progressReports := progressReports c;
       onProgress := onProgress c; onCheckpoint := onCheckpoint c;
       progressInterval := progressInterval c; stateListener := stateListener c;
       lastAutoProgress := lastAutoProgress c;
       lastProgressReport := lastProgressReport c;
       abortReason := abortReason c; logs := logs c |} in
  let c2 := log ["[Checkpoint " ++ show (checkpointCount c1) ++ "] " ++ reason] c1 in
  let st := paused (getStatus e c2) in
  let c3 :=
    {| taskId := taskId c2; startTime := startTime c2; startState := startState c2;
       lastCheckpointState := sdkState e;
       checkpointCount := checkpointCount c2; currentAction := currentAction c2;
       status := status c2; progressReports := progressReports c2;
       onProgress := onProgress c2; onCheckpoint := onCheckpoint c2;
       progressInterval := progressInterval c2; stateListener := stateListener c2;
       lastAutoProgress := lastAutoProgress c2;
       lastProgressReport := lastProgressReport c2;
       abortReason := abortReason c2; logs := logs c2 |} in
  (c3, st).

(** [result.abort] as a condition. *)
Definition aborts (r : CheckpointResult) : bool := default false (cr_abort r).

Definition continue_result : CheckpointResult := mkResult true None None None.

(** [checkpoint(reason)], second half: the [try] block after the
    [await], and its [catch].  The first component of the answer is
    how [checkpoint] completes for the task body. *)
Definition checkpoint_settle (o : Settled) (c : t)
  : Completion CheckpointResult * t :=
  match o with
  | Fulfilled result =>
      if aborts result then
        (Returned result,
         set_status LAborted
           (Some (or_default (cr_abortReason result) "Aborted by supervisor")) c)
      else
        match cr_newInstructions result with
        | Some i =>
            if truthy i
            then (Returned result, log ["[New Instructions] " ++ i] c)
            else (Returned result, c)
        | None => (Returned result, c)
        end
  | Rejected error =>
      match message_of error with
      | Returned message =>
          (Returned continue_result,
           log ["[Checkpoint Error] " ++ show_opt message] c)
      | Raised type_err => (Raised type_err, c)
      end
  end.

(** [checkpoint(reason)] with a handler that settles as [handler]
    says (the suspension between the two halves is not visible from
    inside the context), or without a handler. *)
Definition checkpoint (e : Env) (reason : string)
    (handler : TaskStatus -> Settled) (c : t)
  : Completion CheckpointResult * t :=
  let (c1, st) := checkpoint_enter e reason c in
  if onCheckpoint c1 then checkpoint_settle (handler st) c1
  else (Returned continue_result, c1).

Definition complete (e : Env) (result : option JsValue) (c : t) : t * Emitted :=
  let c1 := set_status LCompleted (abortReason c) c in
  reportProgress e
    (mkProgressArg (currentAction c1) (Some PCompleted) None
       (Some "Task completed") result) c1.

(** [fail(error)]; the execution wrapper passes the [message] of what
    it caught, which is [undefined] ([None]) for a thrown value that has
    none. *)
Definition fail (e : Env) (error : option string) (c : t) : t * Emitted :=
  let c1 := set_status LFailed error c in
  reportProgress e
    (mkProgressArg (currentAction c1) (Some PFailed) None error None) c1.

Definition cleanup (c : t) : t :=
  {| taskId := taskId c; startTime := startTime c; startState := startState c;
     lastCheckpointState := lastCheckpointState c;
     checkpointCount := checkpointCount c; currentAction := currentAction c;
     status := status c; progressReports := progressReports c;
     onProgress := onProgress c; onCheckpoint := onCheckpoint c;
     progressInterval := progressInterval c; stateListener := false;
     lastAutoProgress := lastAutoProgress c;
     lastProgressReport := lastProgressReport c;
     abortReason := abortReason c; logs := logs c |}.

(** The listener installed by [setupStateMonitoring], run on a
    world-state update while the subscription is held. *)
Definition onStateUpdate (e : Env) (c : t) : t * Emitted :=
  if stateListener c && onProgress c
     && (now e - lastAutoProgress c >=? progressInterval c) then
    let c1 :=
      {| taskId := taskId c; startTime := startTime c; startState := startState c;
         lastCheckpointState := lastCheckpointState c;
         checkpointCount := checkpointCount c; currentAction := currentAction c;
         status := status c; progressReports := progressReports c;
         onProgress := onProgress c; onCheckpoint := onCheckpoint c;
         progressInterval := progressInterval c; stateListener := stateListener c;
         lastAutoProgress := now e;
         lastProgressReport := lastProgressReport c;
         abortReason := abortReason c; logs := logs c |} in
    let diff := getStateDiffSinceLastCheckpoint e c in
    match summary diff with
    | [] => (c1, [])
    | _ :: _ =>
        (c1, [mkProgress (currentAction c) PInProgress None
                (Some (String.concat ", " (summary diff))) None])
    end
  else (c, []).

(** [status.toUpperCase()] on the five literals of the status type. *)
Definition toUpperCase (s : LiveStatus) : string :=
  match s with
  | LRunning => "RUNNING"
  | LPaused => "PAUSED"
  | LCompleted => "COMPLETED"
  | LFailed => "FAILED"
  | LAborted => "ABORTED"
  end.

(** [Math.round(ms / 1000)] for an integer [ms]. *)
Definition round_seconds (ms : Z) : Z := (ms + 500) / 1000.

(** The sections of [formatReport], in the order they are pushed. *)
Definition report_head (e : Env) (c : t) : list string :=
  let status := getStatus e c in
  ["# Task Report: " ++ taskId c;
   "Status: " ++ toUpperCase (ts_status status);
   "Duration: " ++ show (round_seconds (ts_elapsedMs status)) ++ "s";
   "Checkpoints: " ++ show (ts_checkpointCount status)].

Definition report_error (e : Env) (c : t) : list string :=
  match ts_error (getStatus e c) with
  | Some error => if truthy error then [""; "## Error"; error] else []
  | None => []
  end.

Definition report_changes (e : Env) (c : t) : list string :=
  let totalDiff := getStateDiffFromStart e c in
  match summary totalDiff with
  | [] => []
  | _ :: _ => [""; "## Changes This Task"; formatStateDiff totalDiff]
  end.

Definition report_log (c : t) : list string :=
  let more :=
    "... and " ++ show (Z.of_nat (length (logs c)) - 20) ++ " more entries" in
  match logs c with
  | [] => []
  | _ :: _ =>
      ([""; "## Log"] ++ slice_last 20 (logs c)
       ++ (if (20 <? length (logs c))%nat then [more] else []))%list
  end.

Definition formatReport_lines (e : Env) (c : t) : list string :=
  (report_head e c ++ report_error e c ++ report_changes e c ++ report_log c
   ++ [""; ts_worldState (getStatus e c)])%list.

Definition formatReport (e : Env) (c : t) : string :=
  String.concat nl (formatReport_lines e c).

End TaskContext.

(* ===================================================================== *)
(** ** Task bodies                                                        *)
(* ===================================================================== *)

(** The task body is an opaque [async] procedure that calls back into
    its context.  It is represented by the tree of those calls: each
    node is one call on [ctx], and the subtree is what the body does
    with the answer.

    A checkpoint is either awaited ([await ctx.checkpoint(reason)]:
    the body does nothing between the call and its answer, and a raise
    of the call leaves the body) or not ([ctx.checkpoint(reason)] as a
    statement: the body goes on at once and the answer is dropped).
    [Suspend] ends a piece of code without ending the body: the body
    awaits something else (a bot action, a timer) and goes on in a
    later turn of the event loop. *)
Inductive Body :=
| Done (result : option JsValue)
| Throw (error : Thrown)
| Suspend
| AwaitCheckpoint (reason : string) (k : CheckpointResult -> Body)
| FireCheckpoint (reason : string) (k : Body)
| SetAction (action : string) (k : Body)
| ReportProgress (p : ProgressArg) (k : Body)
| Log (args : list string) (k : Body)
| Warn (args : list string) (k : Body)
| ShouldContinue (k : bool -> Body).

(* ===================================================================== *)
(** ** [TaskManager]                                                      *)
(* ===================================================================== *)

(** [RunningTask['status']]. *)
Inductive TaskState :=
| Running | Paused | AwaitingFeedback | Completed | Failed | Aborted.

#[global] Instance TaskState_eq_dec : EqDecision TaskState.
Proof. solve_decision. Defined.

(** The record stored while a task is suspended.  [resolve] and
    [reject] are the two handles of one promise; the manager never
    calls [reject], and what [resolve(result)] releases is the awaiting
    [checkpoint] call followed by the rest of the body, [pc_resolve]. *)
Record PendingCheckpoint := mkPending {
  pc_reason : string;
  pc_status : TaskStatus;
  pc_resolve : CheckpointResult -> Body
}.

(** A promise reaction queued by [resolve(result)]: it runs after the
    synchronous code that resolved the promise has finished. *)
Record Job := mkJob {
  job_task : string;
  job_result : CheckpointResult;
  job_resume : CheckpointResult -> Body
}.

Module TaskManager.

Record RunningTask := mkTask {
  id : string;
  botName : string;
  context : TaskContext.t;
  startTime : Z;
  code : string;
  description : string;
  status : TaskState;
  lastUpdate : Z;
  pendingCheckpoint : option PendingCheckpoint;
  progressHistory : list TaskProgress;
  logs : list string
}.

Record t := mk {
  tasks : gmap string RunningTask;
  taskCounter : Z
}.

Definition empty : t := mk ∅ 0.

Definition set_context (c : TaskContext.t) (k : RunningTask) : RunningTask :=
  mkTask (id k) (botName k) c (startTime k) (code k) (description k)
    (status k) (lastUpdate k) (pendingCheckpoint k) (progressHistory k) (logs k).

(** [task.status = s; task.lastUpdate = Date.now()]. *)
Definition set_status (s : TaskState) (time : Z) (k : RunningTask) : RunningTask :=
  mkTask (id k) (botName k) (context k) (startTime k) (code k) (description k)
    s time (pendingCheckpoint k) (progressHistory k) (logs k).

Definition set_pending (p : option PendingCheckpoint) (k : RunningTask) : RunningTask :=
  mkTask (id k) (botName k) (context k) (startTime k) (code k) (description k)
    (status k) (lastUpdate k) p (progressHistory k) (logs k).

(** The [onProgress] closure built by [startTask], applied to one
    report. *)
Definition onProgress (time : Z) (k : RunningTask) (p : TaskProgress) : RunningTask :=
  mkTask (id k) (botName k) (context k) (startTime k) (code k) (description k)
    (status k) time (pendingCheckpoint k) (progressHistory k ++ [p]) (logs k).

Definition deliver (time : Z) (ps : TaskContext.Emitted) (k : RunningTask) : RunningTask :=
  fold_left (onProgress time) ps k.

Definition put (taskId : string) (k : RunningTask) (m : t) : t :=
  mk (<[taskId := k]> (tasks m)) (taskCounter m).

(** [n.toString(36)] for a non-negative integer. *)
Definition digit36 (d : Z) : ascii :=
  if d <? 10 then ascii_of_nat (48 + Z.to_nat d)
  else ascii_of_nat (87 + Z.to_nat d).

Fixpoint base36_fuel (fuel : nat) (n : Z) (acc : string) : string :=
  match fuel with
  | O => acc
  | S f =>
      let acc' := String (digit36 (n mod 36)) acc in
      if n <? 36 then acc' else base36_fuel f (n / 36) acc'
  end.

Definition toString36 (n : Z) : string :=
  base36_fuel (S (Z.to_nat (Z.log2 n))) n "".

Definition generateTaskId (e : Env) (m : t) : string * t :=
  let counter := taskCounter m + 1 in
  ("task-" ++ show counter ++ "-" ++ toString36 (now e),
   mk (tasks m) counter).

(** [startTask]: the record is registered before any execution. *)
Definition startTask (e : Env) (bot code desc : string)
    (checkpointInterval : option Z) (m : t) : (string * TaskStatus) * t :=
  let (taskId, m1) := generateTaskId e m in
  let ctx := TaskContext.create e taskId true true
               (Some (default 5000 checkpointInterval)) in
  let task :=
    {| id := taskId; botName := bot; context := ctx; startTime := now e;
       code := code; description := desc; status := Running;
       lastUpdate := now e; pendingCheckpoint := None;
       progressHistory := []; logs := [] |} in
  ((taskId, TaskContext.getStatus e ctx), put taskId task m1).

Definition not_found_result : CheckpointResult :=
  mkResult false None (Some true) (Some "Task not found").

(** [handleCheckpoint]: answers at once when the task is unknown;
    otherwise the returned promise stays pending ([None]) and its
    resolver is stored on the task. *)
Definition handleCheckpoint (e : Env) (taskId : string) (st : TaskStatus)
    (resolve : CheckpointResult -> Body) (m : t) : option CheckpointResult * t :=
  match tasks m !! taskId with
  | None => (Some not_found_result, m)
  | Some task =>
      let task1 := set_status AwaitingFeedback (now e) task in
      let task2 :=
        set_pending (Some (mkPending (ts_currentAction st) st resolve)) task1 in
      (None, put taskId task2 m)
  end.

Definition not_found (taskId : string) : JsError :=
  mkError ("Task " ++ taskId ++ " not found").

Definition not_paused (taskId : string) : JsError :=
  mkError ("Task " ++ taskId ++ " is not paused at a checkpoint").

Definition continueTask (e : Env) (taskId : string) (instructions : option string)
    (m : t) : Completion CheckpointResult * t * list Job :=
  match tasks m !! taskId with
  | None => (Raised (not_found taskId), m, [])
  | Some task =>
      match pendingCheckpoint task with
      | None => (Raised (not_paused taskId), m, [])
      | Some pending =>
          let result := mkResult true instructions None None in
          let job := mkJob taskId result (pc_resolve pending) in
          let task1 := set_pending None task in
          let task2 := set_status Running (now e) task1 in
          (Returned result, put taskId task2 m, [job])
      end
  end.

Definition abort_result (reason : option string) : CheckpointResult :=
  mkResult false None (Some true) (Some (or_default reason "Task aborted by user")).

Definition abortTask (e : Env) (taskId : string) (reason : option string)
    (m : t) : Completion unit * t * list Job :=
  match tasks m !! taskId with
  | None => (Raised (not_found taskId), m, [])
  | Some task =>
      let task1 := set_status Aborted (now e) task in
      let '(task2, jobs) :=
        match pendingCheckpoint task1 with
        | Some pending =>
            (set_pending None task1,
             [mkJob taskId (abort_result reason) (pc_resolve pending)])
        | None => (task1, [])
        end in
      let task3 := set_context (TaskContext.cleanup (context task2)) task2 in
      (Returned tt, put taskId task3 m, jobs)
  end.

Definition getTaskStatus (taskId : string) (m : t) : option RunningTask :=
  tasks m !! taskId.

(** Run a context operation of [task] and hand what it emits to the
    task's [onProgress] closure. *)
Definition on_context (time : Z)
    (op : TaskContext.t -> TaskContext.t * TaskContext.Emitted)
    (task : RunningTask) : RunningTask :=
  let (c, ps) := op (context task) in
  deliver time ps (set_context c task).

Definition completeTask (e : Env) (taskId : string) (result : option JsValue)
    (m : t) : t :=
  match tasks m !! taskId with
  | Some task =>
      let task1 := set_status Completed (now e) task in
      let task2 := on_context (now e) (TaskContext.complete e result) task1 in
      let task3 := set_context (TaskContext.cleanup (context task2)) task2 in
      put taskId task3 m
  | None => m
  end.

Definition failTask (e : Env) (taskId : string) (error : option string) (m : t) : t :=
  match tasks m !! taskId with
  | Some task =>
      let task1 := set_status Failed (now e) task in
      let task2 := on_context (now e) (TaskContext.fail e error) task1 in
      let task3 := set_context (TaskContext.cleanup (context task2)) task2 in
      put taskId task3 m
  | None => m
  end.

(** The condition of the loop of [cleanup]. *)
Definition evictable (time maxAgeMs : Z) (task : RunningTask) : bool :=
  (time - lastUpdate task >? maxAgeMs)
  && negb (bool_decide (status task = Running))
  && negb (bool_decide (status task = AwaitingFeedback)).

(** One iteration of the loop of [cleanup]; the evicted task takes its
    (cleaned-up) context with it. *)
Definition cleanup_step (time maxAgeMs : Z) (taskId : string) (task : RunningTask)
    (acc : Z * t) : Z * t :=
  if evictable time maxAgeMs task
  then (acc.1 + 1, mk (delete taskId (tasks acc.2)) (taskCounter acc.2))
  else acc.

(** [cleanup(maxAgeMs = 30 * 60 * 1000)]: the number of evicted tasks
    and the new table. *)
Definition cleanup (e : Env) (maxAgeMs : option Z) (m : t) : Z * t :=
  let maxAge := default (30 * 60 * 1000) maxAgeMs in
  map_fold (cleanup_step (now e) maxAge) (0, m) (tasks m).

(** [formatTaskReport(taskId)]. *)
Definition formatTaskReport (e : Env) (taskId : string) (m : t) : string :=
  match tasks m !! taskId with
  | None => "Task " ++ taskId ++ " not found"
  | Some task => TaskContext.formatReport e (context task)
  end.

End TaskManager.

(* ===================================================================== *)
(** ** The invocation harness ([run_task] and friends in [server.ts])     *)
(* ===================================================================== *)

Module Harness.
Import TaskManager.

(** A call on [ctx] made by the body of task [taskId].  The harness
    holds [ctx] through the task record; a task that is no longer in
    the table is terminal and nothing its body does can reach the
    table any more ([handleCheckpoint] answers "not found",
    [completeTask] and [failTask] do nothing), so its calls are
    skipped. *)
Definition ctx_call (e : Env) (taskId : string)
    (op : TaskContext.t -> TaskContext.t * TaskContext.Emitted) (m : t) : t :=
  match tasks m !! taskId with
  | Some task => put taskId (on_context (now e) op task) m
  | None => m
  end.

Definition silent (f : TaskContext.t -> TaskContext.t)
  : TaskContext.t -> TaskContext.t * TaskContext.Emitted :=
  fun c => (f c, []).

(** The [catch] of the execution wrapper: a raise while the task is
    [awaiting_feedback] counts as a pause; otherwise the task fails
    with [error.message].  When that read raises (the body threw [null]
    or [undefined]) the exception leaves the wrapper and nothing is
    recorded. *)
Definition on_throw (e : Env) (taskId : string) (error : Thrown) (m : t) : t :=
  match tasks m !! taskId with
  | Some task =>
      if decide (status task = AwaitingFeedback) then m
      else
        match message_of error with
        | Returned message => failTask e taskId message m
        | Raised _ => m
        end
  | None => m
  end.

(** Run the body of [taskId] until it finishes or suspends.

    [Done] and [Throw] end in the two arms of
    [try { result = await fn(ctx, patterns); completeTask(..) } catch ..].
    [AwaitCheckpoint] runs the first half of [ctx.checkpoint], then the
    [onCheckpoint] closure of [startTask], that is [handleCheckpoint];
    when that leaves its promise pending the run stops here and the
    continuation [k] waits in the pending record.  [FireCheckpoint]
    does the same up to the pending promise, which nothing awaits: the
    body goes on, and what waits in the pending record is the rest of
    the [checkpoint] call alone. *)
Fixpoint run_body (e : Env) (taskId : string) (b : Body) (m : t) : t :=
  match b with
  | Done result => completeTask e taskId result m
  | Throw error => on_throw e taskId error m
  | Suspend => m
  | FireCheckpoint reason k =>
      match tasks m !! taskId with
      | None => m
      | Some task =>
          let (c1, st) := TaskContext.checkpoint_enter e reason (context task) in
          let m1 := put taskId (set_context c1 task) m in
          if TaskContext.onCheckpoint c1
          then run_body e taskId k (handleCheckpoint e taskId st (fun _ => Suspend) m1).2
          else run_body e taskId k m1
      end
  | AwaitCheckpoint reason k =>
      match tasks m !! taskId with
      | None => m
      | Some task =>
          let (c1, st) := TaskContext.checkpoint_enter e reason (context task) in
          let m1 := put taskId (set_context c1 task) m in
          if TaskContext.onCheckpoint c1 then
            match handleCheckpoint e taskId st k m1 with
            | (None, m2) => m2
            | (Some r, m2) =>
                match tasks m2 !! taskId with
                | None => m2
                | Some task2 =>
                    let (res, c2) :=
                      TaskContext.checkpoint_settle (Fulfilled r) (context task2) in
                    let m3 := put taskId (set_context c2 task2) m2 in
                    match res with
                    | Returned r' => run_body e taskId (k r') m3
                    | Raised err => on_throw e taskId (ThrownError err) m3
                    end
                end
            end
          else run_body e taskId (k TaskContext.continue_result) m1
      end
  | SetAction a k =>
      run_body e taskId k (ctx_call e taskId (TaskContext.setAction e a) m)
  | ReportProgress p k =>
      run_body e taskId k (ctx_call e taskId (TaskContext.reportProgress e p) m)
  | Log args k =>
      run_body e taskId k (ctx_call e taskId (silent (TaskContext.log args)) m)
  | Warn args k =>
      run_body e taskId k (ctx_call e taskId (silent (TaskContext.warn args)) m)
  | ShouldContinue k =>
      match tasks m !! taskId with
      | None => m
      | Some task => run_body e taskId (k (TaskContext.shouldContinue (context task))) m
      end
  end.

(** A queued promise reaction: the suspended [checkpoint] call of the
    task resumes after its [await] with the result, and the body goes
    on from there. *)
Definition run_job (e : Env) (m : t) (j : Job) : t :=
  match tasks m !! job_task j with
  | None => m
  | Some task =>
      let (res, c) :=
        TaskContext.checkpoint_settle (Fulfilled (job_result j)) (context task) in
      let m1 := put (job_task j) (set_context c task) m in
      match res with
      | Returned r => run_body e (job_task j) (job_resume j r) m1
      | Raised err => on_throw e (job_task j) (ThrownError err) m1
      end
  end.

Definition run_jobs (e : Env) (jobs : list Job) (m : t) : t :=
  fold_left (run_job e) jobs m.

(** The turns of the event loop.  A request of the external controller
    is the synchronous call on the manager, then the promise reactions
    it queued.  [Resume taskId body] is a turn in which code of task
    [taskId] that was waiting for something else than a checkpoint goes
    on with [body]; the harness does not keep what that code is, so
    any [body] may come: the set of states it yields contains every
    state the server can be in. *)
Inductive Request :=
| RunTask (bot code desc : string) (body : Body)
| ContinueTask (taskId : string) (instructions : option string)
| AbortTask (taskId : string) (reason : option string)
| Cleanup (maxAgeMs : option Z)
| StateUpdate (taskId : string)
| Resume (taskId : string) (body : Body).

Definition run_task (e : Env) (bot code desc : string) (body : Body) (m : t) : t :=
  let '((taskId, _), m1) := startTask e bot code desc None m in
  run_body e taskId body m1.

(** The [continue_task] tool: it answers with an error, without calling
    the manager, unless the task is known and [awaiting_feedback]. *)
Definition continue_task (e : Env) (taskId : string) (instructions : option string)
    (m : t) : t :=
  match getTaskStatus taskId m with
  | None => m
  | Some task =>
      if decide (status task = AwaitingFeedback) then
        let '(_, m1, jobs) := continueTask e taskId instructions m in
        run_jobs e jobs m1
      else m
  end.

Definition abort_task (e : Env) (taskId : string) (reason : option string)
    (m : t) : t :=
  let '(_, m1, jobs) := abortTask e taskId reason m in
  run_jobs e jobs m1.

Definition handle (m : t) (step : Env * Request) : t :=
  let (e, rq) := step in
  match rq with
  | RunTask bot code desc body => run_task e bot code desc body m
  | ContinueTask taskId instructions => continue_task e taskId instructions m
  | AbortTask taskId reason => abort_task e taskId reason m
  | Cleanup maxAgeMs => (cleanup e maxAgeMs m).2
  | StateUpdate taskId => ctx_call e taskId (TaskContext.onStateUpdate e) m
  | Resume taskId body => run_body e taskId body m
  end.

Definition run (trace : list (Env * Request)) : t :=
  fold_left handle trace empty.

(** The states of the task table the system can be in. *)
Definition reachable (m : t) : Prop := exists trace, m = run trace.

End Harness.

(** ** Operations on one context, for statements about its history *)

Inductive CtxOp :=
| OpReportProgress (p : ProgressArg)
| OpSetAction (a : string)
| OpLog (args : list string)
| OpWarn (args : list string)
| OpCheckpoint (reason : string) (handler : TaskStatus -> Settled)
| OpComplete (result : option JsValue)
| OpFail (error : option string)
| OpCleanup
| OpStateUpdate.

Definition apply_op (e : Env) (op : CtxOp) (c : TaskContext.t) : TaskContext.t :=
  match op with
  | OpReportProgress p => (TaskContext.reportProgress e p c).1
  | OpSetAction a => (TaskContext.setAction e a c).1
  | OpLog args => TaskContext.log args c
  | OpWarn args => TaskContext.warn args c
  | OpCheckpoint reason handler => (TaskContext.checkpoint e reason handler c).2
  | OpComplete result => (TaskContext.complete e result c).1
  | OpFail error => (TaskContext.fail e error c).1
  | OpCleanup => TaskContext.cleanup c
  | OpStateUpdate => (TaskContext.onStateUpdate e c).1
  end.

Definition apply_ops (ops : list (Env * CtxOp)) (c : TaskContext.t) : TaskContext.t :=
  fold_left (fun c s => apply_op s.1 s.2 c) ops c.

(* ===================================================================== *)
(** ** Vocabulary of the statements                                       *)
(* ===================================================================== *)

(** A phase of the differ writes its own field of the diff and appends
    to the summary: [untouched] relates two diffs that agree on the
    fields read across phases, [grows] two diffs of which the second
    has only added summary lines. *)
Definition untouched (d d' : StateDiff) : Prop :=
  d_inventory d' = d_inventory d /\ d_xpGained d' = d_xpGained d
  /\ d_position d' = d_position d.

Definition grows (d d' : StateDiff) : Prop :=
  summary d `prefix_of` summary d'.

Ltac unfold_steps :=
  unfold gained_step, lost_step, skill_step, appeared_step, disappeared_step,
    push_gained, push_lost, push_changed, push_xp, push_appeared,
    push_disappeared, push_died, push_if in *.

Ltac step_cases :=
  repeat match goal with
         | |- context [match ?x with _ => _ end] => destruct x eqn:?; simpl
         | |- context [if ?x then _ else _] => destruct x eqn:?; simpl
         end.


(** The shape of the position line of the summary: it starts with [M]
    and ends with [s]. *)
Definition head_char (s : string) : option ascii :=
  match s with String c _ => Some c | EmptyString => None end.

Fixpoint last_char (s : string) : option ascii :=
  match s with
  | EmptyString => None
  | String c EmptyString => Some c
  | String _ r => last_char r
  end.

Definition moved_shape (s : string) : Prop :=
  head_char s = Some "M"%char /\ last_char s = Some "s"%char.

(** Every line of that shape in a summary is the position line [line],
    written under the condition [cond]. *)
Definition only_moved (cond : Prop) (line : string) (ls : list string) : Prop :=
  forall l, In l ls -> moved_shape l -> cond /\ l = line.

(** A snapshot is a capture at one tick: the events and messages it
    carries happened no later than its own tick, and it lists each
    skill once. *)
Definition point_in_time (S : BotWorldState) : Prop :=
  NoDup (map skill_name (skills S))
  /\ (forall evts, combatEvents S = Some evts ->
        Forall (fun e => evt_tick e <= tick S) evts)
  /\ (forall msgs, gameMessages S = Some msgs ->
        Forall (fun m => msg_tick m <= tick S) msgs).


(** The tasks of a table that [cleanup] would evict at [time]. *)
Definition stale (time maxAge : Z) (tasks : gmap string TaskManager.RunningTask)
  : gmap string TaskManager.RunningTask :=
  filter (fun kv => TaskManager.evictable time maxAge kv.2 = true) tasks.

(** What the table keeps true about who is suspended.  A task that is
    [awaiting_feedback] holds a pending-checkpoint record.  A record is
    held only by such a task, or by one whose body finished (status
    completed or failed) while a checkpoint it had not awaited was still
    open: [completeTask] and [failTask] leave the record in place. *)
Definition record_sound (task : TaskManager.RunningTask) : Prop :=
  (TaskManager.status task = AwaitingFeedback ->
   is_Some (TaskManager.pendingCheckpoint task))
  /\ (is_Some (TaskManager.pendingCheckpoint task) ->
      TaskManager.status task = AwaitingFeedback
      \/ TaskManager.status task = Completed
      \/ TaskManager.status task = Failed).

Definition pending_sound (m : TaskManager.t) : Prop :=
  forall id task, TaskManager.tasks m !! id = Some task -> record_sound task.

(** ** Observations on a task, and sample runs *)

Definition task_status (taskId : string) (m : TaskManager.t) : option TaskState :=
  TaskManager.status <$> TaskManager.tasks m !! taskId.

Definition pending_of (taskId : string) (m : TaskManager.t) : option PendingCheckpoint :=
  TaskManager.tasks m !! taskId ≫= TaskManager.pendingCheckpoint.

(** The statuses of the progress reports the manager received. *)
Definition reported (taskId : string) (m : TaskManager.t) : list ProgressStatus :=
  match TaskManager.tasks m !! taskId with
  | Some task => map tp_status (TaskManager.progressHistory task)
  | None => []
  end.

Definition context_of (taskId : string) (m : TaskManager.t) : option TaskContext.t :=
  TaskManager.context <$> TaskManager.tasks m !! taskId.

(** [await ctx.checkpoint(A); await ctx.checkpoint(B);] and return. *)
Definition two_checkpoints (A B : string) : Body :=
  AwaitCheckpoint A (fun _ => AwaitCheckpoint B (fun _ => Done None)).

(** A body that honours the answer of its checkpoint: it returns at once
    when told not to continue, and otherwise goes on to a second
    checkpoint. *)
Definition obedient_body : Body :=
  AwaitCheckpoint "A"
    (fun r => if cr_continue r
              then AwaitCheckpoint "B" (fun _ => Done None)
              else Done None).

Definition at_time (t : Z) : Env := mkEnv t None "".

(** The table after [run_task] has started one task at time 1000; its
    generated id is ["task-1-rs"]. *)
Definition started (body : Body) : TaskManager.t :=
  Harness.run [(at_time 1000, Harness.RunTask "bot" "code" "demo" body)].

(** The total count of the stacks of one item identity in an inventory,
    and the count a grouped inventory holds for it. *)
Definition stack_total (id : Z) (items : list InventoryItem) : Z :=
  fold_right (fun it acc => if decide (item_id it = id) then item_count it + acc else acc)
    0 items.

Definition grouped_count (m : list (Z * InventoryItem)) (id : Z) : Z :=
  match JsMap.get m id with Some e => item_count e | None => 0 end.

(* ===================================================================== *)
(** ** Further code of the three modules                                  *)
(* ===================================================================== *)

(** *** Vocabulary for the differ *)

(** The events of the "after" snapshot that the differ counts: those
    dated after the "before" tick ([[]] without a [combatEvents] field). *)
Definition new_events (before after : BotWorldState) : list CombatEvent :=
  match combatEvents after with
  | Some evts => List.filter (fun e => evt_tick e >? tick before) evts
  | None => []
  end.

(** The damage of the events of one type, and the number of events of
    one type. *)
Definition damage_of (ty : string) (evts : list CombatEvent) : Z :=
  fold_right (fun e acc => if String.eqb (evt_type e) ty then evt_damage e + acc else acc)
    0 evts.

Definition count_of (ty : string) (evts : list CombatEvent) : Z :=
  fold_right (fun e acc => if String.eqb (evt_type e) ty then 1 + acc else acc) 0 evts.

(** An inventory holds a stack of the identity. *)
Definition holds (id : Z) (items : list InventoryItem) : Prop :=
  In id (map item_id items).

Definition npc_ref (n : NearbyNpc) : NpcRef := mkNpcRef (npc_name n) (npc_index n).

(** *** Vocabulary for the task context *)

(** The line [checkpoint] logs first. *)
Definition checkpoint_line (c : TaskContext.t) (reason : string) : string :=
  "[Checkpoint " ++ show (TaskContext.checkpointCount c + 1) ++ "] " ++ reason.

(** Whether the handler's answer to the snapshot asks for an abort. *)
Definition asks_abort (o : Settled) : bool :=
  match o with
  | Fulfilled r => TaskContext.aborts r
  | Rejected _ => false
  end.

(** The fields of a context fixed at construction. *)
Definition same_identity (c c' : TaskContext.t) : Prop :=
  TaskContext.taskId c' = TaskContext.taskId c
  /\ TaskContext.startTime c' = TaskContext.startTime c
  /\ TaskContext.startState c' = TaskContext.startState c
  /\ TaskContext.onProgress c' = TaskContext.onProgress c
  /\ TaskContext.onCheckpoint c' = TaskContext.onCheckpoint c
  /\ TaskContext.progressInterval c' = TaskContext.progressInterval c.

Definition is_checkpoint (op : CtxOp) : bool :=
  match op with OpCheckpoint _ _ => true | _ => false end.

(** The operations that go through [reportProgress]. *)
Definition is_report (op : CtxOp) : bool :=
  match op with
  | OpReportProgress _ | OpSetAction _ | OpComplete _ | OpFail _ => true
  | _ => false
  end.

Definition count_ops (p : CtxOp -> bool) (ops : list (Env * CtxOp)) : nat :=
  length (List.filter (fun s => p s.2) ops).

(** *** Vocabulary for the task manager *)

(** Two tables that differ at one task at most: the same counter, the
    same records for the other tasks, and the task is in both or in
    neither. *)
Definition same_elsewhere (taskId : string) (m m' : TaskManager.t) : Prop :=
  TaskManager.taskCounter m' = TaskManager.taskCounter m
  /\ (forall other, other <> taskId ->
        TaskManager.tasks m' !! other = TaskManager.tasks m !! other)
  /\ (is_Some (TaskManager.tasks m' !! taskId)
      <-> is_Some (TaskManager.tasks m !! taskId)).

Fixpoint no_dash (s : string) : bool :=
  match s with
  | EmptyString => true
  | String c r => negb (Ascii.eqb c "-") && no_dash r
  end.

(** The identifiers [generateTaskId] makes at counter value [n]. *)
Definition issued (n : Z) (k : string) : Prop :=
  exists s, k = "task-" ++ show n ++ "-" ++ s.

(** Every task of the table carries an identifier issued at a counter
    value the manager has passed. *)
Definition ids_bounded (m : TaskManager.t) : Prop :=
  0 <= TaskManager.taskCounter m
  /\ forall k task,
       TaskManager.tasks m !! k = Some task ->
       exists n, 1 <= n <= TaskManager.taskCounter m /\ issued n k.

(** The three statuses a task does not leave by itself. *)
Definition terminal (s : TaskState) : bool :=
  match s with
  | Completed | Failed | Aborted => true
  | _ => false
  end.

(** How a run of a piece of a body can leave the record of its task:
    completed, failed, suspended at a checkpoint, or with the status
    and the pending record of [task]. *)
Definition settled (task task' : TaskManager.RunningTask) : Prop :=
  (TaskManager.status task' = Completed
   /\ TaskContext.status (TaskManager.context task') = LCompleted)
  \/ (TaskManager.status task' = Failed
      /\ TaskContext.status (TaskManager.context task') = LFailed)
  \/ (TaskManager.status task' = AwaitingFeedback
      /\ is_Some (TaskManager.pendingCheckpoint task'))
  \/ (TaskManager.status task' = TaskManager.status task
      /\ TaskManager.pendingCheckpoint task'
         = TaskManager.pendingCheckpoint task).

(** What holds of every record the manager builds and maintains. *)
Record task_wf (k : string) (task : TaskManager.RunningTask) : Prop := mk_task_wf {
  wf_id : TaskManager.id task = k;
  wf_ctx_id : TaskContext.taskId (TaskManager.context task) = k;
  wf_progress : TaskContext.onProgress (TaskManager.context task) = true;
  wf_checkpoint : TaskContext.onCheckpoint (TaskManager.context task) = true;
  wf_interval : TaskContext.progressInterval (TaskManager.context task) = 5000;
  wf_history :
    TaskContext.progressReports (TaskManager.context task)
      `sublist_of` TaskManager.progressHistory task;
  wf_released :
    terminal (TaskManager.status task) = true ->
    TaskContext.stateListener (TaskManager.context task) = false;
  wf_logs : TaskManager.logs task = [];
  wf_not_paused : TaskManager.status task <> Paused;
  wf_ctx_not_paused : TaskContext.status (TaskManager.context task) <> LPaused
}.

Definition table_wf (m : TaskManager.t) : Prop :=
  forall k task, TaskManager.tasks m !! k = Some task -> task_wf k task.

(** A context operation as the manager's bookkeeping sees it: it keeps
    the identity of the context, takes no subscription, does not mark
    the context paused, and hands every report it records to the
    progress listener. *)
Definition tracked (op : TaskContext.t -> TaskContext.t * TaskContext.Emitted) : Prop :=
  forall c,
    TaskContext.onProgress c = true ->
    same_identity c (op c).1
    /\ (TaskContext.stateListener c = false ->
        TaskContext.stateListener (op c).1 = false)
    /\ (TaskContext.status c <> LPaused -> TaskContext.status (op c).1 <> LPaused)
    /\ exists extra,
         TaskContext.progressReports (op c).1
         = (TaskContext.progressReports c ++ extra)%list
         /\ extra `sublist_of` (op c).2.

(* ===================================================================== *)
(** ** [patterns.ts]: the supervised loop                                 *)
(* ===================================================================== *)

Module Patterns.

(** [stopOnItemCount]: the pattern is used through [regex.test] (a
    regular expression without the [g] and [y] flags, so that the test
    does not depend on earlier tests) and through its text in the stop
    reason. *)
Record ItemStop := mkItemStop {
  is_test : string -> bool;
  is_item : string;
  is_count : Z
}.

Record SkillStop := mkSkillStop {
  ss_skill : string;
  ss_level : Z
}.

Record LoopOptions := mkLoopOptions {
  maxIterations : option Z;
  checkpointEvery : option Z;
  checkpointReason : option string;
  stopOnFullInventory : option bool;
  stopOnItemCount : option ItemStop;
  stopOnSkillLevel : option SkillStop;
  stopWhen : option (BotWorldState -> Z -> bool)
}.

(** What the surroundings of one call of [loop] answer: the world at
    the top of iteration [i], the world after its action, how the
    action of iteration [i] completes, and how the checkpoint taken in
    iteration [i] settles. *)
Record Run := mkRun {
  world : Z -> Env;
  world_after : Z -> Env;
  action : Z -> Completion bool;
  answer : Z -> TaskStatus -> Settled
}.

(** The loop result [{ completed, stopped }]. *)
Record LoopResult := mkLoopResult {
  completed : Z;
  stopped : string
}.

Section Loop.

(** [String.prototype.toLowerCase]. *)
Variable toLowerCase : string -> string.

Variable o : LoopOptions.
Variable actionName : string.
Variable r : Run.

Definition max_iterations : Z := default 100 (maxIterations o).
Definition checkpoint_every : Z := default 5 (checkpointEvery o).
Definition checkpoint_reason : string := default "Progress check" (checkpointReason o).

(** [state.inventory.filter(item => regex.test(item.name))
          .reduce((sum, item) => sum + item.count, 0)]. *)
Definition item_total (test : string -> bool) (inv : list InventoryItem) : Z :=
  fold_left (fun sum item => sum + item_count item)
    (List.filter (fun item => test (item_name item)) inv) 0.

(** The stop conditions at the top of an iteration, in their order. *)
Definition stop_check (state : BotWorldState) (i : Z) : option string :=
  if default false (stopOnFullInventory o)
     && (Z.of_nat (length (inventory state)) >=? 28)
  then Some "inventory full"
  else
    match
      match stopOnItemCount o with
      | Some s =>
          if item_total (is_test s) (inventory state) >=? is_count s
          then Some ("reached " ++ show (is_count s) ++ " " ++ is_item s)
          else None
      | None => None
      end
    with
    | Some reason => Some reason
    | None =>
        match
          match stopOnSkillLevel o with
          | Some s =>
              match find_first
                      (fun k => String.eqb (toLowerCase (skill_name k))
                                  (toLowerCase (ss_skill s)))
                      (skills state) with
              | Some skill =>
                  if skill_baseLevel skill >=? ss_level s
                  then Some ("reached level " ++ show (ss_level s) ++ " " ++ ss_skill s)
                  else None
              | None => None
              end
          | None => None
          end
        with
        | Some reason => Some reason
        | None =>
            match stopWhen o with
            | Some p => if p state i then Some "custom condition" else None
            | None => None
            end
        end
    end.

(** [(i + 1) % checkpointEvery === 0]; the remainder by zero is [NaN]. *)
Definition checkpoint_due (n : Z) : bool :=
  if checkpoint_every =? 0 then false else Z.rem n checkpoint_every =? 0.

Definition progress_of (completed : Z) (success : bool) : ProgressArg :=
  mkProgressArg actionName None
    (Some (mkCounter completed max_iterations (Some "iterations")))
    (Some (if success then "Success" else "Failed (continuing)")) None.

(** [if (feedback.newInstructions) ctx.log(...)]. *)
Definition log_instructions (feedback : CheckpointResult) (c : TaskContext.t)
  : TaskContext.t :=
  match cr_newInstructions feedback with
  | Some ins =>
      if truthy ins then TaskContext.log ["Received instructions: " ++ ins] c else c
  | None => c
  end.

(** The [for] statement from iteration [i] on, with [remaining]
    iterations before [i] reaches [maxIterations]. *)
Fixpoint loop_from (remaining : nat) (i done : Z) (c : TaskContext.t)
  : Completion LoopResult * TaskContext.t :=
  match remaining with
  | O => (Returned (mkLoopResult done "max iterations"), c)
  | S rest =>
      if (i <? max_iterations) && TaskContext.shouldContinue c then
        match
          match sdkState (world r i) with
          | Some state => stop_check state i
          | None => None
          end
        with
        | Some reason => (Returned (mkLoopResult done reason), c)
        | None =>
            match action r i with
            | Raised err => (Raised err, c)
            | Returned success =>
                let done1 := if success then done + 1 else done in
                let c1 :=
                  (TaskContext.reportProgress (world_after r i)
                     (progress_of done1 success) c).1 in
                if checkpoint_due (i + 1) then
                  match
                    TaskContext.checkpoint (world_after r i)
                      (checkpoint_reason ++ ": " ++ show done1 ++ " completed")
                      (answer r i) c1
                  with
                  | (Raised err, c2) => (Raised err, c2)
                  | (Returned feedback, c2) =>
                      if negb (cr_continue feedback)
                      then (Returned (mkLoopResult done1 "aborted"), c2)
                      else loop_from rest (i + 1) done1 (log_instructions feedback c2)
                  end
                else loop_from rest (i + 1) done1 c1
            end
        end
      else (Returned (mkLoopResult done "max iterations"), c)
  end.

(** [loop(ctx, actionName, action, options)], entered in the world [e0]. *)
Definition loop (e0 : Env) (c : TaskContext.t)
  : Completion LoopResult * TaskContext.t :=
  let c0 := (TaskContext.setAction e0 actionName c).1 in
  match loop_from (Z.to_nat max_iterations) 0 0 c0 with
  | (Returned res, c1) =>
      (Returned res,
       TaskContext.log
         ["Loop finished: " ++ show (completed res) ++ " completed, stopped: "
          ++ stopped res] c1)
  | (Raised err, c1) => (Raised err, c1)
  end.

(** The stop reasons [loop] can report. *)
Definition stop_reason (s : string) : Prop :=
  s = "max iterations" \/ s = "inventory full" \/ s = "custom condition"
  \/ s = "aborted"
  \/ (exists k, stopOnItemCount o = Some k
                /\ s = "reached " ++ show (is_count k) ++ " " ++ is_item k)
  \/ (exists k, stopOnSkillLevel o = Some k
                /\ s = "reached level " ++ show (ss_level k) ++ " " ++ ss_skill k).

End Loop.

End Patterns.

(** *** Vocabulary for the loop *)

(** What a step of the loop keeps of the context. *)
Definition keeps (c c' : TaskContext.t) : Prop :=
  same_identity c c'
  /\ TaskContext.currentAction c' = TaskContext.currentAction c
  /\ TaskContext.logs c `prefix_of` TaskContext.logs c'.

(** The number of actions a call of [loop] performed, read off the
    progress history: one report for the new action, one an action. *)
Definition performed (c c' : TaskContext.t) : Z :=
  Z.of_nat (length (TaskContext.progressReports c'))
  - Z.of_nat (length (TaskContext.progressReports c)) - 1.

(** Every checkpoint answer of the run lets the loop go on. *)
Definition always_continue (r : Patterns.Run) : Prop :=
  forall i st,
    match Patterns.answer r i st with
    | Fulfilled feedback => cr_continue feedback = true
    | Rejected _ => True
    end.

(** A sample run: every action succeeds and every checkpoint is
    answered with [{ continue: true }]. *)
Definition steady_run : Patterns.Run :=
  Patterns.mkRun (fun _ => mkEnv 1000 None "") (fun _ => mkEnv 2000 None "")
    (fun _ => Returned true)
    (fun _ _ => Fulfilled TaskContext.continue_result).

Definition two_rounds : Patterns.LoopOptions :=
  Patterns.mkLoopOptions (Some 2) (Some 1) None None None None None.



(* ===================================================================== *)
(** * Part II. Properties of the differ                                   *)
(* ===================================================================== *)

(** ** Integer model of [Math.sqrt] against the real square root *)

Lemma sqrt_IZR_lt (n : Z) (x : R) :
  0 <= n -> (0 <= x)%R -> (IZR n < x * x)%R -> (sqrt (IZR n) < x)%R.
Proof.
  intros Hn Hx H.
  rewrite <- (sqrt_square x Hx).
  apply sqrt_lt_1_alt. split; [apply IZR_le; exact Hn | exact H].
Qed.

Lemma sqrt_IZR_ge (n : Z) (x : R) :
  (0 <= x)%R -> (x * x <= IZR n)%R -> (x <= sqrt (IZR n))%R.
Proof.
  intros Hx H.
  rewrite <- (sqrt_square x Hx).
  apply sqrt_le_1_alt. exact H.
Qed.

(** [dist > 0] is [dist2 > 0]. *)
Lemma sqrt_pos_iff (n : Z) : 0 <= n -> (0 < sqrt (IZR n))%R <-> 0 < n.
Proof.
  intros Hn. split.
  - intros H. destruct (Z.eq_dec n 0) as [->|]; [|clear H; lia].
    rewrite sqrt_0 in H. lra.
  - intros H. apply sqrt_lt_R0. apply IZR_lt. exact H.
Qed.

(** [dist >= 5] is [dist2 >= 25]. *)
Lemma sqrt_ge5_iff (n : Z) : 0 <= n -> (5 <= sqrt (IZR n))%R <-> 25 <= n.
Proof.
  intros Hn. split.
  - intros H. destruct (Z_lt_le_dec n 25) as [Hlt|]; [|assumption].
    exfalso. assert (sqrt (IZR n) < 5)%R; [|lra].
    apply sqrt_IZR_lt; [assumption | lra |].
    apply IZR_lt in Hlt. lra.
  - intros H. apply sqrt_IZR_ge; [lra|]. apply IZR_le in H. lra.
Qed.

Lemma round_sqrt_bounds (n : Z) :
  0 <= n ->
  let r := round_sqrt n in
  0 <= r /\ (r = 0 \/ (2 * r - 1) * (2 * r - 1) <= 4 * n)
  /\ 4 * n < (2 * r + 1) * (2 * r + 1).
Proof.
  intros Hn r. unfold round_sqrt in r.
  pose proof (Z.sqrt_spec (4 * n) ltac:(lia)) as [Hlo Hhi].
  pose proof (Z.sqrt_nonneg (4 * n)) as Hs.
  set (s := Z.sqrt (4 * n)) in *.
  pose proof (Z.div_mod (s + 1) 2 ltac:(lia)) as Hdm.
  pose proof (Z.mod_pos_bound (s + 1) 2 ltac:(lia)) as Hm.
  fold r in Hdm.
  assert (Hr : 0 <= r) by (subst r; apply Z.div_pos; lia).
  split; [exact Hr|].
  assert (Hcase : s = 2 * r - 1 \/ s = 2 * r) by lia.
  destruct (Z.eq_dec r 0) as [Hr0 | Hr0].
  - split; [left; exact Hr0 |].
    destruct Hcase as [Hs1 | Hs1]; rewrite Hs1 in Hhi; nia.
  - split; [right |]; destruct Hcase as [Hs1 | Hs1]; rewrite Hs1 in Hlo, Hhi; nia.
Qed.

(** [round_sqrt n] is [Math.round] of the real square root: the integer
    [r] with [r - 1/2 <= sqrt n < r + 1/2]. *)
Lemma round_sqrt_spec (n : Z) :
  0 <= n ->
  (IZR (round_sqrt n) - 1 / 2 <= sqrt (IZR n) < IZR (round_sqrt n) + 1 / 2)%R.
Proof.
  intros Hn. destruct (round_sqrt_bounds n Hn) as (Hr & Hlo & Hhi).
  set (r := round_sqrt n) in *.
  assert (Hr1 : r = 0 \/ 1 <= r) by lia.
  assert (HrR : (0 <= IZR r)%R) by (apply IZR_le; exact Hr).
  split.
  - destruct Hlo as [-> | Hlo].
    + pose proof (sqrt_pos (IZR n)). simpl. lra.
    + destruct Hr1 as [Hr0 | Hr1];
        [rewrite Hr0; pose proof (sqrt_pos (IZR n)); simpl; lra |].
      assert (1 <= IZR r)%R by (apply IZR_le; assumption).
      apply sqrt_IZR_ge; [lra|].
      apply IZR_le in Hlo. rewrite !mult_IZR, !minus_IZR, !mult_IZR in Hlo. lra.
  - apply sqrt_IZR_lt; [assumption | lra |].
    apply IZR_lt in Hhi. rewrite !mult_IZR, !plus_IZR, !mult_IZR in Hhi. lra.
Qed.

(** ** [Math.round(Math.sqrt(n))] in double precision *)

(** The scaled rounding agrees with the plain one while the scale is
    large against the root. *)
Lemma scaled_round (n k m T T' : Z) :
  1 <= n -> 1 <= k -> 1 <= m -> T = 2 * T' -> 1 <= T' ->
  (2 * k - 1) * (2 * k - 1) <= 4 * n < (2 * k + 1) * (2 * k + 1) ->
  (2 * m - 1) * (2 * m - 1) <= 4 * (n * (T * T)) < (2 * m + 1) * (2 * m + 1) ->
  4 * k + 2 <= T ->
  (2 * m + T) / (2 * T) = k.
Proof.
  intros Hn Hk Hm HT HT' [Hk1 Hk2] [Hm1 Hm2] Hbig.
  assert (Ha : T * (2 * k - 1) <= 2 * m).
  { destruct (Z_le_gt_dec (T * (2 * k - 1)) (2 * m)) as [|Hgt]; [assumption|].
    exfalso.
    assert (H1 : 2 * m + 1 <= T * (2 * k - 1) - 1) by (subst T; nia).
    assert (H2 : (2 * m + 1) * (2 * m + 1)
                 <= (T * (2 * k - 1) - 1) * (T * (2 * k - 1) - 1)) by nia.
    assert (H3 : (T * (2 * k - 1)) * (T * (2 * k - 1))
                 = T * T * ((2 * k - 1) * (2 * k - 1))) by ring.
    assert (H4 : T * T * ((2 * k - 1) * (2 * k - 1)) <= T * T * (4 * n))
      by (apply Z.mul_le_mono_nonneg_l; nia).
    nia. }
  assert (Hb : 2 * m < T * (2 * k + 1)).
  { destruct (Z_lt_le_dec (2 * m) (T * (2 * k + 1))) as [|Hge]; [assumption|].
    exfalso.
    assert (H1 : 0 <= T * (2 * k + 1) - 1 <= 2 * m - 1) by nia.
    assert (H2 : (T * (2 * k + 1) - 1) * (T * (2 * k + 1) - 1)
                 <= (2 * m - 1) * (2 * m - 1)) by nia.
    assert (H3 : 4 * n <= (2 * k + 1) * (2 * k + 1) - 1) by lia.
    assert (H4 : T * T * (4 * n) <= T * T * ((2 * k + 1) * (2 * k + 1) - 1))
      by (apply Z.mul_le_mono_nonneg_l; nia).
    assert (H5 : (T * (2 * k + 1) - 1) * (T * (2 * k + 1) - 1)
                 = T * T * ((2 * k + 1) * (2 * k + 1)) - 2 * T * (2 * k + 1) + 1) by ring.
    assert (H6 : T * T + 1 <= 2 * T * (2 * k + 1)) by nia.
    assert (H7 : T * (4 * k + 2) <= T * T) by (apply Z.mul_le_mono_nonneg_l; lia).
    nia. }
  symmetry. apply (Z.div_unique (2 * m + T) (2 * T) k (2 * m + T - 2 * T * k)).
  - left. nia.
  - ring.
Qed.

(** Below [2^50] the double rounding of [Math.sqrt] does not show:
    [Math.round(Math.sqrt(n))] is the exact rounding of the root. *)
Lemma Math_round_sqrt_exact (n : Z) :
  0 <= n < 2 ^ 50 -> Math_round_sqrt n = round_sqrt n.
Proof.
  intros [Hpos Hlt].
  destruct (Z.eq_dec n 0) as [->|Hn0]; [reflexivity|].
  assert (Hpos' : 0 < n) by lia. clear Hpos Hn0. rename Hpos' into Hpos.
  unfold Math_round_sqrt, sqrt_significand.
  replace (n <=? 0) with false by (symmetry; apply Z.leb_gt; lia).
  pose proof (Z.log2_nonneg n) as HL0.
  assert (HL : Z.log2 n < 50) by (apply Z.log2_lt_pow2; lia).
  assert (He : 0 <= Z.log2 n / 2 <= 24).
  { split; [apply Z.div_pos; lia|].
    assert (Z.log2 n / 2 < 25) by (apply Z.div_lt_upper_bound; lia). lia. }
  unfold sqrt_shift. set (t := 52 - Z.log2 n / 2).
  assert (Ht : 28 <= t <= 52) by (subst t; lia).
  set (T' := 2 ^ (t - 1)).
  assert (HT' : 2 ^ 27 <= T') by (subst T'; apply Z.pow_le_mono_r; lia).
  assert (HT : 2 ^ t = 2 * T').
  { subst T'. replace t with (Z.succ (t - 1)) at 1 by lia.
    apply Z.pow_succ_r. lia. }
  assert (H4 : 4 ^ t = 2 ^ t * 2 ^ t).
  { change 4 with (2 * 2). apply Z.pow_mul_l. }
  assert (H2 : 2 ^ (t + 1) = 2 * 2 ^ t).
  { replace (t + 1) with (Z.succ t) by lia. apply Z.pow_succ_r. lia. }
  rewrite H4, H2. set (T := 2 ^ t) in *.
  change (2 ^ 27) with 134217728 in HT'. change (2 ^ 50) with 1125899906842624 in Hlt.
  destruct (round_sqrt_bounds n ltac:(lia)) as (Hk0 & Hk1 & Hk2).
  cbv zeta in Hk0, Hk1, Hk2. set (k := round_sqrt n) in *.
  assert (Hk : 1 <= k) by nia.
  assert (Hk1' : (2 * k - 1) * (2 * k - 1) <= 4 * n) by (destruct Hk1; [lia | assumption]).
  assert (Hkb : 2 * k - 1 < 67108864) by nia.
  assert (HN : 0 <= n * (T * T)) by nia.
  destruct (round_sqrt_bounds (n * (T * T)) HN) as (Hm0 & Hm1 & Hm2).
  cbv zeta in Hm0, Hm1, Hm2. set (m := round_sqrt (n * (T * T))) in *.
  assert (Hm : 1 <= m) by nia.
  assert (Hm1' : (2 * m - 1) * (2 * m - 1) <= 4 * (n * (T * T)))
    by (destruct Hm1; [lia | assumption]).
  apply (scaled_round n k m T T'); try lia. 
Qed.

(** At [2^52 + 2^26], the squared distance from (0,0) to (2^26, 2^13),
    the root is just below [2^26 + 1/2]; the double nearest to it is
    [2^26 + 1/2] itself, which [Math.round] takes up. *)
Lemma double_rounding_shows :
  Math_round_sqrt (2 ^ 52 + 2 ^ 26) = 67108865
  /\ round_sqrt (2 ^ 52 + 2 ^ 26) = 67108864.
Proof. split; vm_compute; reflexivity. Qed.

Lemma scaled_round_near (n k m T T' : Z) :
  1 <= n -> 1 <= k -> 1 <= m -> T = 2 * T' -> 1 <= T' ->
  (2 * k - 1) * (2 * k - 1) <= 4 * n < (2 * k + 1) * (2 * k + 1) ->
  (2 * m - 1) * (2 * m - 1) <= 4 * (n * (T * T)) < (2 * m + 1) * (2 * m + 1) ->
  k <= (2 * m + T) / (2 * T) <= k + 1.
Proof.
  intros Hn Hk Hm HT HT' [Hk1 Hk2] [Hm1 Hm2].
  assert (Ha : T * (2 * k - 1) <= 2 * m).
  { destruct (Z_le_gt_dec (T * (2 * k - 1)) (2 * m)) as [|Hgt]; [assumption|].
    exfalso.
    assert (H1 : 2 * m + 1 <= T * (2 * k - 1) - 1) by (subst T; nia).
    assert (H2 : (2 * m + 1) * (2 * m + 1)
                 <= (T * (2 * k - 1) - 1) * (T * (2 * k - 1) - 1)) by nia.
    assert (H3 : (T * (2 * k - 1)) * (T * (2 * k - 1))
                 = T * T * ((2 * k - 1) * (2 * k - 1))) by ring.
    assert (H4 : T * T * ((2 * k - 1) * (2 * k - 1)) <= T * T * (4 * n))
      by (apply Z.mul_le_mono_nonneg_l; nia).
    nia. }
  assert (Hb : 2 * m < T * (2 * k + 3)).
  { destruct (Z_lt_le_dec (2 * m) (T * (2 * k + 3))) as [|Hge]; [assumption|].
    exfalso.
    assert (H1 : 0 <= T * (2 * k + 1) <= 2 * m - 1) by nia.
    assert (H2 : (T * (2 * k + 1)) * (T * (2 * k + 1))
                 <= (2 * m - 1) * (2 * m - 1)) by nia.
    assert (H3 : (T * (2 * k + 1)) * (T * (2 * k + 1))
                 = T * T * ((2 * k + 1) * (2 * k + 1))) by ring.
    assert (H4 : T * T * (4 * n + 1) <= T * T * ((2 * k + 1) * (2 * k + 1)))
      by (apply Z.mul_le_mono_nonneg_l; nia).
    nia. }
  split.
  - apply Z.div_le_lower_bound; nia.
  - assert ((2 * m + T) / (2 * T) < k + 2) by (apply Z.div_lt_upper_bound; nia). lia.
Qed.

(** In the whole range of the integers a double holds exactly it is
    that rounding or the next integer. *)
Lemma Math_round_sqrt_near (n : Z) :
  0 <= n < 2 ^ 53 -> round_sqrt n <= Math_round_sqrt n <= round_sqrt n + 1.
Proof.
  intros [Hpos Hlt].
  destruct (Z.eq_dec n 0) as [->|Hn0]; [vm_compute; split; discriminate|].
  assert (Hpos' : 0 < n) by lia. clear Hpos Hn0. rename Hpos' into Hpos.
  unfold Math_round_sqrt, sqrt_significand.
  replace (n <=? 0) with false by (symmetry; apply Z.leb_gt; lia).
  pose proof (Z.log2_nonneg n) as HL0.
  assert (HL : Z.log2 n < 53) by (apply Z.log2_lt_pow2; lia).
  assert (He : 0 <= Z.log2 n / 2 <= 26).
  { split; [apply Z.div_pos; lia|].
    assert (Z.log2 n / 2 < 27) by (apply Z.div_lt_upper_bound; lia). lia. }
  unfold sqrt_shift. set (t := 52 - Z.log2 n / 2).
  assert (Ht : 26 <= t <= 52) by (subst t; lia).
  set (T' := 2 ^ (t - 1)).
  assert (HT' : 2 ^ 25 <= T') by (subst T'; apply Z.pow_le_mono_r; lia).
  assert (HT : 2 ^ t = 2 * T').
  { subst T'. replace t with (Z.succ (t - 1)) at 1 by lia.
    apply Z.pow_succ_r. lia. }
  assert (H4 : 4 ^ t = 2 ^ t * 2 ^ t).
  { change 4 with (2 * 2). apply Z.pow_mul_l. }
  assert (H2 : 2 ^ (t + 1) = 2 * 2 ^ t).
  { replace (t + 1) with (Z.succ t) by lia. apply Z.pow_succ_r. lia. }
  rewrite H4, H2. set (T := 2 ^ t) in *.
  change (2 ^ 25) with 33554432 in HT'.
  destruct (round_sqrt_bounds n ltac:(lia)) as (Hk0 & Hk1 & Hk2).
  cbv zeta in Hk0, Hk1, Hk2. set (k := round_sqrt n) in *.
  assert (Hk : 1 <= k) by nia.
  assert (Hk1' : (2 * k - 1) * (2 * k - 1) <= 4 * n) by (destruct Hk1; [lia | assumption]).
  assert (HN : 0 <= n * (T * T)) by nia.
  destruct (round_sqrt_bounds (n * (T * T)) HN) as (Hm0 & Hm1 & Hm2).
  cbv zeta in Hm0, Hm1, Hm2. set (m := round_sqrt (n * (T * T))) in *.
  assert (Hm : 1 <= m) by nia.
  assert (Hm1' : (2 * m - 1) * (2 * m - 1) <= 4 * (n * (T * T)))
    by (destruct Hm1; [lia | assumption]).
  apply (scaled_round_near n k m T T'); try lia.
Qed.

Lemma dist2_nonneg (p q : PlayerState) : 0 <= dist2 p q.
Proof.
  unfold dist2. cbv zeta.
  pose proof (Z.square_nonneg (worldX q - worldX p)).
  pose proof (Z.square_nonneg (worldZ q - worldZ p)).
  lia.
Qed.

(** ** Loops as folds *)

Lemma fold_left_inv {A B} (P : A -> Prop) (f : A -> B -> A) (l : list B) (a : A) :
  P a -> (forall a x, In x l -> P a -> P (f a x)) -> P (fold_left f l a).
Proof.
  revert a. induction l as [|x l IH]; intros a Ha Hf; simpl; [exact Ha|].
  apply IH.
  - apply Hf; [left; reflexivity | exact Ha].
  - intros a' y Hy. apply Hf. right. exact Hy.
Qed.

Lemma fold_left_id {A B} (f : A -> B -> A) (l : list B) (a : A) :
  (forall x, In x l -> f a x = a) -> fold_left f l a = a.
Proof.
  intros H. apply (fold_left_inv (fun a' => a' = a)); [reflexivity|].
  intros a' x Hx ->. apply H. exact Hx.
Qed.

(** ** What each phase leaves alone *)

Lemma grows_refl d : grows d d.
Proof. unfold grows. reflexivity. Qed.

Lemma grows_trans d1 d2 d3 : grows d1 d2 -> grows d2 d3 -> grows d1 d3.
Proof. unfold grows. intros. etransitivity; eassumption. Qed.

Lemma grows_push line d d' : grows d d' -> grows d (push_summary line d').
Proof.
  unfold grows. intros H. simpl. etransitivity; [exact H|]. apply prefix_app_r. reflexivity.
Qed.

Lemma grows_push_if c line d d' : grows d d' -> grows d (push_if c line d').
Proof. destruct c; simpl; [apply grows_push | auto]. Qed.

Create HintDb diff.
#[local] Hint Resolve grows_refl grows_push grows_push_if : diff.

Lemma diffInventory_grows b a d : grows d (diffInventory b a d).
Proof.
  unfold diffInventory.
  apply (fold_left_inv (grows d)).
  - apply (fold_left_inv (grows d)); [apply grows_refl|].
    intros d' [id item] _ H. unfold_steps. step_cases; auto with diff.
  - intros d' [id item] _ H. unfold_steps. step_cases; auto with diff.
Qed.

Lemma diffInventory_keeps b a d :
  d_xpGained (diffInventory b a d) = d_xpGained d
  /\ d_position (diffInventory b a d) = d_position d.
Proof.
  unfold diffInventory.
  apply (fold_left_inv
           (fun d' => d_xpGained d' = d_xpGained d /\ d_position d' = d_position d)).
  - apply (fold_left_inv
             (fun d' => d_xpGained d' = d_xpGained d /\ d_position d' = d_position d));
      [split; reflexivity|].
    intros d' [id item] _ H. unfold_steps. step_cases; exact H.
  - intros d' [id item] _ H. unfold_steps. step_cases; exact H.
Qed.

Lemma diffSkills_grows b a d : grows d (diffSkills b a d).
Proof.
  unfold diffSkills. apply (fold_left_inv (grows d)); [apply grows_refl|].
  intros d' s _ H. unfold_steps. step_cases; auto with diff.
Qed.

Lemma diffSkills_keeps b a d :
  d_inventory (diffSkills b a d) = d_inventory d
  /\ d_position (diffSkills b a d) = d_position d.
Proof.
  unfold diffSkills.
  apply (fold_left_inv
           (fun d' => d_inventory d' = d_inventory d /\ d_position d' = d_position d));
    [split; reflexivity|].
  intros d' s _ H. unfold_steps. step_cases; exact H.
Qed.

Lemma diffCombat_grows b a d : grows d (diffCombat b a d).
Proof.
  unfold diffCombat. cbv zeta. repeat apply grows_push_if.
  unfold grows. simpl. reflexivity.
Qed.

Lemma diffCombat_keeps b a d : untouched d (diffCombat b a d).
Proof.
  unfold untouched, diffCombat, push_if. cbv zeta.
  step_cases; repeat split; reflexivity.
Qed.

Lemma diffPosition_grows b a d : grows d (diffPosition b a d).
Proof.
  unfold diffPosition. step_cases; repeat apply grows_push_if;
    unfold grows; simpl; reflexivity.
Qed.

Lemma diffPosition_keeps b a d :
  d_inventory (diffPosition b a d) = d_inventory d
  /\ d_xpGained (diffPosition b a d) = d_xpGained d.
Proof. unfold diffPosition, push_if. step_cases; split; reflexivity. Qed.

Lemma diffUi_grows b a d : grows d (diffUi b a d).
Proof.
  unfold diffUi. cbv zeta. repeat apply grows_push_if.
  unfold grows. simpl. reflexivity.
Qed.

Lemma diffUi_keeps b a d : untouched d (diffUi b a d).
Proof.
  unfold untouched, diffUi, push_if. cbv zeta.
  step_cases; repeat split; reflexivity.
Qed.

Lemma diffNpcs_grows b a d : grows d (diffNpcs b a d).
Proof.
  unfold diffNpcs.
  apply (fold_left_inv (grows d)).
  - apply (fold_left_inv (grows d)); [apply grows_refl|].
    intros d' n _ H. unfold_steps. step_cases; auto with diff.
  - intros d' [idx n] _ H. unfold_steps. step_cases; auto with diff.
Qed.

Lemma diffNpcs_keeps b a d : untouched d (diffNpcs b a d).
Proof.
  unfold diffNpcs.
  apply (fold_left_inv (untouched d)).
  - apply (fold_left_inv (untouched d)); [repeat split|].
    intros d' n _ H. unfold_steps. step_cases; exact H.
  - intros d' [idx n] _ H. unfold_steps. step_cases; exact H.
Qed.

Lemma diffMessages_keeps b a d :
  untouched d (diffMessages b a d) /\ summary (diffMessages b a d) = summary d.
Proof. unfold untouched, diffMessages. step_cases; repeat split; reflexivity. Qed.

(** ** The differ as a pipeline *)

Lemma computeStateDiff_inventory b a :
  d_inventory (computeStateDiff b a)
  = d_inventory (diffInventory b a (initDiff b a)).
Proof.
  unfold computeStateDiff. cbv zeta.
  destruct (diffMessages_keeps b a
    (diffNpcs b a (diffUi b a (diffPosition b a (diffCombat b a
      (diffSkills b a (diffInventory b a (initDiff b a)))))))) as [(-> & _) _].
  destruct (diffNpcs_keeps b a
    (diffUi b a (diffPosition b a (diffCombat b a
      (diffSkills b a (diffInventory b a (initDiff b a))))))) as (-> & _).
  destruct (diffUi_keeps b a
    (diffPosition b a (diffCombat b a
      (diffSkills b a (diffInventory b a (initDiff b a)))))) as (-> & _).
  destruct (diffPosition_keeps b a
    (diffCombat b a (diffSkills b a (diffInventory b a (initDiff b a))))) as (-> & _).
  destruct (diffCombat_keeps b a
    (diffSkills b a (diffInventory b a (initDiff b a)))) as (-> & _).
  destruct (diffSkills_keeps b a (diffInventory b a (initDiff b a))) as (-> & _).
  reflexivity.
Qed.

Lemma computeStateDiff_xpGained b a :
  d_xpGained (computeStateDiff b a)
  = d_xpGained (diffSkills b a (diffInventory b a (initDiff b a))).
Proof.
  unfold computeStateDiff. cbv zeta.
  destruct (diffMessages_keeps b a
    (diffNpcs b a (diffUi b a (diffPosition b a (diffCombat b a
      (diffSkills b a (diffInventory b a (initDiff b a)))))))) as [(_ & -> & _) _].
  destruct (diffNpcs_keeps b a
    (diffUi b a (diffPosition b a (diffCombat b a
      (diffSkills b a (diffInventory b a (initDiff b a))))))) as (_ & -> & _).
  destruct (diffUi_keeps b a
    (diffPosition b a (diffCombat b a
      (diffSkills b a (diffInventory b a (initDiff b a)))))) as (_ & -> & _).
  destruct (diffPosition_keeps b a
    (diffCombat b a (diffSkills b a (diffInventory b a (initDiff b a))))) as (_ & ->).
  destruct (diffCombat_keeps b a
    (diffSkills b a (diffInventory b a (initDiff b a)))) as (_ & -> & _).
  reflexivity.
Qed.

Lemma computeStateDiff_position b a :
  d_position (computeStateDiff b a)
  = d_position (diffPosition b a (diffCombat b a
      (diffSkills b a (diffInventory b a (initDiff b a)))))
  /\ d_position (diffCombat b a (diffSkills b a (diffInventory b a (initDiff b a))))
     = mkPositionDiff false None None 0.
Proof.
  unfold computeStateDiff. cbv zeta. split.
  - destruct (diffMessages_keeps b a
      (diffNpcs b a (diffUi b a (diffPosition b a (diffCombat b a
        (diffSkills b a (diffInventory b a (initDiff b a)))))))) as [(_ & _ & ->) _].
    destruct (diffNpcs_keeps b a
      (diffUi b a (diffPosition b a (diffCombat b a
        (diffSkills b a (diffInventory b a (initDiff b a))))))) as (_ & _ & ->).
    destruct (diffUi_keeps b a
      (diffPosition b a (diffCombat b a
        (diffSkills b a (diffInventory b a (initDiff b a)))))) as (_ & _ & ->).
    reflexivity.
  - destruct (diffCombat_keeps b a
      (diffSkills b a (diffInventory b a (initDiff b a)))) as (_ & _ & ->).
    destruct (diffSkills_keeps b a (diffInventory b a (initDiff b a))) as (_ & ->).
    destruct (diffInventory_keeps b a (initDiff b a)) as (_ & ->).
    reflexivity.
Qed.

(** The summary after any phase is a prefix of the final summary. *)
Lemma summary_after_inventory b a :
  summary (diffInventory b a (initDiff b a)) `prefix_of` summary (computeStateDiff b a).
Proof.
  unfold computeStateDiff. cbv zeta.
  destruct (diffMessages_keeps b a
    (diffNpcs b a (diffUi b a (diffPosition b a (diffCombat b a
      (diffSkills b a (diffInventory b a (initDiff b a)))))))) as [_ ->].
  change (grows (diffInventory b a (initDiff b a))
    (diffNpcs b a (diffUi b a (diffPosition b a (diffCombat b a
      (diffSkills b a (diffInventory b a (initDiff b a)))))))).
  eapply grows_trans; [|apply diffNpcs_grows].
  eapply grows_trans; [|apply diffUi_grows].
  eapply grows_trans; [|apply diffPosition_grows].
  eapply grows_trans; [|apply diffCombat_grows].
  apply diffSkills_grows.
Qed.

Lemma summary_after_position b a :
  summary (diffPosition b a (diffCombat b a
    (diffSkills b a (diffInventory b a (initDiff b a)))))
  `prefix_of` summary (computeStateDiff b a).
Proof.
  unfold computeStateDiff. cbv zeta.
  destruct (diffMessages_keeps b a
    (diffNpcs b a (diffUi b a (diffPosition b a (diffCombat b a
      (diffSkills b a (diffInventory b a (initDiff b a)))))))) as [_ ->].
  match goal with |- summary ?x `prefix_of` summary ?y => change (grows x y) end.
  eapply grows_trans; [|apply diffNpcs_grows].
  apply diffUi_grows.
Qed.

(** ** Inventory merge *)

Lemma add_count_total m it id :
  grouped_count (add_count m it) id
  = grouped_count m id + (if decide (item_id it = id) then item_count it else 0).
Proof.
  unfold grouped_count. induction m as [|[k e] m IH]; simpl.
  - destruct (decide (item_id it = id)); simpl; lia.
  - destruct (decide (k = item_id it)) as [->|Hk]; simpl.
    + destruct (decide (item_id it = id)); simpl; lia.
    + destruct (decide (k = id)) as [->|Hid]; simpl.
      * destruct (decide (item_id it = id)); [congruence | lia].
      * exact IH.
Qed.

(** Grouping sums the counts of the stacks of each identity. *)
Lemma groupInventory_sums items id :
  grouped_count (groupInventory items) id = stack_total id items.
Proof.
  unfold groupInventory.
  assert (H : forall m, grouped_count (fold_left add_count items m) id
                        = grouped_count m id + stack_total id items).
  { induction items as [|it items IH]; intros m; simpl; [lia|].
    rewrite IH, add_count_total. destruct (decide (item_id it = id)); lia. }
  rewrite H. reflexivity.
Qed.

(** ** Skills *)

Lemma skill_step_keeps_gain m d s g :
  In g (d_xpGained d) -> In g (d_xpGained (skill_step m d s)).
Proof.
  intros H. unfold skill_step, push_xp. step_cases; auto;
    apply in_or_app; left; exact H.
Qed.

Lemma skill_fold_keeps_gain m l d g :
  In g (d_xpGained d) -> In g (d_xpGained (fold_left (skill_step m) l d)).
Proof.
  intros H. apply (fold_left_inv (fun d' => In g (d_xpGained d'))); [exact H|].
  intros d' s _. apply skill_step_keeps_gain.
Qed.

(** The entry the loop body pushes for a skill that gained experience. *)
Lemma skill_step_records m d s bs :
  JsMap.get m (skill_name s) = Some bs ->
  skill_experience s > skill_experience bs ->
  In (mkXpGain (skill_name s) (skill_experience s - skill_experience bs)
        (skill_baseLevel s >? skill_baseLevel bs)
        (if skill_baseLevel s >? skill_baseLevel bs
         then Some (skill_baseLevel s) else None))
     (d_xpGained (skill_step m d s)).
Proof.
  intros Hget Hxp. unfold skill_step, push_xp. rewrite Hget.
  assert (Hgt : (skill_experience s >? skill_experience bs) = true)
    by (apply Z.gtb_lt; lia).
  rewrite Hgt.
  destruct (skill_baseLevel s >? skill_baseLevel bs); simpl;
    apply in_or_app; right; left; reflexivity.
Qed.

Lemma skill_fold_records m l d s bs :
  In s l ->
  JsMap.get m (skill_name s) = Some bs ->
  skill_experience s > skill_experience bs ->
  In (mkXpGain (skill_name s) (skill_experience s - skill_experience bs)
        (skill_baseLevel s >? skill_baseLevel bs)
        (if skill_baseLevel s >? skill_baseLevel bs
         then Some (skill_baseLevel s) else None))
     (d_xpGained (fold_left (skill_step m) l d)).
Proof.
  revert d. induction l as [|x l IH]; intros d Hin Hget Hxp; [destruct Hin|].
  simpl. destruct Hin as [-> | Hin].
  - apply skill_fold_keeps_gain. apply skill_step_records; assumption.
  - apply IH; assumption.
Qed.

Lemma skill_step_positive m d s :
  Forall (fun g => 0 < xp g) (d_xpGained d) ->
  Forall (fun g => 0 < xp g) (d_xpGained (skill_step m d s)).
Proof.
  intros H. unfold skill_step, push_xp.
  destruct (JsMap.get m (skill_name s)) as [bs|]; [|exact H].
  destruct (skill_experience s >? skill_experience bs) eqn:Hgt; [|exact H].
  apply Z.gtb_lt in Hgt.
  destruct (skill_baseLevel s >? skill_baseLevel bs); simpl;
    (apply Forall_app; split; [exact H|]); constructor; simpl; try lia; constructor.
Qed.

(** C5 (amended).  For a skill of the "after" snapshot that the "before"
    snapshot also has: if its experience strictly increased and its
    level did not, the diff has an entry for it with levelUp false and no
    new level; if its experience strictly increased, by any amount, and
    its level increased too, the entry has levelUp true and the new level
    is the level after; if its experience did not strictly increase the
    loop body records nothing for it, whatever its level, and every
    recorded entry carries a strictly positive gain. *)
Theorem skill_level_up_flag (b a : BotWorldState) (s bs : SkillState) :
  In s (skills a) ->
  JsMap.get (buildSkills (skills b)) (skill_name s) = Some bs ->
  let gains := d_xpGained (computeStateDiff b a) in
  let gain := skill_experience s - skill_experience bs in
  (skill_experience s > skill_experience bs ->
   skill_baseLevel s <= skill_baseLevel bs ->
   In (mkXpGain (skill_name s) gain false None) gains)
  /\ (skill_experience s > skill_experience bs ->
      skill_baseLevel s > skill_baseLevel bs ->
      In (mkXpGain (skill_name s) gain true (Some (skill_baseLevel s))) gains)
  /\ (skill_experience s <= skill_experience bs ->
      forall d, skill_step (buildSkills (skills b)) d s = d)
  /\ Forall (fun g => 0 < xp g) gains.
Proof.
  intros Hin Hget gains gain. subst gains gain.
  rewrite computeStateDiff_xpGained. unfold diffSkills.
  repeat split.
  - intros Hxp Hlvl.
    pose proof (skill_fold_records _ _ (diffInventory b a (initDiff b a)) _ _
                  Hin Hget Hxp) as H.
    assert (Hb : (skill_baseLevel s >? skill_baseLevel bs) = false)
      by (rewrite Z.gtb_ltb; apply Z.ltb_ge; lia).
    rewrite Hb in H. exact H.
  - intros Hxp Hlvl.
    pose proof (skill_fold_records _ _ (diffInventory b a (initDiff b a)) _ _
                  Hin Hget Hxp) as H.
    assert (Hb : (skill_baseLevel s >? skill_baseLevel bs) = true)
      by (apply Z.gtb_lt; lia).
    rewrite Hb in H. exact H.
  - intros Hxp d. unfold skill_step. rewrite Hget.
    assert (Hb : (skill_experience s >? skill_experience bs) = false)
      by (rewrite Z.gtb_ltb; apply Z.ltb_ge; lia).
    rewrite Hb. reflexivity.
  - apply (fold_left_inv (fun d => Forall (fun g => 0 < xp g) (d_xpGained d))).
    + destruct (diffInventory_keeps b a (initDiff b a)) as [-> _]. constructor.
    + intros d x _. apply skill_step_positive.
Qed.

Lemma skill_level_up_flag_witness :
  let b := mkWorld 10 [] [mkSkill "Attack" 100 1 1; mkSkill "Mining" 40 3 3] None None
             false None None [] None in
  let a := mkWorld 12 [] [mkSkill "Attack" 150 2 2; mkSkill "Mining" 55 3 3] None None
             false None None [] None in
  In (mkXpGain "Mining" 15 false None) (d_xpGained (computeStateDiff b a))
  /\ In (mkXpGain "Attack" 50 true (Some 2)) (d_xpGained (computeStateDiff b a)).
Proof.
  intros b a. split.
  - refine (proj1 (skill_level_up_flag b a (mkSkill "Mining" 55 3 3)
                     (mkSkill "Mining" 40 3 3) _ _) _ _);
      simpl; try reflexivity; try lia. right; left; reflexivity.
  - refine (proj1 (proj2 (skill_level_up_flag b a (mkSkill "Attack" 150 2 2)
                     (mkSkill "Attack" 100 1 1) _ _)) _ _);
      simpl; try reflexivity; try lia. left; reflexivity.
Defined.

(** C5 as stated fails: a level increase does not yield an entry
    "regardless of the experience delta".  With the level going from 1
    to 2 and the experience staying at 100 nothing is recorded. *)
Lemma level_up_needs_experience_counterexample :
  ~ (forall (b a : BotWorldState) (s bs : SkillState),
        In s (skills a) ->
        JsMap.get (buildSkills (skills b)) (skill_name s) = Some bs ->
        skill_baseLevel s > skill_baseLevel bs ->
        exists g, In g (d_xpGained (computeStateDiff b a))
                  /\ xp_name g = skill_name s /\ levelUp g = true
                  /\ newLevel g = Some (skill_baseLevel s)).
Proof.
  intros H.
  destruct (H (mkWorld 10 [] [mkSkill "Attack" 100 1 1] None None false None None [] None)
              (mkWorld 12 [] [mkSkill "Attack" 100 2 2] None None false None None [] None)
              (mkSkill "Attack" 100 2 2) (mkSkill "Attack" 100 1 1))
    as (g & Hg & _).
  - left; reflexivity.
  - reflexivity.
  - simpl. lia.
  - exact Hg.
Qed.

(** ** Position *)

Lemma last_char_cons (c : ascii) (r : string) :
  r <> EmptyString -> last_char (String c r) = last_char r.
Proof. destruct r; [contradiction | reflexivity]. Qed.

Lemma last_char_app (s : string) (c : ascii) (t : string) :
  last_char (s ++ String c t) = last_char (String c t).
Proof.
  induction s as [|c' s IH]; [reflexivity|].
  change (String c' s ++ String c t)%string with (String c' (s ++ String c t)).
  rewrite last_char_cons; [exact IH|]. destruct s; discriminate.
Qed.

Lemma moved_line_shape (k : Z) : moved_shape ("Moved " ++ show k ++ " tiles").
Proof.
  split; [reflexivity|].
  change ("Moved " ++ show k ++ " tiles")%string
    with (String "M" (String "o" (String "v" (String "e" (String "d"
            (String " " (show k ++ String " " "tiles"))))))).
  assert (Hne : (show k ++ String " " "tiles")%string <> EmptyString)
    by (destruct (show k); discriminate).
  rewrite !last_char_cons; try discriminate; try exact Hne.
  rewrite last_char_app. reflexivity.
Qed.

Lemma only_moved_nil cond line : only_moved cond line [].
Proof. intros l []. Qed.

Lemma only_moved_push cond line ls l :
  only_moved cond line ls -> ~ moved_shape l -> only_moved cond line (ls ++ [l]).
Proof.
  intros H Hl l' Hin Hs. apply in_app_or in Hin as [Hin | [<- | []]].
  - exact (H l' Hin Hs).
  - contradiction.
Qed.

Lemma not_moved_head (c : ascii) (s : string) :
  c <> "M"%char -> ~ moved_shape (String c s).
Proof. intros Hc [Hh _]. simpl in Hh. congruence. Qed.

Lemma not_moved_died (name : string) : ~ moved_shape (name ++ " died").
Proof.
  intros [_ Hl]. change " died"%string with (String " " "died") in Hl.
  rewrite last_char_app in Hl. discriminate Hl.
Qed.

Ltac other_line :=
  first [ apply not_moved_died
        | apply not_moved_head; discriminate ].

Ltac phase_lines :=
  unfold_steps; step_cases;
  repeat (apply only_moved_push; [| other_line]); assumption.

Lemma diffInventory_lines cond line b a d :
  only_moved cond line (summary d) ->
  only_moved cond line (summary (diffInventory b a d)).
Proof.
  intros H. unfold diffInventory.
  apply (fold_left_inv (fun d' => only_moved cond line (summary d'))).
  - apply (fold_left_inv (fun d' => only_moved cond line (summary d'))); [exact H|].
    intros d' [id item] _ H'. phase_lines.
  - intros d' [id item] _ H'. phase_lines.
Qed.

Lemma diffSkills_lines cond line b a d :
  only_moved cond line (summary d) ->
  only_moved cond line (summary (diffSkills b a d)).
Proof.
  intros H. unfold diffSkills.
  apply (fold_left_inv (fun d' => only_moved cond line (summary d'))); [exact H|].
  intros d' s _ H'. phase_lines.
Qed.

Lemma diffCombat_lines cond line b a d :
  only_moved cond line (summary d) ->
  only_moved cond line (summary (diffCombat b a d)).
Proof. intros H. unfold diffCombat. cbv zeta. phase_lines. Qed.

Lemma diffUi_lines cond line b a d :
  only_moved cond line (summary d) ->
  only_moved cond line (summary (diffUi b a d)).
Proof. intros H. unfold diffUi. cbv zeta. phase_lines. Qed.

Lemma diffNpcs_lines cond line b a d :
  only_moved cond line (summary d) ->
  only_moved cond line (summary (diffNpcs b a d)).
Proof.
  intros H. unfold diffNpcs.
  apply (fold_left_inv (fun d' => only_moved cond line (summary d'))).
  - apply (fold_left_inv (fun d' => only_moved cond line (summary d'))); [exact H|].
    intros d' n _ H'. phase_lines.
  - intros d' [idx n] _ H'. phase_lines.
Qed.

(** The position phase on its own. *)
Lemma diffPosition_spec b a d pb pa :
  player b = Some pb -> player a = Some pa ->
  let n := dist2 pb pa in
  diffPosition b a d =
    if n >? 0 then
      push_if (n >=? 25) ("Moved " ++ show (Math_round_sqrt n) ++ " tiles")
        (set_position
           (mkPositionDiff true (Some (worldX pb, worldZ pb))
              (Some (worldX pa, worldZ pa)) (Math_round_sqrt n)) d)
    else d.
Proof. intros Hb Ha n. unfold diffPosition. rewrite Hb, Ha. reflexivity. Qed.

Lemma only_moved_push_line (cond : Prop) line ls :
  only_moved cond line ls -> cond -> only_moved cond line (ls ++ [line]).
Proof.
  intros H Hc l Hin Hs. apply in_app_or in Hin as [Hin | [<- | []]].
  - exact (H l Hin Hs).
  - split; [exact Hc | reflexivity].
Qed.

Lemma diffPosition_lines b a d pb pa :
  player b = Some pb -> player a = Some pa ->
  let n := dist2 pb pa in
  let line := ("Moved " ++ show (Math_round_sqrt n) ++ " tiles")%string in
  only_moved (25 <= n) line (summary d) ->
  only_moved (25 <= n) line (summary (diffPosition b a d)).
Proof.
  intros Hb Ha n line H. rewrite (diffPosition_spec b a d pb pa Hb Ha).
  fold n. destruct (n >? 0); [|exact H].
  unfold push_if. destruct (n >=? 25) eqn:Hge; simpl; [|exact H].
  apply only_moved_push_line; [exact H|]. apply Z.geb_le in Hge. lia.
Qed.

(** C7 (amended).  When both snapshots carry player coordinates, [moved]
    is true exactly when the Euclidean distance between the two
    positions is nonzero, and then [from] and [to] are the two positions;
    the [distance] field is not the true distance but, for squared
    distances below [2^53] (which a double holds exactly),
    [Math.round] of the double-precision root: for squared distances
    below [2^50] it is the true distance rounded to the nearest
    integer, within one half of it, and up to [2^53] it is that integer
    or the next one, at most three halves above the true distance; the
    summary has the line "Moved N tiles", with N that field, whenever
    the true distance is at least 5, and a line "Moved k tiles" appears
    in the summary only then. *)
Theorem position_diff (b a : BotWorldState) (pb pa : PlayerState) :
  player b = Some pb -> player a = Some pa ->
  let true_dist := sqrt (IZR (dist2 pb pa)) in
  let diff := computeStateDiff b a in
  let p := d_position diff in
  (moved p = true <-> (0 < true_dist)%R)
  /\ ((0 < true_dist)%R ->
      pos_from p = Some (worldX pb, worldZ pb)
      /\ pos_to p = Some (worldX pa, worldZ pa))
  /\ (dist2 pb pa < 2 ^ 53 -> distance p = Math_round_sqrt (dist2 pb pa))
  /\ (dist2 pb pa < 2 ^ 50 ->
      distance p = round_sqrt (dist2 pb pa)
      /\ (IZR (distance p) - 1 / 2 <= true_dist < IZR (distance p) + 1 / 2)%R)
  /\ (dist2 pb pa < 2 ^ 53 ->
      (IZR (distance p) - 3 / 2 <= true_dist < IZR (distance p) + 1 / 2)%R)
  /\ ((5 <= true_dist)%R ->
      In ("Moved " ++ show (distance p) ++ " tiles")%string (summary diff))
  /\ (forall k, In ("Moved " ++ show k ++ " tiles")%string (summary diff) ->
                (5 <= true_dist)%R).
Proof.
  intros Hb Ha true_dist diff p.
  pose proof (dist2_nonneg pb pa) as Hn.
  set (n := dist2 pb pa) in *.
  set (d4 := diffCombat b a (diffSkills b a (diffInventory b a (initDiff b a)))).
  destruct (computeStateDiff_position b a) as [Hp Hp4].
  fold d4 in Hp, Hp4.
  pose proof (diffPosition_spec b a d4 pb pa Hb Ha) as Hspec.
  cbv zeta in Hspec. fold n in Hspec.
  assert (Hdist : distance p = Math_round_sqrt n).
  { subst p diff. rewrite Hp, Hspec.
    destruct (n >? 0) eqn:Hpos.
    - unfold push_if. destruct (n >=? 25); reflexivity.
    - rewrite Hp4. simpl.
      assert (H0 : n = 0) by (rewrite Z.gtb_ltb in Hpos; apply Z.ltb_ge in Hpos; lia).
      rewrite H0. reflexivity. }
  split; [|split; [|split; [|split; [|split; [|split]]]]].
  - subst p diff true_dist. rewrite Hp, Hspec.
    rewrite (sqrt_pos_iff n Hn).
    destruct (n >? 0) eqn:Hpos.
    + apply Z.gtb_lt in Hpos.
      unfold push_if. destruct (n >=? 25); simpl; split; intros _; (reflexivity || lia).
    + rewrite Hp4. simpl.
      rewrite Z.gtb_ltb in Hpos. apply Z.ltb_ge in Hpos.
      split; [discriminate | lia].
  - intros Hpos. subst p diff true_dist.
    apply (sqrt_pos_iff n Hn) in Hpos.
    rewrite Hp, Hspec.
    assert (Hgt : (n >? 0) = true) by (apply Z.gtb_lt; lia).
    rewrite Hgt. unfold push_if. destruct (n >=? 25); simpl; split; reflexivity.
  - intros _. exact Hdist.
  - intros Hsmall. rewrite Hdist.
    rewrite (Math_round_sqrt_exact n (conj Hn Hsmall)).
    split; [reflexivity | apply round_sqrt_spec; exact Hn].
  - intros Hsmall. rewrite Hdist.
    pose proof (Math_round_sqrt_near n (conj Hn Hsmall)) as [Hlo Hhi].
    pose proof (round_sqrt_spec n Hn) as [Rlo Rhi].
    apply IZR_le in Hlo, Hhi. rewrite plus_IZR in Hhi.
    subst true_dist. split; lra.
  - intros H5. apply (sqrt_ge5_iff n Hn) in H5.
    rewrite Hdist.
    pose proof (summary_after_position b a) as [more Hmore].
    fold d4 in Hmore. subst diff. rewrite Hmore.
    apply in_or_app. left. rewrite Hspec.
    assert (Hgt : (n >? 0) = true) by (apply Z.gtb_lt; lia).
    assert (Hge : (n >=? 25) = true) by (apply Z.geb_le; lia).
    rewrite Hgt, Hge. simpl. apply in_or_app. right. left. reflexivity.
  - intros k Hin. apply (sqrt_ge5_iff n Hn).
    assert (Hall : only_moved (25 <= n)
                     ("Moved " ++ show (Math_round_sqrt n) ++ " tiles")%string
                     (summary diff)).
    { subst diff. unfold computeStateDiff. cbv zeta.
      destruct (diffMessages_keeps b a
        (diffNpcs b a (diffUi b a (diffPosition b a d4)))) as [_ Hm].
      fold d4. rewrite Hm.
      apply diffNpcs_lines, diffUi_lines.
      apply (diffPosition_lines b a d4 pb pa Hb Ha).
      apply diffCombat_lines, diffSkills_lines, diffInventory_lines.
      apply only_moved_nil. }
    destruct (Hall _ Hin (moved_line_shape k)) as [H25 _]. exact H25.
Qed.

Lemma position_diff_witness :
  let b := mkWorld 10 [] [] None (Some (mkPlayer 3200 3200)) false None None [] None in
  let a := mkWorld 12 [] [] None (Some (mkPlayer 3203 3204)) false None None [] None in
  distance (d_position (computeStateDiff b a)) = 5
  /\ summary (computeStateDiff b a) = ["Moved 5 tiles"].
Proof.
  intros b a. split.
  - destruct (proj1 (proj2 (proj2 (proj2
      (position_diff b a (mkPlayer 3200 3200) (mkPlayer 3203 3204)
         eq_refl eq_refl)))) ltac:(vm_compute; reflexivity)) as [Hd _].
    rewrite Hd. vm_compute. reflexivity.
  - vm_compute. reflexivity.
Defined.

(** C7 as stated fails: the [distance] field is not the unaltered
    distance.  One tile east and one tile north is a distance of
    [sqrt 2]; the field holds 1. *)
Lemma distance_is_rounded_counterexample :
  ~ (forall (b a : BotWorldState) (pb pa : PlayerState),
        player b = Some pb -> player a = Some pa ->
        IZR (distance (d_position (computeStateDiff b a)))
        = sqrt (IZR (dist2 pb pa))).
Proof.
  intros H.
  specialize (H (mkWorld 10 [] [] None (Some (mkPlayer 0 0)) false None None [] None)
                (mkWorld 12 [] [] None (Some (mkPlayer 1 1)) false None None [] None)
                (mkPlayer 0 0) (mkPlayer 1 1) eq_refl eq_refl).
  assert (Hd : distance (d_position (computeStateDiff
                 (mkWorld 10 [] [] None (Some (mkPlayer 0 0)) false None None [] None)
                 (mkWorld 12 [] [] None (Some (mkPlayer 1 1)) false None None [] None)))
               = 1) by (vm_compute; reflexivity).
  rewrite Hd in H. change (dist2 (mkPlayer 0 0) (mkPlayer 1 1)) with 2 in H.
  assert (Hsq : (sqrt 2 * sqrt 2 = 2)%R) by (apply sqrt_sqrt; lra).
  rewrite <- H in Hsq. lra.
Qed.

(** ** Insertion-ordered maps *)

Section JsMapFacts.
Context {K V : Type} `{EqDecision K}.
Implicit Types (m : list (K * V)) (k : K) (v : V).

Lemma get_set_eq m k v : JsMap.get (JsMap.set m k v) k = Some v.
Proof.
  induction m as [|[k' v'] m IH]; simpl.
  - destruct (decide (k = k)); congruence.
  - destruct (decide (k' = k)); simpl.
    + destruct (decide (k = k)); congruence.
    + destruct (decide (k' = k)); congruence.
Qed.

Lemma get_set_ne m k k' v :
  k <> k' -> JsMap.get (JsMap.set m k v) k' = JsMap.get m k'.
Proof.
  intros Hne. induction m as [|[k0 v0] m IH]; simpl.
  - destruct (decide (k = k')); congruence.
  - destruct (decide (k0 = k)) as [->|]; simpl.
    + destruct (decide (k = k')); congruence.
    + destruct (decide (k0 = k')); congruence.
Qed.

Lemma get_in m k v : In (k, v) m -> JsMap.has m k = true.
Proof.
  unfold JsMap.has. induction m as [|[k' v'] m IH]; intros Hin; [destruct Hin|].
  simpl. destruct (decide (k' = k)); [reflexivity|].
  destruct Hin as [Heq | Hin]; [congruence | auto].
Qed.

Lemma get_in_nodup m k v :
  NoDup (map fst m) -> In (k, v) m -> JsMap.get m k = Some v.
Proof.
  induction m as [|[k' v'] m IH]; intros Hnd Hin; [destruct Hin|].
  simpl in *. apply NoDup_cons in Hnd as [Hnotin Hnd].
  destruct Hin as [Heq | Hin].
  - injection Heq as -> ->. destruct (decide (k = k)); congruence.
  - destruct (decide (k' = k)) as [->|]; [|auto].
    exfalso. apply Hnotin. apply list_elem_of_In.
    apply (in_map fst) in Hin. exact Hin.
Qed.

Lemma has_set_eq m k v : JsMap.has (JsMap.set m k v) k = true.
Proof. unfold JsMap.has. rewrite get_set_eq. reflexivity. Qed.

Lemma has_set_mono m k k' v :
  JsMap.has m k' = true -> JsMap.has (JsMap.set m k v) k' = true.
Proof.
  intros H. destruct (decide (k = k')) as [->|Hne]; [apply has_set_eq|].
  unfold JsMap.has in *. rewrite get_set_ne; assumption.
Qed.
End JsMapFacts.

(** ** A snapshot against itself *)

Lemma add_count_keys m it :
  map fst (add_count m it)
  = if JsMap.has m (item_id it) then map fst m else (map fst m ++ [item_id it])%list.
Proof.
  unfold JsMap.has. induction m as [|[k e] m IH]; simpl; [reflexivity|].
  destruct (decide (k = item_id it)); simpl; [reflexivity|].
  rewrite IH. destruct (JsMap.get m (item_id it)); reflexivity.
Qed.

Lemma has_false_not_in {V} (m : list (Z * V)) (k : Z) :
  JsMap.has m k = false -> ~ In k (map fst m).
Proof.
  intros H Hin. apply in_map_iff in Hin as ([k' v] & Hk & Hin). simpl in Hk. subst k'.
  apply get_in in Hin. congruence.
Qed.

Lemma groupInventory_nodup items : NoDup (map fst (groupInventory items)).
Proof.
  unfold groupInventory.
  apply (fold_left_inv (fun m => NoDup (map fst m))); [constructor|].
  intros m it _ Hnd. rewrite add_count_keys.
  destruct (JsMap.has m (item_id it)) eqn:Hhas; [exact Hnd|].
  apply NoDup_app. split; [exact Hnd|]. split.
  - intros x Hx Hx'. apply list_elem_of_In in Hx, Hx'.
    destruct Hx' as [<- | []]. exact (has_false_not_in _ _ Hhas Hx).
  - apply NoDup_singleton.
Qed.

Lemma diffInventory_same S d : diffInventory S S d = d.
Proof.
  unfold diffInventory.
  pose proof (groupInventory_nodup (inventory S)) as Hnd.
  set (g := groupInventory (inventory S)) in *.
  rewrite (fold_left_id (gained_step g) g d).
  - apply fold_left_id. intros [id item] Hin. unfold lost_step.
    rewrite (get_in_nodup g id item Hnd Hin), Z.ltb_irrefl. reflexivity.
  - intros [id item] Hin. unfold gained_step.
    rewrite (get_in_nodup g id item Hnd Hin).
    rewrite Z.gtb_ltb, Z.ltb_irrefl. reflexivity.
Qed.

Lemma buildSkills_other (l : list SkillState) m name :
  ~ In name (map skill_name l) ->
  JsMap.get (fold_left (fun m s => JsMap.set m (skill_name s) s) l m) name
  = JsMap.get m name.
Proof.
  revert m. induction l as [|x l IH]; intros m Hnot; [reflexivity|].
  simpl. rewrite IH.
  - apply get_set_ne. intros Heq. apply Hnot. left. exact Heq.
  - intros Hin. apply Hnot. right. exact Hin.
Qed.

Lemma buildSkills_get (l : list SkillState) m s :
  NoDup (map skill_name l) -> In s l ->
  JsMap.get (fold_left (fun m s => JsMap.set m (skill_name s) s) l m) (skill_name s)
  = Some s.
Proof.
  revert m. induction l as [|x l IH]; intros m Hnd Hin; [destruct Hin|].
  simpl in *. apply NoDup_cons in Hnd as [Hnotin Hnd].
  destruct Hin as [-> | Hin].
  - rewrite buildSkills_other; [apply get_set_eq|].
    intros Hin. apply Hnotin. apply list_elem_of_In. exact Hin.
  - apply IH; assumption.
Qed.

Lemma diffSkills_same S d :
  NoDup (map skill_name (skills S)) -> diffSkills S S d = d.
Proof.
  intros Hnd. unfold diffSkills. apply fold_left_id. intros s Hin.
  unfold skill_step, buildSkills. rewrite (buildSkills_get _ [] s Hnd Hin).
  rewrite Z.gtb_ltb, Z.ltb_irrefl. reflexivity.
Qed.

Lemma filter_none {A} (p : A -> bool) (l : list A) :
  Forall (fun x => p x = false) l -> List.filter p l = [].
Proof.
  induction 1 as [|x l Hx _ IH]; [reflexivity|]. simpl. rewrite Hx. exact IH.
Qed.

Lemma no_later {A} (time : A -> Z) (t0 : Z) (l : list A) :
  Forall (fun x => time x <= t0) l ->
  List.filter (fun x => time x >? t0) l = [].
Proof.
  intros H. apply filter_none. eapply Forall_impl; [exact H|].
  intros x Hx. simpl in *. rewrite Z.gtb_ltb. apply Z.ltb_ge. exact Hx.
Qed.

Lemma diffCombat_same S t0 :
  (forall evts, combatEvents S = Some evts ->
     Forall (fun e => evt_tick e <= tick S) evts) ->
  diffCombat S S (createEmptyDiff t0) = createEmptyDiff t0.
Proof.
  intros Hev. unfold diffCombat. cbv zeta. rewrite Z.sub_diag.
  destruct (combatEvents S) as [evts|] eqn:E.
  - rewrite (no_later evt_tick (tick S) evts (Hev evts eq_refl)). reflexivity.
  - reflexivity.
Qed.

Lemma diffPosition_same S d : diffPosition S S d = d.
Proof.
  unfold diffPosition. destruct (player S) as [p|]; [|reflexivity].
  assert (H0 : dist2 p p = 0) by (unfold dist2; cbv zeta; rewrite !Z.sub_diag; reflexivity).
  rewrite H0. reflexivity.
Qed.

Lemma diffUi_same S t0 : diffUi S S (createEmptyDiff t0) = createEmptyDiff t0.
Proof.
  unfold diffUi. cbv zeta.
  destruct (dialog_isOpen S), (opt_open (interface_isOpen S)), (shop_open S);
    reflexivity.
Qed.

Lemma buildNpcs_has (l : list NearbyNpc) m n :
  In n l ->
  JsMap.has (fold_left (fun m n => JsMap.set m (npc_index n) n) l m) (npc_index n) = true.
Proof.
  revert m. induction l as [|x l IH]; intros m Hin; [destruct Hin|].
  simpl. destruct Hin as [-> | Hin]; [|apply IH; exact Hin].
  apply (fold_left_inv (fun m' => JsMap.has m' (npc_index n) = true)).
  - apply has_set_eq.
  - intros m' y _ H. apply has_set_mono. exact H.
Qed.

Lemma diffNpcs_same S d : diffNpcs S S d = d.
Proof.
  unfold diffNpcs.
  rewrite (fold_left_id (appeared_step (buildNpcs (nearbyNpcs S))) (nearbyNpcs S) d).
  - apply fold_left_id. intros [idx n] Hin. unfold disappeared_step.
    rewrite (get_in _ _ _ Hin). reflexivity.
  - intros n Hin. unfold appeared_step, buildNpcs.
    rewrite (buildNpcs_has _ [] n Hin). reflexivity.
Qed.

Lemma diffMessages_same S t0 :
  (forall msgs, gameMessages S = Some msgs ->
     Forall (fun m => msg_tick m <= tick S) msgs) ->
  diffMessages S S (createEmptyDiff t0) = createEmptyDiff t0.
Proof.
  intros Hm. unfold diffMessages.
  destruct (gameMessages S) as [msgs|] eqn:E; [|reflexivity].
  rewrite (no_later msg_tick (tick S) msgs (Hm msgs eq_refl)). reflexivity.
Qed.

(** C4 (amended).  For every snapshot [S] that is a capture at one tick
    (its combat events and game messages are dated no later than its own
    tick, and no skill is listed twice), the diff of [S] against itself
    is the empty diff at that tick: an empty summary, no inventory
    gained/lost/changed entries, no xpGained entries, zero
    damageTaken/damageDealt/kills/healthChange, moved false with
    distance 0, the six UI transition flags false, no
    appeared/disappeared/died entities and no new messages. *)
Theorem diff_identity (S : BotWorldState) :
  point_in_time S ->
  let d := computeStateDiff S S in
  d = createEmptyDiff (tick S)
  /\ summary d = []
  /\ d_inventory d = mkInventoryDiff [] [] []
  /\ d_xpGained d = []
  /\ d_combat d = mkCombatDiff 0 0 0 0
  /\ moved (d_position d) = false /\ distance (d_position d) = 0
  /\ d_ui d = mkUiDiff false false false false false false
  /\ d_npcs d = mkNpcsDiff [] [] []
  /\ messages d = []
  /\ tick_elapsed (d_tick d) = 0.
Proof.
  intros (Hskills & Hevents & Hmsgs) d.
  assert (Hd : d = createEmptyDiff (tick S)).
  { subst d. unfold computeStateDiff. cbv zeta.
    assert (H0 : initDiff S S = createEmptyDiff (tick S))
      by (unfold initDiff; cbv zeta; rewrite Z.sub_diag; reflexivity).
    rewrite H0, diffInventory_same, (diffSkills_same S _ Hskills).
    rewrite (diffCombat_same S _ Hevents), diffPosition_same, diffUi_same.
    rewrite diffNpcs_same. apply diffMessages_same. exact Hmsgs. }
  rewrite Hd. repeat split; reflexivity.
Qed.

Lemma diff_identity_witness :
  let S := mkWorld 12 [mkItem "Coins" 100 995; mkItem "Coins" 50 995]
             [mkSkill "Attack" 150 2 2; mkSkill "Hitpoints" 1200 9 10]
             (Some [mkEvent 11 "damage_taken" 3])
             (Some (mkPlayer 3200 3210)) true (Some true) (Some (mkShop true "Store"))
             [mkNpc 1 "Rat" true; mkNpc 2 "Rat" false]
             (Some [mkMessage 12 "Hello @red@world"]) in
  point_in_time S /\ computeStateDiff S S = createEmptyDiff 12.
Proof.
  intros S.
  assert (Hok : point_in_time S).
  { split; [|split].
    - simpl. apply (bool_decide_unpack _). vm_compute. exact I.
    - intros evts [= <-]. repeat constructor. simpl. lia.
    - intros msgs [= <-]. repeat constructor. simpl. lia. }
  split; [exact Hok|]. exact (proj1 (diff_identity S Hok)).
Defined.

(** C4 as stated fails: it does not hold for every snapshot.  A snapshot
    at tick 10 that carries a damage event dated tick 11 differs from
    itself by that damage. *)
Lemma diff_identity_counterexample :
  ~ (forall S : BotWorldState,
        summary (computeStateDiff S S) = []
        /\ damageTaken (d_combat (computeStateDiff S S)) = 0).
Proof.
  intros H.
  destruct (H (mkWorld 10 [] [] (Some [mkEvent 11 "damage_taken" 5]) None
                 false None None [] None)) as [Hsum _].
  discriminate Hsum.
Qed.

(* ===================================================================== *)
(** * Part III. Properties of the task context                            *)
(* ===================================================================== *)

Lemma checkpoint_enter_fields (e : Env) (reason : string) (c : TaskContext.t) :
  let c1 := (TaskContext.checkpoint_enter e reason c).1 in
  TaskContext.onCheckpoint c1 = TaskContext.onCheckpoint c
  /\ TaskContext.logs c1
     = (TaskContext.logs c
        ++ [("[Checkpoint " ++ show (TaskContext.checkpointCount c + 1) ++ "] "
             ++ reason)%string])%list
  /\ TaskContext.status c1 = TaskContext.status c
  /\ TaskContext.abortReason c1 = TaskContext.abortReason c
  /\ TaskContext.progressReports c1 = TaskContext.progressReports c
  /\ TaskContext.checkpointCount c1 = TaskContext.checkpointCount c + 1
  /\ TaskContext.currentAction c1 = TaskContext.currentAction c
  /\ TaskContext.stateListener c1 = TaskContext.stateListener c.
Proof. repeat split; reflexivity. Qed.

(** C8 (the code, for every rejection).  When the registered
    checkpoint handler raises, the [catch] inside [checkpoint] reads
    the [message] of what was raised.  For an [Error], and for any
    value other than [null] and [undefined], the call returns
    [{ continue: true }] to the task body and the error is logged after
    the checkpoint's own log line (as "undefined" for a value without a
    message).  For [null] and [undefined] the read itself raises a
    [TypeError] inside the [catch]: that exception leaves [checkpoint]
    and reaches the task body, and no error line is logged.  In both
    cases the liveness flag and the abort reason stay as they were. *)
Theorem checkpoint_handler_raises (e : Env) (reason : string) (thrown : Thrown)
    (handler : TaskStatus -> Settled) (c : TaskContext.t) :
  TaskContext.onCheckpoint c = true ->
  handler (TaskContext.checkpoint_enter e reason c).2 = Rejected thrown ->
  let out := TaskContext.checkpoint e reason handler c in
  let line := ("[Checkpoint " ++ show (TaskContext.checkpointCount c + 1) ++ "] "
               ++ reason)%string in
  TaskContext.status out.2 = TaskContext.status c
  /\ TaskContext.abortReason out.2 = TaskContext.abortReason c
  /\ (forall err, thrown = ThrownError err ->
        out.1 = Returned (mkResult true None None None)
        /\ TaskContext.logs out.2
           = (TaskContext.logs c
              ++ [line; ("[Checkpoint Error] " ++ err_message err)%string])%list)
  /\ (forall v, thrown = ThrownValue v -> v <> VUndefined ->
        out.1 = Returned (mkResult true None None None)
        /\ TaskContext.logs out.2
           = (TaskContext.logs c ++ [line; "[Checkpoint Error] undefined"])%list)
  /\ (thrown = ThrownNull \/ thrown = ThrownValue VUndefined ->
        (exists type_err, out.1 = Raised type_err /\ message_of thrown = Raised type_err)
        /\ (forall r, out.1 <> Returned r)
        /\ TaskContext.logs out.2 = (TaskContext.logs c ++ [line])%list).
Proof.
  intros Hreg Hraise out line. subst out line.
  unfold TaskContext.checkpoint.
  pose proof (checkpoint_enter_fields e reason c) as (Hon & Hlogs & Hst & Hab & _).
  destruct (TaskContext.checkpoint_enter e reason c) as [c1 st].
  simpl in Hraise, Hon, Hlogs, Hst, Hab.
  rewrite Hon, Hreg, Hraise. unfold TaskContext.checkpoint_settle.
  assert (Hlog2 : forall text,
            TaskContext.logs (TaskContext.log [text] c1)
            = (TaskContext.logs c
               ++ [("[Checkpoint " ++ show (TaskContext.checkpointCount c + 1) ++ "] "
                    ++ reason)%string; text])%list)
    by (intros text; cbn; rewrite Hlogs, <- app_assoc; reflexivity).
  split; [|split; [|split; [|split]]].
  - destruct (message_of thrown); exact Hst.
  - destruct (message_of thrown); exact Hab.
  - intros err ->. cbn [message_of fst snd]. split; [reflexivity | apply Hlog2].
  - intros v -> Hv. destruct v; [contradiction| | |];
      cbn [message_of fst snd]; (split; [reflexivity | apply Hlog2]).
  - intros [-> | ->]; cbn [message_of fst snd];
      (split; [eexists; split; reflexivity|]);
      (split; [intros r; discriminate | exact Hlogs]).
Qed.

Lemma checkpoint_handler_raises_witness :
  let c := TaskContext.create (mkEnv 1000 None "") "task-1-rs" true true None in
  let out := TaskContext.checkpoint (mkEnv 2000 None "") "A"
               (fun _ => Rejected ThrownNull) c in
  out.1 = Raised (type_error "null")
  /\ TaskContext.logs out.2 = ["[Checkpoint 1] A"].
Proof.
  intros c out.
  pose proof (checkpoint_handler_raises (mkEnv 2000 None "") "A" ThrownNull
                (fun _ => Rejected ThrownNull) c eq_refl eq_refl)
    as (_ & _ & _ & _ & H).
  destruct (H (or_introl eq_refl)) as ((type_err & H1 & H2) & _ & H3).
  injection H2 as <-. split; [exact H1 | exact H3].
Defined.

(** ** Progress history *)

Lemma slice_last_suffix {A} (n : nat) (l : list A) : slice_last n l `suffix_of` l.
Proof. unfold slice_last. apply suffix_drop. Qed.

Lemma slice_last_length {A} (n : nat) (l : list A) :
  length (slice_last n l) = Nat.min n (length l).
Proof. unfold slice_last. rewrite length_drop. lia. Qed.

Lemma reportProgress_appends e p c :
  TaskContext.progressReports (TaskContext.reportProgress e p c).1
  = (TaskContext.progressReports c
     ++ [mkProgress (pa_action p) (default PInProgress (pa_status p))
           (pa_progress p) (pa_message p) (pa_data p)])%list.
Proof. reflexivity. Qed.

Lemma apply_op_appends e op c :
  TaskContext.progressReports c
  `prefix_of` TaskContext.progressReports (apply_op e op c).
Proof.
  destruct op; simpl; try reflexivity; try (apply prefix_app_r; reflexivity).
  - unfold TaskContext.checkpoint.
    pose proof (checkpoint_enter_fields e reason c) as (_ & _ & _ & _ & Hpr & _).
    destruct (TaskContext.checkpoint_enter e reason c) as [c1 st].
    simpl in Hpr. rewrite <- Hpr.
    destruct (TaskContext.onCheckpoint c1); [|reflexivity].
    unfold TaskContext.checkpoint_settle.
    destruct (handler st) as [r|err]; [|destruct (message_of err); reflexivity].
    destruct (TaskContext.aborts r); [reflexivity|].
    destruct (cr_newInstructions r) as [i|]; [|reflexivity].
    destruct (truthy i); reflexivity.
  - unfold TaskContext.onStateUpdate.
    destruct (_ && _); [|reflexivity].
    destruct (summary _); reflexivity.
Qed.

Lemma apply_ops_appends ops c :
  TaskContext.progressReports c
  `prefix_of` TaskContext.progressReports (apply_ops ops c).
Proof.
  unfold apply_ops. revert c. induction ops as [|[e op] ops IH]; intros c;
    [reflexivity|].
  simpl. etransitivity; [apply (apply_op_appends e op)|]. apply IH.
Qed.

(** C10.  [getStatus] reports at most 10 progress reports, and they are
    the most recent ones: the last [min 10 n] of the [n] reports the
    context holds.  The history on the context itself only grows: after
    any sequence of operations on the context, the earlier history is
    still there as a prefix, so nothing is dropped or rewritten. *)
Theorem progress_reports_bounded_tail (e : Env) (c : TaskContext.t) :
  let reported := ts_progressReports (TaskContext.getStatus e c) in
  (length reported <= 10)%nat
  /\ length reported = Nat.min 10 (length (TaskContext.progressReports c))
  /\ reported `suffix_of` TaskContext.progressReports c
  /\ (forall ops, TaskContext.progressReports c
                  `prefix_of` TaskContext.progressReports (apply_ops ops c))
  /\ (forall e' p,
        TaskContext.progressReports (TaskContext.reportProgress e' p c).1
        = (TaskContext.progressReports c
           ++ [mkProgress (pa_action p) (default PInProgress (pa_status p))
                 (pa_progress p) (pa_message p) (pa_data p)])%list).
Proof.
  intros reported. subst reported.
  cbn [ts_progressReports TaskContext.getStatus].
  repeat split.
  - rewrite slice_last_length. lia.
  - apply slice_last_length.
  - apply slice_last_suffix.
  - intros ops. apply apply_ops_appends.
Qed.


(* ===================================================================== *)
(** * Part IV. Properties of the task manager                             *)
(* ===================================================================== *)

(** ** Eviction *)

(** The loop of [cleanup], after it has visited the tasks [seen]. *)
Lemma cleanup_loop (time maxAge : Z) (m : TaskManager.t)
    (seen : gmap string TaskManager.RunningTask) :
  let acc := map_fold (TaskManager.cleanup_step time maxAge) (0, m) seen in
  TaskManager.taskCounter acc.2 = TaskManager.taskCounter m
  /\ (forall id,
        TaskManager.tasks acc.2 !! id
        = match seen !! id with
          | Some task =>
              if TaskManager.evictable time maxAge task then None
              else TaskManager.tasks m !! id
          | None => TaskManager.tasks m !! id
          end)
  /\ acc.1 = Z.of_nat (size (stale time maxAge seen)).
Proof.
  cbv zeta.
  apply (map_fold_weak_ind
    (fun acc seen =>
       TaskManager.taskCounter acc.2 = TaskManager.taskCounter m
       /\ (forall id,
             TaskManager.tasks acc.2 !! id
             = match seen !! id with
               | Some task =>
                   if TaskManager.evictable time maxAge task then None
                   else TaskManager.tasks m !! id
               | None => TaskManager.tasks m !! id
               end)
       /\ acc.1 = Z.of_nat (size (stale time maxAge seen)))).
  - repeat split.
  - intros i x seen' [n acc] Hfresh (Hc & Htab & Hn). simpl in *.
    unfold TaskManager.cleanup_step. simpl.
    destruct (TaskManager.evictable time maxAge x) eqn:Hev; simpl.
    + split; [exact Hc|]. split.
      * intros id. destruct (decide (i = id)) as [<-|Hne].
        -- rewrite lookup_delete_eq, lookup_insert_eq, Hev. reflexivity.
        -- rewrite lookup_delete_ne, lookup_insert_ne by exact Hne. apply Htab.
      * unfold stale. rewrite map_filter_insert_True by exact Hev.
        rewrite map_size_insert_None.
        -- fold (stale time maxAge seen'). lia.
        -- apply map_lookup_filter_None. left. exact Hfresh.
    + split; [exact Hc|]. split.
      * intros id. destruct (decide (i = id)) as [<-|Hne].
        -- rewrite lookup_insert_eq, Hev. rewrite Htab, Hfresh. reflexivity.
        -- rewrite lookup_insert_ne by exact Hne. apply Htab.
      * unfold stale. rewrite map_filter_insert_False by (simpl; congruence).
        rewrite delete_id by exact Hfresh. exact Hn.
Qed.

(** A table without stale tasks is left as it is. *)
Lemma cleanup_nothing_stale (e : Env) (maxAgeMs : option Z) (m : TaskManager.t) :
  (forall id task, TaskManager.tasks m !! id = Some task ->
     TaskManager.evictable (now e) (default (30 * 60 * 1000) maxAgeMs) task = false) ->
  TaskManager.cleanup e maxAgeMs m = (0, m).
Proof.
  unfold TaskManager.cleanup. cbv zeta.
  apply (map_fold_weak_ind
    (fun acc seen =>
       (forall id task, seen !! id = Some task ->
          TaskManager.evictable (now e) (default (30 * 60 * 1000) maxAgeMs) task = false) ->
       acc = (0, m))).
  - reflexivity.
  - intros i x seen acc Hfresh IH Hall.
    unfold TaskManager.cleanup_step.
    rewrite (Hall i x) by apply lookup_insert_eq.
    apply IH. intros id task Hid. apply (Hall id).
    rewrite lookup_insert_ne; [exact Hid|]. intros ->. congruence.
Qed.

Lemma cleanup_evicts_lookup (e : Env) (maxAgeMs : option Z) (m : TaskManager.t)
    (id : string) (task : TaskManager.RunningTask) :
  TaskManager.tasks (TaskManager.cleanup e maxAgeMs m).2 !! id = Some task
  <-> TaskManager.tasks m !! id = Some task
      /\ TaskManager.evictable (now e) (default (30 * 60 * 1000) maxAgeMs) task = false.
Proof.
  unfold TaskManager.cleanup. cbv zeta.
  destruct (cleanup_loop (now e) (default (30 * 60 * 1000) maxAgeMs) m
              (TaskManager.tasks m)) as (_ & Htab & _).
  cbv zeta in Htab. rewrite Htab.
  destruct (TaskManager.tasks m !! id) as [t0|] eqn:Hid.
  - destruct (TaskManager.evictable (now e) (default (30 * 60 * 1000) maxAgeMs) t0)
      eqn:Et.
    + split; [discriminate | intros [[= ->] H]; congruence].
    + split; [intros [= ->]; auto | intros [H _]; exact H].
  - split; [discriminate | intros [H _]; exact H].
Qed.

(** C9.  [cleanup(maxAge)] evicts exactly the tasks whose status is
    neither running nor awaiting_feedback and whose last update is older
    than [maxAge]: a task is in the table afterwards if and only if it
    was there before and is not such a task, and the returned number is
    the number of such tasks.  A running or awaiting_feedback task stays
    whatever its age.  Calling [cleanup] again finds nothing to evict and
    changes nothing, and a task once evicted is absent after any later
    [cleanup]; [cleanup] returns a number and never raises. *)
Theorem cleanup_evicts_exactly (e : Env) (maxAgeMs : option Z) (m : TaskManager.t) :
  let maxAge := default (30 * 60 * 1000) maxAgeMs in
  let out := TaskManager.cleanup e maxAgeMs m in
  (forall id task,
      TaskManager.tasks out.2 !! id = Some task
      <-> TaskManager.tasks m !! id = Some task
          /\ ~ (now e - TaskManager.lastUpdate task > maxAge
                /\ TaskManager.status task <> Running
                /\ TaskManager.status task <> AwaitingFeedback))
  /\ (forall id task,
        TaskManager.tasks m !! id = Some task ->
        TaskManager.status task = Running
        \/ TaskManager.status task = AwaitingFeedback ->
        TaskManager.tasks out.2 !! id = Some task)
  /\ out.1 = Z.of_nat (size (stale (now e) maxAge (TaskManager.tasks m)))
  /\ TaskManager.cleanup e maxAgeMs out.2 = (0, out.2)
  /\ (forall e' maxAgeMs' id,
        TaskManager.tasks out.2 !! id = None ->
        TaskManager.tasks (TaskManager.cleanup e' maxAgeMs' out.2).2 !! id = None).
Proof.
  intros maxAge out.
  assert (Hev : forall task,
             TaskManager.evictable (now e) maxAge task = true
             <-> now e - TaskManager.lastUpdate task > maxAge
                 /\ TaskManager.status task <> Running
                 /\ TaskManager.status task <> AwaitingFeedback).
  { intros task. unfold TaskManager.evictable.
    rewrite !andb_true_iff, !negb_true_iff, !bool_decide_eq_false, Z.gtb_lt.
    split; intros ((H1 & H2) & H3) || intros (H1 & H2 & H3);
      repeat split; (assumption || lia). }
  pose proof cleanup_evicts_lookup as Hlook.
  assert (H1 : forall id task,
             TaskManager.tasks out.2 !! id = Some task
             <-> TaskManager.tasks m !! id = Some task
                 /\ ~ (now e - TaskManager.lastUpdate task > maxAge
                       /\ TaskManager.status task <> Running
                       /\ TaskManager.status task <> AwaitingFeedback)).
  { intros id task. subst out. rewrite Hlook. fold maxAge. rewrite <- Hev.
    destruct (TaskManager.evictable (now e) maxAge task);
      split; intros [H H']; split; congruence || auto. }
  split; [exact H1|]. split; [|split; [|split]].
  - intros id task Hid Hst. apply H1. split; [exact Hid|].
    intros (_ & Hr & Ha). destruct Hst; contradiction.
  - subst out. unfold TaskManager.cleanup. cbv zeta.
    destruct (cleanup_loop (now e) maxAge m (TaskManager.tasks m)) as (_ & _ & Hn).
    exact Hn.
  - apply cleanup_nothing_stale. intros id task Hid.
    apply Hlook in Hid as [_ Hid]. exact Hid.
  - intros e' mx' id Hnone.
    destruct (TaskManager.tasks (TaskManager.cleanup e' mx' out.2).2 !! id)
      as [t'|] eqn:E; [|reflexivity].
    apply Hlook in E as [E _]. congruence.
Qed.

Lemma cleanup_evicts_exactly_witness :
  let done := Harness.run [(at_time 1000, Harness.RunTask "bot" "code" "one" (Done None));
                           (at_time 2000, Harness.RunTask "bot" "code" "two"
                                            (two_checkpoints "A" "B"))] in
  let out := TaskManager.cleanup (at_time 5000000) None done in
  task_status "task-1-rs" done = Some Completed
  /\ task_status "task-2-1jk" done = Some AwaitingFeedback
  /\ out.1 = 1
  /\ task_status "task-1-rs" out.2 = None
  /\ task_status "task-2-1jk" out.2 = Some AwaitingFeedback
  /\ TaskManager.cleanup (at_time 5000000) None out.2 = (0, out.2).
Proof.
  intros done out.
  pose proof (cleanup_evicts_exactly (at_time 5000000) None done)
    as (Hiff & Hkeep & Hcount & Hagain & _).
  split; [reflexivity|]. split; [reflexivity|].
  split; [exact Hcount|]. split; [reflexivity|]. split; [reflexivity|].
  exact Hagain.
Defined.

(** ** The table and the pending records agree *)

Lemma record_sound_finished task :
  TaskManager.status task = Completed \/ TaskManager.status task = Failed ->
  record_sound task.
Proof.
  intros H. split.
  - intros Hs. destruct H as [H | H]; congruence.
  - intros _. right. exact H.
Qed.

Lemma record_sound_waiting task :
  TaskManager.status task = AwaitingFeedback ->
  is_Some (TaskManager.pendingCheckpoint task) ->
  record_sound task.
Proof. intros Hs Hp. split; [intros _; exact Hp | intros _; left; exact Hs]. Qed.

Lemma record_sound_free task :
  TaskManager.pendingCheckpoint task = None ->
  TaskManager.status task <> AwaitingFeedback ->
  record_sound task.
Proof.
  intros Hp Hs. split; [intros H; contradiction|].
  rewrite Hp. intros [x Hx]. discriminate.
Qed.

Lemma record_sound_same task task' :
  TaskManager.status task' = TaskManager.status task ->
  TaskManager.pendingCheckpoint task' = TaskManager.pendingCheckpoint task ->
  record_sound task -> record_sound task'.
Proof. intros Hs Hp H. unfold record_sound. rewrite Hs, Hp. exact H. Qed.

Lemma pending_sound_put taskId task m :
  pending_sound m -> record_sound task ->
  pending_sound (TaskManager.put taskId task m).
Proof.
  intros Hm Ht id task' Hid. unfold TaskManager.put in Hid. simpl in Hid.
  destruct (decide (id = taskId)) as [->|Hne].
  - rewrite lookup_insert_eq in Hid. injection Hid as <-. exact Ht.
  - rewrite lookup_insert_ne in Hid by congruence. exact (Hm id task' Hid).
Qed.

(** Delivering progress reports touches neither the status nor the
    pending record. *)
Lemma on_context_shape time op task :
  TaskManager.status (TaskManager.on_context time op task) = TaskManager.status task
  /\ TaskManager.pendingCheckpoint (TaskManager.on_context time op task)
     = TaskManager.pendingCheckpoint task.
Proof.
  unfold TaskManager.on_context. destruct (op (TaskManager.context task)) as [c ps].
  unfold TaskManager.deliver.
  apply (fold_left_inv
    (fun k => TaskManager.status k = TaskManager.status task
              /\ TaskManager.pendingCheckpoint k = TaskManager.pendingCheckpoint task)).
  - split; reflexivity.
  - intros k p _ H. exact H.
Qed.

Lemma ctx_call_sound e taskId op m :
  pending_sound m -> pending_sound (Harness.ctx_call e taskId op m).
Proof.
  intros Hm. unfold Harness.ctx_call.
  destruct (TaskManager.tasks m !! taskId) as [task|] eqn:Hid; [|exact Hm].
  destruct (on_context_shape (now e) op task) as [Hs Hp].
  apply pending_sound_put; [exact Hm|].
  exact (record_sound_same _ _ Hs Hp (Hm taskId task Hid)).
Qed.

Lemma completeTask_sound e taskId result m :
  pending_sound m -> pending_sound (TaskManager.completeTask e taskId result m).
Proof.
  intros Hm. unfold TaskManager.completeTask.
  destruct (TaskManager.tasks m !! taskId) as [task|] eqn:Hid; [|exact Hm].
  destruct (on_context_shape (now e) (TaskContext.complete e result)
              (TaskManager.set_status Completed (now e) task)) as [Hs _].
  apply pending_sound_put; [exact Hm|].
  apply record_sound_finished. left. exact Hs.
Qed.

Lemma failTask_sound e taskId error m :
  pending_sound m -> pending_sound (TaskManager.failTask e taskId error m).
Proof.
  intros Hm. unfold TaskManager.failTask.
  destruct (TaskManager.tasks m !! taskId) as [task|] eqn:Hid; [|exact Hm].
  destruct (on_context_shape (now e) (TaskContext.fail e error)
              (TaskManager.set_status Failed (now e) task)) as [Hs _].
  apply pending_sound_put; [exact Hm|].
  apply record_sound_finished. right. exact Hs.
Qed.

Lemma on_throw_sound e taskId error m :
  pending_sound m -> pending_sound (Harness.on_throw e taskId error m).
Proof.
  intros Hm. unfold Harness.on_throw.
  destruct (TaskManager.tasks m !! taskId) as [task|]; [|exact Hm].
  destruct (decide (TaskManager.status task = AwaitingFeedback)); [exact Hm|].
  destruct (message_of error); [|exact Hm].
  apply failTask_sound. exact Hm.
Qed.

Lemma set_context_sound taskId c task m :
  pending_sound m -> TaskManager.tasks m !! taskId = Some task ->
  pending_sound (TaskManager.put taskId (TaskManager.set_context c task) m).
Proof.
  intros Hm Hid. apply pending_sound_put; [exact Hm|].
  exact (record_sound_same task _ eq_refl eq_refl (Hm taskId task Hid)).
Qed.

Lemma handleCheckpoint_sound e taskId st k m :
  pending_sound m ->
  pending_sound (TaskManager.handleCheckpoint e taskId st k m).2.
Proof.
  intros Hm. unfold TaskManager.handleCheckpoint.
  destruct (TaskManager.tasks m !! taskId) as [task|]; [|exact Hm].
  apply pending_sound_put; [exact Hm|].
  apply record_sound_waiting; [reflexivity | eexists; reflexivity].
Qed.

(** Running a piece of a body keeps the table sound, wherever the piece
    ends: finished, suspended at a checkpoint, or waiting elsewhere. *)
Lemma run_body_sound e taskId b :
  forall m, pending_sound m -> pending_sound (Harness.run_body e taskId b m).
Proof.
  induction b as [result | error | | reason k IH | reason k IH | a k IH | p k IH
                 | args k IH | args k IH | k IH]; intros m Hm;
    cbn [Harness.run_body].
  - apply completeTask_sound. exact Hm.
  - apply on_throw_sound. exact Hm.
  - exact Hm.
  - destruct (TaskManager.tasks m !! taskId) as [task|] eqn:Hid; [|exact Hm].
    destruct (TaskContext.checkpoint_enter e reason (TaskManager.context task))
      as [c1 st].
    pose proof (set_context_sound taskId c1 task m Hm Hid) as Hm1.
    destruct (TaskContext.onCheckpoint c1); [|apply IH; exact Hm1].
    pose proof (handleCheckpoint_sound e taskId st k _ Hm1) as Hm2.
    destruct (TaskManager.handleCheckpoint e taskId st k
                (TaskManager.put taskId (TaskManager.set_context c1 task) m))
      as [[r|] m2]; [|exact Hm2].
    simpl in Hm2.
    destruct (TaskManager.tasks m2 !! taskId) as [task2|] eqn:Hid2; [|exact Hm2].
    destruct (TaskContext.checkpoint_settle (Fulfilled r) (TaskManager.context task2))
      as [res c2].
    pose proof (set_context_sound taskId c2 task2 m2 Hm2 Hid2) as Hm3.
    destruct res as [r'|err]; [apply IH | apply on_throw_sound]; exact Hm3.
  - destruct (TaskManager.tasks m !! taskId) as [task|] eqn:Hid; [|exact Hm].
    destruct (TaskContext.checkpoint_enter e reason (TaskManager.context task))
      as [c1 st].
    pose proof (set_context_sound taskId c1 task m Hm Hid) as Hm1.
    destruct (TaskContext.onCheckpoint c1); apply IH; [|exact Hm1].
    apply handleCheckpoint_sound. exact Hm1.
  - apply IH. apply ctx_call_sound. exact Hm.
  - apply IH. apply ctx_call_sound. exact Hm.
  - apply IH. apply ctx_call_sound. exact Hm.
  - apply IH. apply ctx_call_sound. exact Hm.
  - destruct (TaskManager.tasks m !! taskId) as [task|]; [|exact Hm].
    apply IH. exact Hm.
Qed.

Lemma run_job_sound e j m :
  pending_sound m -> pending_sound (Harness.run_job e m j).
Proof.
  intros Hm. unfold Harness.run_job.
  destruct (TaskManager.tasks m !! job_task j) as [task|] eqn:Hid; [|exact Hm].
  destruct (TaskContext.checkpoint_settle (Fulfilled (job_result j))
              (TaskManager.context task)) as [res c].
  pose proof (set_context_sound (job_task j) c task m Hm Hid) as Hm1.
  destruct res as [r | err]; [apply run_body_sound | apply on_throw_sound];
    exact Hm1.
Qed.

Lemma run_jobs_nil e m : Harness.run_jobs e [] m = m.
Proof. reflexivity. Qed.

Lemma run_jobs_sound e jobs m :
  pending_sound m -> pending_sound (Harness.run_jobs e jobs m).
Proof.
  intros Hm. unfold Harness.run_jobs. apply (fold_left_inv pending_sound).
  - exact Hm.
  - intros m' j _ Hm'. apply run_job_sound. exact Hm'.
Qed.

Lemma continueTask_sound e taskId instructions m :
  pending_sound m ->
  pending_sound (TaskManager.continueTask e taskId instructions m).1.2.
Proof.
  intros Hm. unfold TaskManager.continueTask.
  destruct (TaskManager.tasks m !! taskId) as [task|]; [|exact Hm].
  destruct (TaskManager.pendingCheckpoint task) as [pending|]; [|exact Hm].
  apply pending_sound_put; [exact Hm|].
  apply record_sound_free; [reflexivity | discriminate].
Qed.

Lemma abortTask_sound e taskId reason m :
  pending_sound m ->
  pending_sound (TaskManager.abortTask e taskId reason m).1.2.
Proof.
  intros Hm. unfold TaskManager.abortTask.
  destruct (TaskManager.tasks m !! taskId) as [task|]; [|exact Hm].
  cbn [TaskManager.pendingCheckpoint TaskManager.set_status].
  destruct (TaskManager.pendingCheckpoint task) as [pending|] eqn:Hp;
    (apply pending_sound_put; [exact Hm|]);
    (apply record_sound_free; [simpl; try exact Hp; reflexivity | discriminate]).
Qed.

Lemma continue_task_sound e taskId instructions m :
  pending_sound m -> pending_sound (Harness.continue_task e taskId instructions m).
Proof.
  intros Hm. unfold Harness.continue_task, TaskManager.getTaskStatus.
  destruct (TaskManager.tasks m !! taskId) as [task|]; [|exact Hm].
  destruct (decide (TaskManager.status task = AwaitingFeedback)); [|exact Hm].
  pose proof (continueTask_sound e taskId instructions m Hm) as H.
  destruct (TaskManager.continueTask e taskId instructions m) as [[res m1] jobs].
  apply run_jobs_sound. exact H.
Qed.

Lemma abort_task_sound e taskId reason m :
  pending_sound m -> pending_sound (Harness.abort_task e taskId reason m).
Proof.
  intros Hm. unfold Harness.abort_task.
  pose proof (abortTask_sound e taskId reason m Hm) as H.
  destruct (TaskManager.abortTask e taskId reason m) as [[res m1] jobs].
  apply run_jobs_sound. exact H.
Qed.

Lemma cleanup_sound e maxAgeMs m :
  pending_sound m -> pending_sound (TaskManager.cleanup e maxAgeMs m).2.
Proof.
  intros Hm id task Hid.
  apply (proj1 (cleanup_evicts_lookup e maxAgeMs m id task)) in Hid as [Hid _].
  exact (Hm id task Hid).
Qed.

Lemma run_task_sound e bot code desc body m :
  pending_sound m -> pending_sound (Harness.run_task e bot code desc body m).
Proof.
  intros Hm. unfold Harness.run_task, TaskManager.startTask.
  destruct (TaskManager.generateTaskId e m) as [taskId m1] eqn:Hgen.
  apply run_body_sound.
  assert (Hm1 : pending_sound m1).
  { unfold TaskManager.generateTaskId in Hgen. injection Hgen as _ <-. exact Hm. }
  apply pending_sound_put; [exact Hm1|].
  apply record_sound_free; [reflexivity | discriminate].
Qed.

Lemma handle_sound m step :
  pending_sound m -> pending_sound (Harness.handle m step).
Proof.
  intros Hm. destruct step as [e [bot code desc body | taskId instructions
                                 | taskId reason | maxAgeMs | taskId
                                 | taskId body]]; simpl.
  - apply run_task_sound. exact Hm.
  - apply continue_task_sound. exact Hm.
  - apply abort_task_sound. exact Hm.
  - apply cleanup_sound. exact Hm.
  - apply ctx_call_sound. exact Hm.
  - apply run_body_sound. exact Hm.
Qed.

(** In every state the system can reach, the pending records are
    sound. *)
Lemma reachable_sound m : Harness.reachable m -> pending_sound m.
Proof.
  intros [trace ->]. unfold Harness.run.
  apply (fold_left_inv pending_sound).
  - intros id task Hid. unfold TaskManager.empty in Hid. simpl in Hid.
    rewrite lookup_empty in Hid. discriminate.
  - intros m step _. apply handle_sound.
Qed.

(** ** Resuming *)







(** ** Checkpoints in sequence *)

(** What a suspended task shows of its checkpoint: the reason stored in
    the pending record and the checkpoint count of the stored status. *)
Lemma handleCheckpoint_records (e : Env) (taskId : string) (st : TaskStatus)
    (k : CheckpointResult -> Body) (m : TaskManager.t) (task : TaskManager.RunningTask) :
  TaskManager.tasks m !! taskId = Some task ->
  exists task',
    TaskManager.handleCheckpoint e taskId st k m
    = (None, TaskManager.put taskId task' m)
    /\ TaskManager.status task' = AwaitingFeedback
    /\ TaskManager.pendingCheckpoint task'
       = Some (mkPending (ts_currentAction st) st k).
Proof.
  intros Hid. unfold TaskManager.handleCheckpoint. rewrite Hid.
  eexists. split; [reflexivity|]. split; reflexivity.
Qed.

(** C1 (the code at the claim's input).  The body awaits
    [checkpoint("A")], then [checkpoint("B")], then returns.  After the
    start it is suspended at its first checkpoint.  One [continueTask]
    resumes it up to its second checkpoint and no further: the task is
    awaiting feedback again, the stored status counts two checkpoints,
    the log has the line of "B" after the line of "A" and nothing of "A"
    again, and no completion has been reported; a second [continueTask]
    completes it.  But the reason stored in the pending record is the
    context's current action, "initializing", at both pauses: it is not
    the reason "B" passed to the second checkpoint call. *)
Theorem second_pause_reason :
  let id := "task-1-rs" in
  let m1 := started (two_checkpoints "A" "B") in
  let m2 := Harness.continue_task (at_time 2000) id None m1 in
  let m3 := Harness.continue_task (at_time 3000) id None m2 in
  (task_status id m1 = Some AwaitingFeedback
   /\ (TaskContext.logs <$> context_of id m1) = Some ["[Checkpoint 1] A"]
   /\ (pc_reason <$> pending_of id m1) = Some "initializing")
  /\ (task_status id m2 = Some AwaitingFeedback
      /\ ((ts_checkpointCount ∘ pc_status) <$> pending_of id m2) = Some 2
      /\ (TaskContext.logs <$> context_of id m2)
         = Some ["[Checkpoint 1] A"; "[Checkpoint 2] B"]
      /\ reported id m2 = []
      /\ (pc_reason <$> pending_of id m2) = Some "initializing"
      /\ (pc_reason <$> pending_of id m2) <> Some "B")
  /\ (task_status id m3 = Some Completed
      /\ reported id m3 = [PCompleted]).
Proof.
  cbv zeta. repeat split; try (vm_compute; reflexivity);
    intros H; vm_compute in H; discriminate H.
Qed.

(** ** Aborting *)

(** What [abortTask] itself does to a suspended task. *)
Lemma abortTask_paused (e : Env) (taskId : string) (reason : option string)
    (m : TaskManager.t) (task : TaskManager.RunningTask) (pending : PendingCheckpoint) :
  TaskManager.tasks m !! taskId = Some task ->
  TaskManager.pendingCheckpoint task = Some pending ->
  exists task',
    TaskManager.abortTask e taskId reason m
    = (Returned tt, TaskManager.put taskId task' m,
       [mkJob taskId
          (mkResult false None (Some true)
             (Some (or_default reason "Task aborted by user")))
          (pc_resolve pending)])
    /\ TaskManager.status task' = Aborted
    /\ TaskManager.pendingCheckpoint task' = None
    /\ TaskContext.stateListener (TaskManager.context task') = false.
Proof.
  intros Hid Hp. unfold TaskManager.abortTask. rewrite Hid.
  cbn [TaskManager.pendingCheckpoint TaskManager.set_status]. rewrite Hp.
  eexists. split; [reflexivity|]. repeat split.
Qed.

(** C3 (the code at a failing input).  A task is suspended at a
    checkpoint and its body returns as soon as the checkpoint tells it
    not to continue.  [abortTask] resolves the pending checkpoint with
    [{ continue: false, abort: true }], clears the pending record and
    sets the status to aborted.  The released body then returns, the
    harness calls [completeTask], and the task ends with status
    completed, not aborted, after a "completed" progress report has
    been emitted to the manager. *)
Theorem abort_then_body_returns :
  let id := "task-1-rs" in
  let m1 := started obedient_body in
  let out := TaskManager.abortTask (at_time 2000) id (Some "stop") m1 in
  let m3 := Harness.abort_task (at_time 2000) id (Some "stop") m1 in
  (task_status id m1 = Some AwaitingFeedback
   /\ (pc_reason <$> pending_of id m1) = Some "initializing")
  /\ (out.1.1 = Returned tt
      /\ map job_result out.2 = [mkResult false None (Some true) (Some "stop")]
      /\ task_status id out.1.2 = Some Aborted
      /\ (pc_reason <$> pending_of id out.1.2) = None
      /\ reported id out.1.2 = [])
  /\ (task_status id m3 = Some Completed
      /\ task_status id m3 <> Some Aborted
      /\ reported id m3 = [PCompleted]
      /\ (TaskContext.status <$> context_of id m3) = Some LCompleted
      /\ (TaskContext.abortReason <$> context_of id m3) = Some (Some "stop")).
Proof.
  cbv zeta. repeat split; try (vm_compute; reflexivity);
    intros H; vm_compute in H; discriminate H.
Qed.

(** ** Resuming into the next checkpoint, in general *)

Lemma checkpoint_settle_continue (instructions : option string) (c : TaskContext.t) :
  let out := TaskContext.checkpoint_settle
               (Fulfilled (mkResult true instructions None None)) c in
  out.1 = Returned (mkResult true instructions None None)
  /\ TaskContext.onCheckpoint out.2 = TaskContext.onCheckpoint c
  /\ TaskContext.currentAction out.2 = TaskContext.currentAction c
  /\ TaskContext.checkpointCount out.2 = TaskContext.checkpointCount c
  /\ TaskContext.status out.2 = TaskContext.status c.
Proof.
  unfold TaskContext.checkpoint_settle. simpl.
  destruct instructions as [i|]; [|repeat split].
  destruct (truthy i); repeat split.
Qed.

(** Whatever the state of the table, resuming a task whose body waits at
    a checkpoint and goes on to [checkpoint(B)] suspends it again at
    that next checkpoint, before anything that follows it: the new
    pending record holds the rest of the body, the stored status counts
    one more checkpoint, and nothing was reported to the manager in
    between.  The stored reason is the current action of the context. *)
Lemma continue_reaches_next_checkpoint (e : Env) (taskId : string)
    (instructions : option string) (m : TaskManager.t)
    (task : TaskManager.RunningTask) (pending : PendingCheckpoint)
    (B : string) (rest : CheckpointResult -> Body) :
  TaskManager.tasks m !! taskId = Some task ->
  TaskManager.status task = AwaitingFeedback ->
  TaskManager.pendingCheckpoint task = Some pending ->
  (forall r, pc_resolve pending r = AwaitCheckpoint B rest) ->
  TaskContext.onCheckpoint (TaskManager.context task) = true ->
  exists task' pending',
    TaskManager.tasks (Harness.continue_task e taskId instructions m) !! taskId
    = Some task'
    /\ TaskManager.status task' = AwaitingFeedback
    /\ TaskManager.pendingCheckpoint task' = Some pending'
    /\ pc_resolve pending' = rest
    /\ ts_checkpointCount (pc_status pending')
       = TaskContext.checkpointCount (TaskManager.context task) + 1
    /\ pc_reason pending' = TaskContext.currentAction (TaskManager.context task)
    /\ TaskManager.progressHistory task' = TaskManager.progressHistory task.
Proof.
  intros Hid Hst Hp Hk Hon.
  unfold Harness.continue_task, TaskManager.getTaskStatus. rewrite Hid.
  destruct (decide (TaskManager.status task = AwaitingFeedback)); [|contradiction].
  unfold TaskManager.continueTask. rewrite Hid, Hp.
  unfold Harness.run_jobs. cbn [fold_left].
  unfold Harness.run_job. cbn [job_task job_result job_resume].
  cbn [TaskManager.tasks TaskManager.put]. rewrite lookup_insert_eq.
  cbn [TaskManager.context TaskManager.set_status TaskManager.set_pending].
  pose proof (checkpoint_settle_continue instructions (TaskManager.context task))
    as (Hres & Hon' & Hact & Hcnt & _).
  destruct (TaskContext.checkpoint_settle _ (TaskManager.context task)) as [res c].
  simpl in Hres, Hon', Hact, Hcnt. subst res.
  rewrite Hk. cbn [Harness.run_body].
  cbn [TaskManager.tasks TaskManager.put]. rewrite lookup_insert_eq.
  cbn [TaskManager.context TaskManager.set_context].
  pose proof (checkpoint_enter_fields e B c) as (Hon1 & _ & _ & _ & _ & Hcnt1 & Hact1 & _).
  assert (Hst1 : let st := (TaskContext.checkpoint_enter e B c).2 in
                 ts_checkpointCount st = TaskContext.checkpointCount c + 1
                 /\ ts_currentAction st = TaskContext.currentAction c)
    by (split; reflexivity).
  destruct (TaskContext.checkpoint_enter e B c) as [c1 st].
  simpl in Hon1, Hcnt1, Hact1, Hst1. destruct Hst1 as [Hstc Hsta].
  rewrite Hon1, Hon', Hon.
  unfold TaskManager.handleCheckpoint.
  cbn [TaskManager.tasks TaskManager.put]. rewrite lookup_insert_eq.
  eexists. eexists. split; [apply lookup_insert_eq|].
  cbn. repeat split; try congruence.
  - simpl. rewrite Hstc, Hcnt. reflexivity.
  - simpl. rewrite Hsta, Hact. reflexivity.
Qed.

(** ** Aborting a task whose body then returns, in general *)

(** Whatever the state of the table: when a suspended task is aborted
    and its body returns once released, the task ends as completed, and
    the "completed" report of the context is appended to the history
    the manager keeps. *)
Lemma abort_then_return_completes (e : Env) (taskId : string) (reason : option string)
    (m : TaskManager.t) (task : TaskManager.RunningTask) (pending : PendingCheckpoint)
    (result : option JsValue) :
  TaskManager.tasks m !! taskId = Some task ->
  TaskManager.pendingCheckpoint task = Some pending ->
  (forall r, pc_resolve pending r = Done result) ->
  TaskContext.onProgress (TaskManager.context task) = true ->
  exists task',
    TaskManager.tasks (Harness.abort_task e taskId reason m) !! taskId = Some task'
    /\ TaskManager.status task' = Completed
    /\ TaskManager.pendingCheckpoint task' = None
    /\ TaskManager.progressHistory task'
       = (TaskManager.progressHistory task
          ++ [mkProgress (TaskContext.currentAction (TaskManager.context task))
                PCompleted None (Some "Task completed") result])%list
    /\ TaskContext.status (TaskManager.context task') = LCompleted.
Proof.
  intros Hid Hp Hk Hon.
  unfold Harness.abort_task, TaskManager.abortTask. rewrite Hid.
  cbn [TaskManager.pendingCheckpoint TaskManager.set_status]. rewrite Hp.
  unfold Harness.run_jobs. cbn [fold_left].
  unfold Harness.run_job. cbn [job_task job_result job_resume].
  cbn [TaskManager.tasks TaskManager.put]. rewrite lookup_insert_eq.
  unfold TaskContext.checkpoint_settle, TaskManager.abort_result.
  cbn [TaskContext.aborts cr_abort default from_option Datatypes.id].
  rewrite Hk. cbn [Harness.run_body].
  unfold TaskManager.completeTask.
  cbn [TaskManager.tasks TaskManager.put]. rewrite lookup_insert_eq.
  eexists. split; [apply lookup_insert_eq|].
  unfold TaskManager.on_context, TaskContext.complete, TaskContext.reportProgress,
    TaskContext.emit.
  cbn. rewrite Hon. cbn. repeat split.
Qed.


(* ===================================================================== *)
(** * Part V. Further properties of the differ                            *)
(* ===================================================================== *)

(** ** The remaining fields across the phases *)

Lemma diffInventory_rest b a d :
  d_tick (diffInventory b a d) = d_tick d
  /\ d_combat (diffInventory b a d) = d_combat d
  /\ d_ui (diffInventory b a d) = d_ui d
  /\ d_npcs (diffInventory b a d) = d_npcs d
  /\ messages (diffInventory b a d) = messages d.
Proof.
  unfold diffInventory.
  apply (fold_left_inv
    (fun d' => d_tick d' = d_tick d /\ d_combat d' = d_combat d /\ d_ui d' = d_ui d
               /\ d_npcs d' = d_npcs d /\ messages d' = messages d)).
  - apply (fold_left_inv
      (fun d' => d_tick d' = d_tick d /\ d_combat d' = d_combat d /\ d_ui d' = d_ui d
                 /\ d_npcs d' = d_npcs d /\ messages d' = messages d));
      [repeat split|].
    intros d' [id item] _ H. unfold_steps. step_cases; exact H.
  - intros d' [id item] _ H. unfold_steps. step_cases; exact H.
Qed.

Lemma diffSkills_rest b a d :
  d_tick (diffSkills b a d) = d_tick d
  /\ d_combat (diffSkills b a d) = d_combat d
  /\ d_ui (diffSkills b a d) = d_ui d
  /\ d_npcs (diffSkills b a d) = d_npcs d
  /\ messages (diffSkills b a d) = messages d.
Proof.
  unfold diffSkills.
  apply (fold_left_inv
    (fun d' => d_tick d' = d_tick d /\ d_combat d' = d_combat d /\ d_ui d' = d_ui d
               /\ d_npcs d' = d_npcs d /\ messages d' = messages d));
    [repeat split|].
  intros d' s _ H. unfold_steps. step_cases; exact H.
Qed.

Lemma diffCombat_rest b a d :
  d_tick (diffCombat b a d) = d_tick d
  /\ d_ui (diffCombat b a d) = d_ui d
  /\ d_npcs (diffCombat b a d) = d_npcs d
  /\ messages (diffCombat b a d) = messages d.
Proof.
  unfold diffCombat, push_if. cbv zeta. step_cases; repeat split; reflexivity.
Qed.

Lemma diffPosition_rest b a d :
  d_tick (diffPosition b a d) = d_tick d
  /\ d_combat (diffPosition b a d) = d_combat d
  /\ d_ui (diffPosition b a d) = d_ui d
  /\ d_npcs (diffPosition b a d) = d_npcs d
  /\ messages (diffPosition b a d) = messages d.
Proof. unfold diffPosition, push_if. step_cases; repeat split; reflexivity. Qed.

Lemma diffUi_rest b a d :
  d_tick (diffUi b a d) = d_tick d
  /\ d_combat (diffUi b a d) = d_combat d
  /\ d_npcs (diffUi b a d) = d_npcs d
  /\ messages (diffUi b a d) = messages d.
Proof.
  unfold diffUi, push_if. cbv zeta. step_cases; repeat split; reflexivity.
Qed.

Lemma diffNpcs_rest b a d :
  d_tick (diffNpcs b a d) = d_tick d
  /\ d_combat (diffNpcs b a d) = d_combat d
  /\ d_ui (diffNpcs b a d) = d_ui d
  /\ messages (diffNpcs b a d) = messages d.
Proof.
  unfold diffNpcs.
  apply (fold_left_inv
    (fun d' => d_tick d' = d_tick d /\ d_combat d' = d_combat d /\ d_ui d' = d_ui d
               /\ messages d' = messages d)).
  - apply (fold_left_inv
      (fun d' => d_tick d' = d_tick d /\ d_combat d' = d_combat d /\ d_ui d' = d_ui d
                 /\ messages d' = messages d)); [repeat split|].
    intros d' n _ H. unfold_steps. step_cases; exact H.
  - intros d' [idx n] _ H. unfold_steps. step_cases; exact H.
Qed.

Lemma diffMessages_rest b a d :
  d_tick (diffMessages b a d) = d_tick d
  /\ d_combat (diffMessages b a d) = d_combat d
  /\ d_ui (diffMessages b a d) = d_ui d
  /\ d_npcs (diffMessages b a d) = d_npcs d.
Proof. unfold diffMessages. step_cases; repeat split; reflexivity. Qed.

(** Each field of the result is written by one phase. *)
Lemma computeStateDiff_combat b a :
  d_combat (computeStateDiff b a)
  = d_combat (diffCombat b a (createEmptyDiff (tick b))).
Proof.
  unfold computeStateDiff. cbv zeta.
  set (d3 := diffSkills b a (diffInventory b a (initDiff b a))).
  destruct (diffMessages_rest b a
    (diffNpcs b a (diffUi b a (diffPosition b a (diffCombat b a d3)))))
    as (_ & -> & _).
  destruct (diffNpcs_rest b a (diffUi b a (diffPosition b a (diffCombat b a d3))))
    as (_ & -> & _).
  destruct (diffUi_rest b a (diffPosition b a (diffCombat b a d3))) as (_ & -> & _).
  destruct (diffPosition_rest b a (diffCombat b a d3)) as (_ & -> & _).
  assert (H3 : d_combat d3 = mkCombatDiff 0 0 0 0).
  { subst d3. destruct (diffSkills_rest b a (diffInventory b a (initDiff b a)))
      as (_ & -> & _).
    destruct (diffInventory_rest b a (initDiff b a)) as (_ & -> & _). reflexivity. }
  unfold diffCombat, push_if. cbv zeta. rewrite H3.
  step_cases; reflexivity.
Qed.

Lemma computeStateDiff_ui b a :
  d_ui (computeStateDiff b a) = d_ui (diffUi b a (createEmptyDiff (tick b))).
Proof.
  unfold computeStateDiff. cbv zeta.
  set (d5 := diffPosition b a (diffCombat b a
               (diffSkills b a (diffInventory b a (initDiff b a))))).
  destruct (diffMessages_rest b a (diffNpcs b a (diffUi b a d5))) as (_ & _ & -> & _).
  destruct (diffNpcs_rest b a (diffUi b a d5)) as (_ & _ & -> & _).
  unfold diffUi, push_if. cbv zeta. step_cases; reflexivity.
Qed.

Lemma computeStateDiff_npcs b a :
  d_npcs (computeStateDiff b a) = d_npcs (diffNpcs b a (createEmptyDiff (tick b))).
Proof.
  unfold computeStateDiff. cbv zeta.
  set (d6 := diffUi b a (diffPosition b a (diffCombat b a
               (diffSkills b a (diffInventory b a (initDiff b a)))))).
  destruct (diffMessages_rest b a (diffNpcs b a d6)) as (_ & _ & _ & ->).
  assert (H6 : d_npcs d6 = mkNpcsDiff [] [] []).
  { subst d6.
    destruct (diffUi_rest b a (diffPosition b a (diffCombat b a
      (diffSkills b a (diffInventory b a (initDiff b a)))))) as (_ & _ & -> & _).
    destruct (diffPosition_rest b a (diffCombat b a
      (diffSkills b a (diffInventory b a (initDiff b a))))) as (_ & _ & _ & -> & _).
    destruct (diffCombat_rest b a
      (diffSkills b a (diffInventory b a (initDiff b a)))) as (_ & _ & -> & _).
    destruct (diffSkills_rest b a (diffInventory b a (initDiff b a)))
      as (_ & _ & _ & -> & _).
    destruct (diffInventory_rest b a (initDiff b a)) as (_ & _ & _ & -> & _).
    reflexivity. }
  (* the entity phase reads only its own field of the incoming diff *)
  unfold diffNpcs.
  assert (Hfold : forall (A : Type) (f : StateDiff -> A -> StateDiff) (l : list A) d d',
             (forall d d' x, d_npcs d = d_npcs d' -> d_npcs (f d x) = d_npcs (f d' x)) ->
             d_npcs d = d_npcs d' ->
             d_npcs (fold_left f l d) = d_npcs (fold_left f l d')).
  { intros A f l. induction l as [|x l IH]; intros d d' Hf Hd; simpl; [exact Hd|].
    apply IH; [exact Hf | apply Hf; exact Hd]. }
  apply Hfold.
  - intros d d' [idx n] Hd. unfold_steps. step_cases; rewrite ?Hd; reflexivity.
  - apply Hfold; [|exact H6].
    intros d d' n Hd. unfold_steps. step_cases; rewrite ?Hd; reflexivity.
Qed.

Lemma computeStateDiff_messages b a :
  messages (computeStateDiff b a)
  = match gameMessages a with
    | Some msgs =>
        map (fun m => strip_markers (msg_text m))
          (List.filter (fun m => msg_tick m >? tick b) msgs)
    | None => []
    end.
Proof.
  unfold computeStateDiff. cbv zeta. unfold diffMessages.
  destruct (gameMessages a); [reflexivity|].
  destruct (diffNpcs_rest b a (diffUi b a (diffPosition b a (diffCombat b a
    (diffSkills b a (diffInventory b a (initDiff b a))))))) as (_ & _ & _ & ->).
  destruct (diffUi_rest b a (diffPosition b a (diffCombat b a
    (diffSkills b a (diffInventory b a (initDiff b a)))))) as (_ & _ & _ & ->).
  destruct (diffPosition_rest b a (diffCombat b a
    (diffSkills b a (diffInventory b a (initDiff b a))))) as (_ & _ & _ & _ & ->).
  destruct (diffCombat_rest b a
    (diffSkills b a (diffInventory b a (initDiff b a)))) as (_ & _ & _ & ->).
  destruct (diffSkills_rest b a (diffInventory b a (initDiff b a)))
    as (_ & _ & _ & _ & ->).
  destruct (diffInventory_rest b a (initDiff b a)) as (_ & _ & _ & _ & ->).
  reflexivity.
Qed.

(** ** Combat *)

Lemma combat_fold (evts : list CombatEvent) (c : CombatDiff) :
  fold_left combat_step evts c
  = mkCombatDiff (damageTaken c + damage_of "damage_taken" evts)
      (damageDealt c + damage_of "damage_dealt" evts)
      (kills c + count_of "kill" evts) (healthChange c).
Proof.
  revert c. induction evts as [|e evts IH]; intros c; simpl.
  - destruct c; simpl. f_equal; lia.
  - rewrite IH. unfold combat_step.
    destruct (String.eqb (evt_type e) "damage_taken") eqn:Ht.
    + apply String.eqb_eq in Ht. rewrite Ht. simpl. f_equal; lia.
    + destruct (String.eqb (evt_type e) "damage_dealt") eqn:Hd.
      * apply String.eqb_eq in Hd. rewrite Hd. simpl. f_equal; lia.
      * destruct (String.eqb (evt_type e) "kill") eqn:Hk; simpl; f_equal; lia.
Qed.

(** X1.  The combat aggregate of a diff counts only the events of the
    "after" snapshot dated strictly after the "before" tick: damageTaken
    and damageDealt are the summed damage of the new [damage_taken] and
    [damage_dealt] events, kills is the number of new [kill] events, and
    events of any other type count for nothing.  healthChange is the
    difference of the two Hitpoints levels (10 where the skill is
    absent), whatever the events say. *)
Theorem combat_counts_new_events (b a : BotWorldState) :
  d_combat (computeStateDiff b a)
  = mkCombatDiff (damage_of "damage_taken" (new_events b a))
      (damage_of "damage_dealt" (new_events b a))
      (count_of "kill" (new_events b a))
      (hitpoints a - hitpoints b)
  /\ Forall (fun e => evt_tick e > tick b) (new_events b a)
  /\ (forall e, In e (new_events b a) <->
                exists evts, combatEvents a = Some evts /\ In e evts
                             /\ evt_tick e > tick b).
Proof.
  split; [|split].
  - rewrite computeStateDiff_combat. unfold diffCombat, new_events. cbv zeta.
    destruct (combatEvents a) as [evts|].
    + rewrite combat_fold. unfold push_if. simpl. step_cases; reflexivity.
    + unfold push_if. simpl. reflexivity.
  - unfold new_events. destruct (combatEvents a) as [evts|]; [|constructor].
    apply List.Forall_forall. intros e He. apply filter_In in He as [_ He].
    apply Z.gtb_lt in He. lia.
  - intros e. unfold new_events. destruct (combatEvents a) as [evts|].
    + rewrite filter_In, Z.gtb_lt. split.
      * intros [Hin Ht]. exists evts. repeat split; [assumption | lia].
      * intros (evts' & [= <-] & Hin & Ht). split; [assumption | lia].
    + split; [intros [] | intros (evts' & Hn & _); discriminate].
Qed.

(** ** UI transitions *)

(** X2.  The six UI flags are edge-triggered: for each of dialog,
    interface and shop, "opened" and "closed" are never both set, both
    are false when the element is open (or closed) in both snapshots
    (an absent interface or shop counting as closed), and exchanging
    the two snapshots exchanges "opened" and "closed". *)
Theorem ui_flags_are_edges (b a : BotWorldState) :
  let u := d_ui (computeStateDiff b a) in
  let u' := d_ui (computeStateDiff a b) in
  (dialogOpened u && dialogClosed u = false
   /\ interfaceOpened u && interfaceClosed u = false
   /\ shopOpened u && shopClosed u = false)
  /\ (dialogOpened u = dialogClosed u' /\ dialogClosed u = dialogOpened u'
      /\ interfaceOpened u = interfaceClosed u'
      /\ interfaceClosed u = interfaceOpened u'
      /\ shopOpened u = shopClosed u' /\ shopClosed u = shopOpened u')
  /\ (dialogOpened u || dialogClosed u
      = xorb (dialog_isOpen b) (dialog_isOpen a)
      /\ interfaceOpened u || interfaceClosed u
         = xorb (opt_open (interface_isOpen b)) (opt_open (interface_isOpen a))
      /\ shopOpened u || shopClosed u = xorb (shop_open b) (shop_open a)).
Proof.
  cbv zeta. rewrite !computeStateDiff_ui.
  assert (Hu : forall x y,
             d_ui (diffUi x y (createEmptyDiff (tick x)))
             = mkUiDiff (negb (dialog_isOpen x) && dialog_isOpen y)
                 (dialog_isOpen x && negb (dialog_isOpen y))
                 (negb (opt_open (interface_isOpen x)) && opt_open (interface_isOpen y))
                 (opt_open (interface_isOpen x) && negb (opt_open (interface_isOpen y)))
                 (negb (shop_open x) && shop_open y)
                 (shop_open x && negb (shop_open y))).
  { intros x y. unfold diffUi, push_if. cbv zeta. step_cases; reflexivity. }
  rewrite !Hu. simpl.
  destruct (dialog_isOpen b), (dialog_isOpen a),
    (opt_open (interface_isOpen b)), (opt_open (interface_isOpen a)),
    (shop_open b), (shop_open a); repeat split; reflexivity.
Qed.

(** ** Missing optional fields *)

(** X3.  Missing optional fields of a snapshot degrade to "no change"
    for their part of the diff: without player coordinates on either
    side the position is the default (not moved, distance 0, no from or
    to); without a [combatEvents] list on the "after" side the three
    damage aggregates are 0; without a [gameMessages] list there are no
    messages. *)
Theorem missing_fields_degrade (b a : BotWorldState) :
  (player b = None \/ player a = None ->
   d_position (computeStateDiff b a) = mkPositionDiff false None None 0)
  /\ (combatEvents a = None ->
      d_combat (computeStateDiff b a)
      = mkCombatDiff 0 0 0 (hitpoints a - hitpoints b))
  /\ (gameMessages a = None -> messages (computeStateDiff b a) = []).
Proof.
  split; [|split].
  - intros H. destruct (computeStateDiff_position b a) as [-> H4].
    unfold diffPosition.
    destruct H as [-> | ->]; [exact H4|]. destruct (player b); exact H4.
  - intros H. rewrite computeStateDiff_combat. unfold diffCombat, push_if.
    cbv zeta. rewrite H. reflexivity.
  - intros H. rewrite computeStateDiff_messages, H. reflexivity.
Qed.

(** ** Skills, the other direction *)

Lemma skill_fold_entries m l d :
  d_xpGained (fold_left (skill_step m) l d)
  = (d_xpGained d
     ++ flat_map
          (fun s =>
             match JsMap.get m (skill_name s) with
             | Some bs =>
                 if skill_experience s >? skill_experience bs then
                   [mkXpGain (skill_name s) (skill_experience s - skill_experience bs)
                      (skill_baseLevel s >? skill_baseLevel bs)
                      (if skill_baseLevel s >? skill_baseLevel bs
                       then Some (skill_baseLevel s) else None)]
                 else []
             | None => []
             end) l)%list.
Proof.
  revert d. induction l as [|s l IH]; intros d; simpl; [rewrite app_nil_r; reflexivity|].
  rewrite IH. unfold skill_step, push_xp.
  destruct (JsMap.get m (skill_name s)) as [bs|]; [|rewrite app_nil_l; reflexivity].
  destruct (skill_experience s >? skill_experience bs);
    [|rewrite app_nil_l; reflexivity].
  destruct (skill_baseLevel s >? skill_baseLevel bs); simpl;
    rewrite <- app_assoc; reflexivity.
Qed.

Lemma buildSkills_get_in (l : list SkillState) m name bs :
  JsMap.get (fold_left (fun m s => JsMap.set m (skill_name s) s) l m) name = Some bs ->
  In bs l \/ JsMap.get m name = Some bs.
Proof.
  revert m. induction l as [|x l IH]; intros m H; [right; exact H|].
  simpl in H. apply IH in H as [H | H]; [left; right; exact H|].
  destruct (decide (skill_name x = name)) as [<-|Hne].
  - rewrite get_set_eq in H. injection H as <-. left. left. reflexivity.
  - rewrite get_set_ne in H by exact Hne. right. exact H.
Qed.

(** X4.  Every xpGained entry of a diff comes from a skill of the
    "after" snapshot that the "before" snapshot also lists, whose
    experience strictly increased: the entry carries that skill's name
    and the positive experience difference, levelUp tells whether the
    base level rose, and newLevel is present exactly then and is the
    base level after.  A skill that only the "after" snapshot has
    yields no entry. *)
Theorem xp_entries_sound (b a : BotWorldState) (g : XpGain) :
  In g (d_xpGained (computeStateDiff b a)) ->
  exists s bs,
    In s (skills a) /\ In bs (skills b)
    /\ skill_name bs = skill_name s
    /\ xp_name g = skill_name s
    /\ xp g = skill_experience s - skill_experience bs
    /\ 0 < xp g
    /\ (levelUp g = true <-> skill_baseLevel s > skill_baseLevel bs)
    /\ newLevel g = (if levelUp g then Some (skill_baseLevel s) else None).
Proof.
  rewrite computeStateDiff_xpGained. unfold diffSkills.
  rewrite skill_fold_entries.
  destruct (diffInventory_keeps b a (initDiff b a)) as [-> _]. simpl.
  intros Hin. apply in_flat_map in Hin as (s & Hs & Hg).
  destruct (JsMap.get (buildSkills (skills b)) (skill_name s)) as [bs|] eqn:Hget;
    [|destruct Hg].
  destruct (skill_experience s >? skill_experience bs) eqn:Hxp; [|destruct Hg].
  destruct Hg as [<- | []]. apply Z.gtb_lt in Hxp.
  assert (Hbs : In bs (skills b) /\ skill_name bs = skill_name s).
  { unfold buildSkills in Hget.
    assert (Hkey : forall l m,
               (forall k v, JsMap.get m k = Some v -> skill_name v = k) ->
               forall k v,
                 JsMap.get (fold_left (fun m s => JsMap.set m (skill_name s) s) l m) k
                 = Some v -> skill_name v = k).
    { induction l as [|x l IH]; intros m Hm k v H; [exact (Hm k v H)|].
      simpl in H. apply (IH (JsMap.set m (skill_name x) x)); [|exact H].
      intros k' v' H'. destruct (decide (skill_name x = k')) as [<-|Hne].
      - rewrite get_set_eq in H'. injection H' as <-. reflexivity.
      - rewrite get_set_ne in H' by exact Hne. exact (Hm k' v' H'). }
    split.
    - apply buildSkills_get_in in Hget as [H | H]; [exact H | discriminate H].
    - apply (Hkey (skills b) [] ltac:(intros k v H; discriminate H) _ _ Hget). }
  destruct Hbs as [Hbin Hbname].
  exists s, bs. simpl. repeat split; try assumption; try lia.
Qed.

Lemma xp_entries_sound_witness :
  let b := mkWorld 10 [] [mkSkill "Attack" 100 1 1] None None false None None [] None in
  let a := mkWorld 12 [] [mkSkill "Attack" 150 2 2; mkSkill "Magic" 30 1 1] None None
             false None None [] None in
  exists s bs, In s (skills a) /\ In bs (skills b)
               /\ skill_name s = "Attack" /\ skill_experience s - skill_experience bs = 50.
Proof.
  intros b a.
  destruct (xp_entries_sound b a (mkXpGain "Attack" 50 true (Some 2)))
    as (s & bs & Hs & Hb & _ & Hn & Hx & _).
  - left. reflexivity.
  - exists s, bs. simpl in Hn, Hx. repeat split; try assumption; congruence.
Defined.

(** ** Inventory entries *)

Lemma get_some_in {K V} `{EqDecision K} (m : list (K * V)) (k : K) (v : V) :
  JsMap.get m k = Some v -> In (k, v) m.
Proof.
  induction m as [|[k' v'] m IH]; simpl; [discriminate|].
  destruct (decide (k' = k)) as [->|]; [intros [= ->]; left; reflexivity|].
  intros H. right. apply IH. exact H.
Qed.

Lemma get_none_keys {K V} `{EqDecision K} (m : list (K * V)) (k : K) :
  JsMap.get m k = None <-> ~ In k (map fst m).
Proof.
  induction m as [|[k' v'] m IH]; simpl; [tauto|].
  destruct (decide (k' = k)) as [->|Hne].
  - split; [discriminate | intros H; exfalso; apply H; left; reflexivity].
  - rewrite IH. split; [intros H [Hk | Hk]; [congruence | auto] | tauto].
Qed.

Lemma add_count_entry_ids m it :
  (forall k e, In (k, e) m -> item_id e = k) ->
  forall k e, In (k, e) (add_count m it) -> item_id e = k.
Proof.
  induction m as [|[k0 e0] m IH]; intros Hm k e Hin; simpl in Hin.
  - destruct Hin as [[= <- <-] | []]. reflexivity.
  - destruct (decide (k0 = item_id it)) as [Hk|Hk].
    + destruct Hin as [[= <- <-] | Hin]; [simpl; apply Hm; left; reflexivity|].
      apply Hm. right. exact Hin.
    + destruct Hin as [[= <- <-] | Hin]; [apply Hm; left; reflexivity|].
      apply IH; [|exact Hin]. intros k' e' H'. apply Hm. right. exact H'.
Qed.

Lemma group_keys items k : In k (map fst (groupInventory items)) <-> holds k items.
Proof.
  unfold groupInventory, holds.
  assert (H : forall l m, In k (map fst (fold_left add_count l m))
                          <-> In k (map fst m) \/ In k (map item_id l)).
  { induction l as [|it l IH]; intros m; simpl; [tauto|].
    rewrite IH, add_count_keys.
    destruct (JsMap.has m (item_id it)) eqn:Hhas.
    - split; [tauto|]. intros [H | [H | H]]; auto.
      left. subst k. unfold JsMap.has in Hhas.
      destruct (JsMap.get m (item_id it)) eqn:Hg; [|discriminate].
      apply get_some_in in Hg. apply (in_map fst) in Hg. exact Hg.
    - rewrite in_app_iff. simpl. tauto. }
  rewrite H. simpl. tauto.
Qed.

Lemma group_entry_id items k e : In (k, e) (groupInventory items) -> item_id e = k.
Proof.
  revert k e. unfold groupInventory.
  apply (fold_left_inv (fun m => forall k e, In (k, e) m -> item_id e = k)).
  - intros k e [].
  - intros m it _ Hm. apply add_count_entry_ids. exact Hm.
Qed.

Lemma group_entry items k e :
  In (k, e) (groupInventory items) ->
  item_id e = k /\ holds k items /\ item_count e = stack_total k items
  /\ JsMap.get (groupInventory items) k = Some e.
Proof.
  intros Hin.
  assert (Hget : JsMap.get (groupInventory items) k = Some e)
    by (apply get_in_nodup; [apply groupInventory_nodup | exact Hin]).
  split; [|split; [|split]].
  - apply (group_entry_id items). exact Hin.
  - apply group_keys. apply (in_map fst) in Hin. exact Hin.
  - pose proof (groupInventory_sums items k) as Hs. unfold grouped_count in Hs.
    rewrite Hget in Hs. exact Hs.
  - exact Hget.
Qed.

Lemma group_absent items k :
  JsMap.get (groupInventory items) k = None <-> ~ holds k items.
Proof. rewrite get_none_keys, group_keys. reflexivity. Qed.

(** The two loops, as lists of what they push. *)
Lemma gained_fold B l d :
  d_inventory (fold_left (gained_step B) l d)
  = mkInventoryDiff
      (gained (d_inventory d)
       ++ flat_map (fun '(id, item) =>
                      match JsMap.get B id with None => [item] | Some _ => [] end) l)
      (lost (d_inventory d))
      (changed (d_inventory d)
       ++ flat_map (fun '(id, item) =>
                      match JsMap.get B id with
                      | Some bi =>
                          if item_count item >? item_count bi
                          then [mkChanged (item_name item) (item_count item)
                                  (item_id item) (item_count bi) (item_count item)]
                          else []
                      | None => []
                      end) l).
Proof.
  revert d. induction l as [|[id item] l IH]; intros d; simpl.
  - rewrite !app_nil_r. destruct (d_inventory d); reflexivity.
  - rewrite IH. unfold gained_step, push_gained, push_changed.
    destruct (JsMap.get B id) as [bi|]; simpl.
    + destruct (item_count item >? item_count bi); simpl;
        rewrite ?app_nil_r, <- ?app_assoc; reflexivity.
    + rewrite <- app_assoc. reflexivity.
Qed.

Lemma lost_fold A l d :
  NoDup (map fst l) ->
  (forall id item, In (id, item) l -> item_id item = id) ->
  (forall id item ai c,
      In (id, item) l -> JsMap.get A id = Some ai ->
      item_count ai < item_count item -> In c (changed (d_inventory d)) ->
      ch_id c <> id) ->
  d_inventory (fold_left (lost_step A) l d)
  = mkInventoryDiff
      (gained (d_inventory d))
      (lost (d_inventory d)
       ++ flat_map (fun '(id, item) =>
                      match JsMap.get A id with None => [item] | Some _ => [] end) l)
      (changed (d_inventory d)
       ++ flat_map (fun '(id, item) =>
                      match JsMap.get A id with
                      | Some ai =>
                          if item_count ai <? item_count item
                          then [mkChanged (item_name item) (item_count item)
                                  (item_id item) (item_count item) (item_count ai)]
                          else []
                      | None => []
                      end) l).
Proof.
  revert d. induction l as [|[id item] l IH]; intros d Hnd Hid Hfresh;
    cbn [fold_left flat_map].
  - rewrite !app_nil_r. destruct (d_inventory d); reflexivity.
  - simpl in Hnd. apply NoDup_cons in Hnd as [Hnotin Hnd].
    assert (Hnotin' : ~ In id (map fst l))
      by (intros H; apply Hnotin; apply list_elem_of_In; exact H).
    assert (Hstep :
      d_inventory (lost_step A d (id, item))
      = mkInventoryDiff (gained (d_inventory d))
          (lost (d_inventory d)
           ++ match JsMap.get A id with None => [item] | Some _ => [] end)
          (changed (d_inventory d)
           ++ match JsMap.get A id with
              | Some ai =>
                  if item_count ai <? item_count item
                  then [mkChanged (item_name item) (item_count item)
                          (item_id item) (item_count item) (item_count ai)]
                  else []
              | None => []
              end)).
    { unfold lost_step, push_lost, push_changed.
      destruct (JsMap.get A id) as [ai|] eqn:Hget; simpl.
      - destruct (item_count ai <? item_count item) eqn:Hlt; simpl.
        + apply Z.ltb_lt in Hlt.
          destruct (find_first (fun c => ch_id c =? id) (changed (d_inventory d)))
            as [c|] eqn:Hfind; simpl.
          * exfalso.
            assert (Hc : In c (changed (d_inventory d)) /\ ch_id c = id).
            { clear -Hfind. induction (changed (d_inventory d)) as [|x xs IHx];
                [discriminate|]. simpl in Hfind.
              destruct (ch_id x =? id) eqn:E.
              - injection Hfind as <-. apply Z.eqb_eq in E. split; [left; reflexivity | exact E].
              - destruct (IHx Hfind) as [H1 H2]. split; [right; exact H1 | exact H2]. }
            destruct Hc as [Hc1 Hc2].
            exact (Hfresh id item ai c (or_introl eq_refl) Hget Hlt Hc1 Hc2).
          * rewrite app_nil_r. reflexivity.
        + rewrite !app_nil_r. destruct (d_inventory d); reflexivity.
      - rewrite app_nil_r. reflexivity. }
    rewrite IH; [| exact Hnd | intros; apply Hid; right; assumption |].
    + rewrite Hstep. simpl. rewrite <- !app_assoc. reflexivity.
    + intros id' item' ai' c Hin' Hget' Hlt' Hc. rewrite Hstep in Hc. simpl in Hc.
      apply in_app_or in Hc as [Hc | Hc].
      * apply (Hfresh id' item' ai' c); [right; exact Hin' | assumption..].
      * assert (Hne : id' <> id).
        { intros ->. apply Hnotin'. apply (in_map fst) in Hin'. exact Hin'. }
        destruct (JsMap.get A id) as [ai|]; [|destruct Hc].
        destruct (item_count ai <? item_count item); [|destruct Hc].
        destruct Hc as [<- | []]. simpl.
        rewrite (Hid id item (or_introl eq_refl)). congruence.
Qed.

Lemma diffInventory_entries b a d :
  d_inventory d = mkInventoryDiff [] [] [] ->
  let B := groupInventory (inventory b) in
  let A := groupInventory (inventory a) in
  d_inventory (diffInventory b a d)
  = mkInventoryDiff
      (flat_map (fun '(id, item) =>
                   match JsMap.get B id with None => [item] | Some _ => [] end) A)
      (flat_map (fun '(id, item) =>
                   match JsMap.get A id with None => [item] | Some _ => [] end) B)
      (flat_map (fun '(id, item) =>
                   match JsMap.get B id with
                   | Some bi =>
                       if item_count item >? item_count bi
                       then [mkChanged (item_name item) (item_count item)
                               (item_id item) (item_count bi) (item_count item)]
                       else []
                   | None => []
                   end) A
       ++ flat_map (fun '(id, item) =>
                      match JsMap.get A id with
                      | Some ai =>
                          if item_count ai <? item_count item
                          then [mkChanged (item_name item) (item_count item)
                                  (item_id item) (item_count item) (item_count ai)]
                          else []
                      | None => []
                      end) B).
Proof.
  intros Hd B A. unfold diffInventory. fold B A.
  pose proof (gained_fold B A d) as Hg. rewrite Hd in Hg. simpl in Hg.
  rewrite lost_fold.
  - rewrite Hg. reflexivity.
  - apply groupInventory_nodup.
  - intros id item Hin. apply (group_entry_id (inventory b)). exact Hin.
  - intros id item ai c Hin Hget Hlt Hc Hcid. rewrite Hg in Hc. simpl in Hc.
    apply in_flat_map in Hc as ([id' item'] & Hin' & Hc).
    destruct (JsMap.get B id') as [bi|] eqn:Hb; [|destruct Hc].
    destruct (item_count item' >? item_count bi) eqn:Hgt; [|destruct Hc].
    destruct Hc as [<- | []]. simpl in Hcid. apply Z.gtb_lt in Hgt.
    destruct (group_entry (inventory a) id' item' Hin') as (Hid' & _ & _ & Hget').
    assert (id' = id) by congruence. subst id'.
    destruct (group_entry (inventory b) id item Hin) as (_ & _ & _ & Hget'').
    fold A in Hget'. fold B in Hget''.
    assert (ai = item') by congruence. assert (bi = item) by congruence.
    subst. lia.
Qed.

(** The summary lines of the two loops. *)
Lemma grows_in d d' line : grows d d' -> In line (summary d) -> In line (summary d').
Proof. intros [k ->] H. apply in_or_app. left. exact H. Qed.

Lemma gained_fold_grows B l d : grows d (fold_left (gained_step B) l d).
Proof.
  apply (fold_left_inv (grows d)); [apply grows_refl|].
  intros d' [id item] _ H. unfold_steps. step_cases; auto with diff.
Qed.

Lemma lost_fold_grows A l d : grows d (fold_left (lost_step A) l d).
Proof.
  apply (fold_left_inv (grows d)); [apply grows_refl|].
  intros d' [id item] _ H. unfold_steps. step_cases; auto with diff.
Qed.

Lemma gained_line B l id item bi :
  In (id, item) l -> JsMap.get B id = Some bi ->
  item_count bi < item_count item ->
  forall d,
    In ("+" ++ show (item_count item - item_count bi) ++ " " ++ item_name item)%string
       (summary (fold_left (gained_step B) l d)).
Proof.
  intros Hin Hget Hlt. induction l as [|x l IH]; intros d; [destruct Hin|].
  destruct Hin as [-> | Hin]; [|apply IH; exact Hin].
  cbn [fold_left]. eapply grows_in; [apply gained_fold_grows|].
  unfold gained_step. rewrite Hget.
  replace (item_count item >? item_count bi) with true
    by (symmetry; apply Z.gtb_lt; lia).
  simpl. apply in_or_app. right. left. reflexivity.
Qed.

Lemma lost_line A l id item ai :
  In (id, item) l -> JsMap.get A id = Some ai ->
  item_count ai < item_count item ->
  forall d,
    In ("-" ++ show (item_count item - item_count ai) ++ " " ++ item_name item)%string
       (summary (fold_left (lost_step A) l d)).
Proof.
  intros Hin Hget Hlt. induction l as [|x l IH]; intros d; [destruct Hin|].
  destruct Hin as [-> | Hin]; [|apply IH; exact Hin].
  cbn [fold_left]. eapply grows_in; [apply lost_fold_grows|].
  unfold lost_step. rewrite Hget.
  replace (item_count ai <? item_count item) with true
    by (symmetry; apply Z.ltb_lt; lia).
  simpl. apply in_or_app. right. left. reflexivity.
Qed.

(** C6.  Stacks of one item identity are merged by summing their counts
    before the comparison.  For an identity that both inventories
    hold, in any number of stacks, the two grouped inventories hold one
    entry each, whose counts are the sums [tb] and [ta] of the stacks of
    that identity before and after.  The identity is recorded neither
    as a fresh gain nor as a loss.  When [tb < ta] the diff records
    the change from [tb] to [ta] and the summary has the line of the
    net gain [ta - tb]; when [ta < tb] it records the change and the
    line of the net loss [tb - ta]; and these are the only entries the
    list of changes has for that identity, so that equal sums leave no
    entry.  With two stacks of identity 995 holding 100 and 50 before
    and one stack of 200 after, the recorded gain is 50: see the
    witness. *)
Theorem inventory_merge_sums (b a : BotWorldState) (id : Z) :
  holds id (inventory b) -> holds id (inventory a) ->
  let diff := computeStateDiff b a in
  let tb := stack_total id (inventory b) in
  let ta := stack_total id (inventory a) in
  exists eb ea,
    JsMap.get (groupInventory (inventory b)) id = Some eb
    /\ JsMap.get (groupInventory (inventory a)) id = Some ea
    /\ item_count eb = tb /\ item_count ea = ta
    /\ (forall g, In g (gained (d_inventory diff)) -> item_id g <> id)
    /\ (forall l, In l (lost (d_inventory diff)) -> item_id l <> id)
    /\ (forall c, In c (changed (d_inventory diff)) -> ch_id c = id ->
          (tb < ta /\ c = mkChanged (item_name ea) ta id tb ta)
          \/ (ta < tb /\ c = mkChanged (item_name eb) tb id tb ta))
    /\ (tb < ta ->
        In (mkChanged (item_name ea) ta id tb ta) (changed (d_inventory diff))
        /\ In ("+" ++ show (ta - tb) ++ " " ++ item_name ea)%string (summary diff))
    /\ (ta < tb ->
        In (mkChanged (item_name eb) tb id tb ta) (changed (d_inventory diff))
        /\ In ("-" ++ show (tb - ta) ++ " " ++ item_name eb)%string (summary diff)).
Proof.
  intros Hb Ha diff tb ta. subst diff.
  set (B := groupInventory (inventory b)). set (A := groupInventory (inventory a)).
  destruct (JsMap.get B id) as [eb|] eqn:Hgb;
    [|apply group_absent in Hgb; contradiction].
  destruct (JsMap.get A id) as [ea|] eqn:Hga;
    [|apply group_absent in Hga; contradiction].
  pose proof (get_some_in _ _ _ Hgb) as Hinb.
  pose proof (get_some_in _ _ _ Hga) as Hina.
  destruct (group_entry (inventory b) id eb Hinb) as (Hidb & _ & Hcb & _).
  destruct (group_entry (inventory a) id ea Hina) as (Hida & _ & Hca & _).
  fold tb in Hcb. fold ta in Hca.
  exists eb, ea. split; [reflexivity|]. split; [reflexivity|].
  split; [exact Hcb|]. split; [exact Hca|].
  rewrite computeStateDiff_inventory.
  rewrite (diffInventory_entries b a (initDiff b a) eq_refl). cbv zeta.
  fold B A. cbn [gained lost changed].
  split_and!.
  - intros g Hg Hgid. apply in_flat_map in Hg as ([id' item] & Hin & Hg).
    destruct (JsMap.get B id') eqn:E; [destruct Hg|]. destruct Hg as [<- | []].
    destruct (group_entry (inventory a) id' item Hin) as (Hid' & _).
    fold B in E. congruence.
  - intros l Hl Hlid. apply in_flat_map in Hl as ([id' item] & Hin & Hl).
    destruct (JsMap.get A id') eqn:E; [destruct Hl|]. destruct Hl as [<- | []].
    destruct (group_entry (inventory b) id' item Hin) as (Hid' & _).
    fold A in E. congruence.
  - intros c Hc Hcid. apply in_app_or in Hc as [Hc | Hc];
      apply in_flat_map in Hc as ([id' item] & Hin & Hc).
    + destruct (JsMap.get B id') as [bi|] eqn:E; [|destruct Hc].
      destruct (item_count item >? item_count bi) eqn:Hgt; [|destruct Hc].
      destruct Hc as [<- | []]. cbn [ch_id] in Hcid. apply Z.gtb_lt in Hgt.
      destruct (group_entry (inventory a) id' item Hin) as (Hid' & _ & _ & Hget).
      fold A in Hget.
      assert (id' = id) by congruence. subst id'.
      assert (item = ea) by congruence. assert (bi = eb) by congruence. subst.
      left. split; [lia|]. f_equal; congruence.
    + destruct (JsMap.get A id') as [ai|] eqn:E; [|destruct Hc].
      destruct (item_count ai <? item_count item) eqn:Hlt; [|destruct Hc].
      destruct Hc as [<- | []]. cbn [ch_id] in Hcid. apply Z.ltb_lt in Hlt.
      destruct (group_entry (inventory b) id' item Hin) as (Hid' & _ & _ & Hget).
      fold B in Hget.
      assert (id' = id) by congruence. subst id'.
      assert (item = eb) by congruence. assert (ai = ea) by congruence. subst.
      right. split; [lia|]. f_equal; congruence.
  - intros Hlt. split.
    + apply in_or_app. left. apply in_flat_map. exists (id, ea).
      split; [exact Hina|]. rewrite Hgb.
      replace (item_count ea >? item_count eb) with true
        by (symmetry; apply Z.gtb_lt; lia).
      left. rewrite Hida, Hcb, Hca. reflexivity.
    + destruct (summary_after_inventory b a) as [more ->].
      apply in_or_app. left. unfold diffInventory. fold B A.
      eapply grows_in; [apply lost_fold_grows|].
      rewrite <- Hcb, <- Hca. apply (gained_line B A id ea eb Hina Hgb). lia.
  - intros Hlt. split.
    + apply in_or_app. right. apply in_flat_map. exists (id, eb).
      split; [exact Hinb|]. rewrite Hga.
      replace (item_count ea <? item_count eb) with true
        by (symmetry; apply Z.ltb_lt; lia).
      left. rewrite Hidb, Hcb, Hca. reflexivity.
    + destruct (summary_after_inventory b a) as [more ->].
      apply in_or_app. left. unfold diffInventory. fold B A.
      rewrite <- Hcb, <- Hca. apply (lost_line A B id eb ea Hinb Hga). lia.
Qed.

Lemma inventory_merge_sums_witness :
  let b := mkWorld 10 [mkItem "Coins" 100 995; mkItem "Coins" 50 995] [] None None
             false None None [] None in
  let a := mkWorld 12 [mkItem "Coins" 200 995] [] None None false None None [] None in
  let diff := computeStateDiff b a in
  (stack_total 995 (inventory b) = 150 /\ stack_total 995 (inventory a) = 200)
  /\ (In (mkChanged "Coins" 200 995 150 200) (changed (d_inventory diff))
      /\ In "+50 Coins" (summary diff))
  /\ (gained (d_inventory diff) = [] /\ lost (d_inventory diff) = []
      /\ changed (d_inventory diff) = [mkChanged "Coins" 200 995 150 200]
      /\ summary diff = ["+50 Coins"]).
Proof.
  intros b a diff.
  destruct (inventory_merge_sums b a 995
              ltac:(left; reflexivity) ltac:(left; reflexivity))
    as (eb & ea & _ & Hga & _ & _ & _ & _ & _ & Hgain & _).
  vm_compute in Hga. injection Hga as <-.
  split; [split; reflexivity|].
  split; [exact (Hgain ltac:(vm_compute; reflexivity))|].
  split_and!; reflexivity.
Defined.

(** X5.  What the inventory entries of a diff mean, with the stacks of
    each identity summed on both sides.  A gained entry is an identity
    that only the "after" inventory holds, with its total count there; a
    lost entry is an identity that only the "before" inventory holds,
    with its total count there; a changed entry is an identity both
    hold, with its two totals as before and after, and the two differ
    (its count is the larger of them).  Conversely every identity held
    on one side only, or held on both sides with different totals, has
    its entry; an identity whose total is the same on both sides has
    none. *)
Theorem inventory_entries_meaning (b a : BotWorldState) :
  let inv := d_inventory (computeStateDiff b a) in
  (forall g, In g (gained inv) ->
     holds (item_id g) (inventory a) /\ ~ holds (item_id g) (inventory b)
     /\ item_count g = stack_total (item_id g) (inventory a))
  /\ (forall l, In l (lost inv) ->
        holds (item_id l) (inventory b) /\ ~ holds (item_id l) (inventory a)
        /\ item_count l = stack_total (item_id l) (inventory b))
  /\ (forall c, In c (changed inv) ->
        holds (ch_id c) (inventory b) /\ holds (ch_id c) (inventory a)
        /\ ch_before c = stack_total (ch_id c) (inventory b)
        /\ ch_after c = stack_total (ch_id c) (inventory a)
        /\ ch_before c <> ch_after c
        /\ ch_count c = Z.max (ch_before c) (ch_after c))
  /\ (forall id, holds id (inventory a) -> ~ holds id (inventory b) ->
        exists g, In g (gained inv) /\ item_id g = id)
  /\ (forall id, holds id (inventory b) -> ~ holds id (inventory a) ->
        exists l, In l (lost inv) /\ item_id l = id)
  /\ (forall id, holds id (inventory b) -> holds id (inventory a) ->
        stack_total id (inventory b) <> stack_total id (inventory a) ->
        exists c, In c (changed inv) /\ ch_id c = id).
Proof.
  cbv zeta. rewrite computeStateDiff_inventory.
  rewrite (diffInventory_entries b a (initDiff b a) eq_refl). cbv zeta. simpl.
  set (B := groupInventory (inventory b)). set (A := groupInventory (inventory a)).
  assert (HA : forall id item, In (id, item) A ->
             item_id item = id /\ holds id (inventory a)
             /\ item_count item = stack_total id (inventory a)
             /\ JsMap.get A id = Some item)
    by (intros id item; apply group_entry).
  assert (HB : forall id item, In (id, item) B ->
             item_id item = id /\ holds id (inventory b)
             /\ item_count item = stack_total id (inventory b)
             /\ JsMap.get B id = Some item)
    by (intros id item; apply group_entry).
  assert (HAn : forall id, JsMap.get A id = None <-> ~ holds id (inventory a))
    by (intros id; apply group_absent).
  assert (HBn : forall id, JsMap.get B id = None <-> ~ holds id (inventory b))
    by (intros id; apply group_absent).
  assert (HAs : forall id, holds id (inventory a) ->
             exists item, In (id, item) A).
  { intros id H. destruct (JsMap.get A id) as [item|] eqn:E.
    - exists item. apply get_some_in. exact E.
    - apply HAn in E. contradiction. }
  assert (HBs : forall id, holds id (inventory b) ->
             exists item, In (id, item) B).
  { intros id H. destruct (JsMap.get B id) as [item|] eqn:E.
    - exists item. apply get_some_in. exact E.
    - apply HBn in E. contradiction. }
  split; [|split; [|split; [|split; [|split]]]].
  - intros g Hg. apply in_flat_map in Hg as ([id item] & Hin & Hg).
    destruct (JsMap.get B id) eqn:E; [destruct Hg|]. destruct Hg as [<- | []].
    destruct (HA id item Hin) as (-> & H1 & H2 & _). apply HBn in E. auto.
  - intros l Hl. apply in_flat_map in Hl as ([id item] & Hin & Hl).
    destruct (JsMap.get A id) eqn:E; [destruct Hl|]. destruct Hl as [<- | []].
    destruct (HB id item Hin) as (-> & H1 & H2 & _). apply HAn in E. auto.
  - intros c Hc. apply in_app_or in Hc as [Hc | Hc];
      apply in_flat_map in Hc as ([id item] & Hin & Hc).
    + destruct (JsMap.get B id) as [bi|] eqn:E; [|destruct Hc].
      destruct (item_count item >? item_count bi) eqn:Hgt; [|destruct Hc].
      destruct Hc as [<- | []]. simpl. apply Z.gtb_lt in Hgt.
      destruct (HA id item Hin) as (-> & H1 & H2 & _).
      apply get_some_in in E. destruct (HB _ bi E) as (_ & H3 & H4 & _).
      repeat split; try assumption; lia.
    + destruct (JsMap.get A id) as [ai|] eqn:E; [|destruct Hc].
      destruct (item_count ai <? item_count item) eqn:Hlt; [|destruct Hc].
      destruct Hc as [<- | []]. simpl. apply Z.ltb_lt in Hlt.
      destruct (HB id item Hin) as (-> & H1 & H2 & _).
      apply get_some_in in E. destruct (HA _ ai E) as (_ & H3 & H4 & _).
      repeat split; try assumption; lia.
  - intros id Ha Hb. destruct (HAs id Ha) as [item Hin].
    exists item. split; [|apply (HA id item Hin)].
    apply in_flat_map. exists (id, item). split; [exact Hin|].
    apply HBn in Hb. rewrite Hb. left. reflexivity.
  - intros id Hb Ha. destruct (HBs id Hb) as [item Hin].
    exists item. split; [|apply (HB id item Hin)].
    apply in_flat_map. exists (id, item). split; [exact Hin|].
    apply HAn in Ha. rewrite Ha. left. reflexivity.
  - intros id Hb Ha Hne.
    destruct (HAs id Ha) as [ai Hina]. destruct (HBs id Hb) as [bi Hinb].
    destruct (HA id ai Hina) as (Hida & _ & Hca & Hga).
    destruct (HB id bi Hinb) as (Hidb & _ & Hcb & Hgb).
    destruct (Z_lt_le_dec (item_count bi) (item_count ai)) as [Hlt | Hge].
    + exists (mkChanged (item_name ai) (item_count ai) (item_id ai)
                (item_count bi) (item_count ai)).
      split; [|exact Hida]. apply in_or_app. left.
      apply in_flat_map. exists (id, ai). split; [exact Hina|].
      rewrite Hgb. assert (H : (item_count ai >? item_count bi) = true)
        by (apply Z.gtb_lt; lia).
      rewrite H. left. reflexivity.
    + exists (mkChanged (item_name bi) (item_count bi) (item_id bi)
                (item_count bi) (item_count ai)).
      split; [|exact Hidb]. apply in_or_app. right.
      apply in_flat_map. exists (id, bi). split; [exact Hinb|].
      rewrite Hga. assert (H : (item_count ai <? item_count bi) = true)
        by (apply Z.ltb_lt; lia).
      rewrite H. left. reflexivity.
Qed.

(** ** Maps built by [set] in a loop *)

Section BuiltMaps.
Context {K V : Type} `{EqDecision K} (key : V -> K).

Let build (l : list V) (m : list (K * V)) : list (K * V) :=
  fold_left (fun m x => JsMap.set m (key x) x) l m.

Lemma set_keys (m : list (K * V)) (k : K) (v : V) :
  map fst (JsMap.set m k v)
  = if JsMap.has m k then map fst m else (map fst m ++ [k])%list.
Proof.
  unfold JsMap.has. induction m as [|[k' v'] m IH]; simpl; [reflexivity|].
  destruct (decide (k' = k)) as [->|]; simpl; [reflexivity|].
  rewrite IH. destruct (JsMap.get m k); reflexivity.
Qed.

Lemma has_in_keys (m : list (K * V)) (k : K) :
  JsMap.has m k = true <-> In k (map fst m).
Proof.
  unfold JsMap.has. destruct (JsMap.get m k) eqn:E.
  - split; [|reflexivity]. intros _. apply get_some_in in E.
    apply (in_map fst) in E. exact E.
  - split; [discriminate|]. intros H. apply get_none_keys in E. contradiction.
Qed.

Lemma built_nodup (l : list V) (m : list (K * V)) :
  NoDup (map fst m) -> NoDup (map fst (build l m)).
Proof.
  unfold build. intros Hm.
  apply (fold_left_inv (fun m => NoDup (map fst m))); [exact Hm|].
  intros m' x _ Hnd. rewrite set_keys.
  destruct (JsMap.has m' (key x)) eqn:Hhas; [exact Hnd|].
  apply NoDup_app. split; [exact Hnd|]. split; [|apply NoDup_singleton].
  intros k Hk Hk'. apply list_elem_of_In in Hk, Hk'. destruct Hk' as [<- | []].
  apply has_in_keys in Hk. congruence.
Qed.

Lemma built_has (l : list V) (m : list (K * V)) (k : K) :
  JsMap.has (build l m) k = true <-> In k (map key l) \/ JsMap.has m k = true.
Proof.
  unfold build. revert m. induction l as [|x l IH]; intros m; simpl; [tauto|].
  rewrite IH. rewrite !has_in_keys, set_keys.
  destruct (JsMap.has m (key x)) eqn:Hhas.
  - apply has_in_keys in Hhas. split; [tauto|].
    intros [[<- | H] | H]; auto.
  - rewrite in_app_iff. simpl. tauto.
Qed.

Lemma built_entry (l : list V) (m : list (K * V)) (k : K) (v : V) :
  (forall k v, In (k, v) m -> key v = k) ->
  In (k, v) (build l m) -> key v = k /\ (In v l \/ In (k, v) m).
Proof.
  unfold build. revert m. induction l as [|x l IH]; intros m Hm Hin; simpl in *.
  - split; [apply Hm; exact Hin | right; exact Hin].
  - assert (Hset : forall k' v', In (k', v') (JsMap.set m (key x) x) ->
               key v' = k' /\ (v' = x \/ In (k', v') m)).
    { clear -Hm. induction m as [|[k0 v0] m IHm]; intros k' v' H; simpl in H.
      - destruct H as [[= <- <-] | []]. auto.
      - destruct (decide (k0 = key x)).
        + destruct H as [[= <- <-] | H]; [auto|].
          split; [apply Hm; right; exact H | right; right; exact H].
        + destruct H as [[= <- <-] | H].
          * split; [apply Hm; left; reflexivity | right; left; reflexivity].
          * destruct (IHm (fun k v H' => Hm k v (or_intror H')) k' v' H) as [H1 H2].
            split; [exact H1|]. destruct H2; [left | right; right]; assumption. }
    destruct (IH (JsMap.set m (key x) x) (fun k' v' H => proj1 (Hset k' v' H)) Hin)
      as [Hk [Hv | Hv]].
    + split; [exact Hk | left; right; exact Hv].
    + split; [exact Hk|]. destruct (Hset k v Hv) as [_ [-> | H]];
        [left; left; reflexivity | right; exact H].
Qed.

Lemma built_get (l : list V) (m : list (K * V)) (x : V) :
  NoDup (map key l) -> In x l -> JsMap.get (build l m) (key x) = Some x.
Proof.
  unfold build. revert m. induction l as [|y l IH]; intros m Hnd Hin; [destruct Hin|].
  simpl in *. apply NoDup_cons in Hnd as [Hnotin Hnd].
  destruct Hin as [-> | Hin]; [|apply IH; assumption].
  assert (Hother : forall l' m', ~ In (key x) (map key l') ->
             JsMap.get (fold_left (fun m x => JsMap.set m (key x) x) l' m') (key x)
             = JsMap.get m' (key x)).
  { induction l' as [|z l' IH']; intros m' Hn; [reflexivity|]. simpl.
    rewrite IH'; [|intros H'; apply Hn; right; exact H'].
    apply get_set_ne. intros Heq. apply Hn. left. exact Heq. }
  rewrite Hother; [apply get_set_eq|].
  intros H'. apply Hnotin. apply list_elem_of_In. exact H'.
Qed.
End BuiltMaps.

(** ** Entities *)

Lemma buildNpcs_has_iff (l : list NearbyNpc) (k : Z) :
  JsMap.has (buildNpcs l) k = true <-> In k (map npc_index l).
Proof.
  pose proof (built_has npc_index l [] k) as H. cbv zeta in H.
  unfold buildNpcs. rewrite H. simpl. split; [intros [H' | H']; [exact H' | discriminate] | auto].
Qed.

Lemma buildNpcs_entry (l : list NearbyNpc) (k : Z) (n : NearbyNpc) :
  In (k, n) (buildNpcs l) -> npc_index n = k /\ In n l.
Proof.
  intros Hin.
  pose proof (built_entry npc_index l [] k n) as H. cbv zeta in H.
  destruct (H ltac:(intros k' v' []) Hin) as [Hk [Hv | []]]. auto.
Qed.

Lemma buildNpcs_in (l : list NearbyNpc) (n : NearbyNpc) :
  NoDup (map npc_index l) -> In n l -> In (npc_index n, n) (buildNpcs l).
Proof.
  intros Hnd Hin. apply get_some_in.
  pose proof (built_get npc_index l [] n Hnd Hin) as H. exact H.
Qed.

Lemma buildNpcs_nodup (l : list NearbyNpc) : NoDup (map fst (buildNpcs l)).
Proof.
  pose proof (built_nodup npc_index l []) as H. cbv zeta in H.
  apply H. constructor.
Qed.

Lemma appeared_fold Bn l d :
  d_npcs (fold_left (appeared_step Bn) l d)
  = mkNpcsDiff
      (appeared (d_npcs d)
       ++ flat_map (fun n => if JsMap.has Bn (npc_index n) then [] else [npc_ref n]) l)
      (disappeared (d_npcs d)) (died (d_npcs d)).
Proof.
  revert d. induction l as [|n l IH]; intros d; cbn [fold_left flat_map].
  - rewrite app_nil_r. destruct (d_npcs d); reflexivity.
  - rewrite IH. unfold appeared_step, push_appeared.
    destruct (JsMap.has Bn (npc_index n)); simpl;
      rewrite <- ?app_assoc; reflexivity.
Qed.

Lemma disappeared_fold An l d :
  d_npcs (fold_left (disappeared_step An) l d)
  = mkNpcsDiff (appeared (d_npcs d))
      (disappeared (d_npcs d)
       ++ flat_map (fun '(idx, n) =>
                      if JsMap.has An idx then [] else [mkNpcRef (npc_name n) idx]) l)
      (died (d_npcs d)
       ++ flat_map (fun '(idx, n) =>
                      if JsMap.has An idx then []
                      else if npc_inCombat n then [mkNpcRef (npc_name n) idx] else []) l).
Proof.
  revert d. induction l as [|[idx n] l IH]; intros d; cbn [fold_left flat_map].
  - rewrite !app_nil_r. destruct (d_npcs d); reflexivity.
  - rewrite IH. unfold disappeared_step, push_disappeared, push_died.
    destruct (JsMap.has An idx); simpl; [reflexivity|].
    destruct (npc_inCombat n); simpl; rewrite <- ?app_assoc, ?app_nil_r; reflexivity.
Qed.

Lemma disappeared_fold_line An l d idx n :
  In (idx, n) l -> JsMap.has An idx = false -> npc_inCombat n = true ->
  In (npc_name n ++ " died") (summary (fold_left (disappeared_step An) l d)).
Proof.
  revert d. induction l as [|[idx' n'] l IH]; intros d Hin Hhas Hc; [destruct Hin|].
  cbn [fold_left]. destruct Hin as [[= -> ->] | Hin]; [|apply IH; assumption].
  assert (Hhere : In (npc_name n ++ " died") (summary (disappeared_step An d (idx, n)))).
  { unfold disappeared_step. rewrite Hhas, Hc. simpl.
    apply in_or_app. right. left. reflexivity. }
  assert (Hgrow : grows (disappeared_step An d (idx, n))
                    (fold_left (disappeared_step An) l (disappeared_step An d (idx, n)))).
  { apply (fold_left_inv (grows (disappeared_step An d (idx, n)))); [apply grows_refl|].
    intros d' [i x] _ H. unfold_steps. step_cases; auto with diff. }
  destruct Hgrow as [more ->]. apply in_or_app. left. exact Hhere.
Qed.

Lemma npcs_entries b a :
  d_npcs (computeStateDiff b a)
  = mkNpcsDiff
      (flat_map (fun n => if JsMap.has (buildNpcs (nearbyNpcs b)) (npc_index n)
                          then [] else [npc_ref n]) (nearbyNpcs a))
      (flat_map (fun '(idx, n) =>
                   if JsMap.has (buildNpcs (nearbyNpcs a)) idx then []
                   else [mkNpcRef (npc_name n) idx]) (buildNpcs (nearbyNpcs b)))
      (flat_map (fun '(idx, n) =>
                   if JsMap.has (buildNpcs (nearbyNpcs a)) idx then []
                   else if npc_inCombat n then [mkNpcRef (npc_name n) idx] else [])
         (buildNpcs (nearbyNpcs b))).
Proof.
  rewrite computeStateDiff_npcs. unfold diffNpcs.
  rewrite disappeared_fold, appeared_fold. reflexivity.
Qed.

(** X6.  The death heuristic.  An entity of the "before" snapshot whose
    index no entity of the "after" snapshot carries is listed as
    disappeared; if it was in combat it is also listed as died and the
    summary says so, and if it was not in combat nothing with its index
    is listed as died.  (Entities are told apart by index; the "before"
    snapshot lists each index once.) *)
Theorem death_heuristic (b a : BotWorldState) (n : NearbyNpc) :
  NoDup (map npc_index (nearbyNpcs b)) ->
  In n (nearbyNpcs b) ->
  ~ In (npc_index n) (map npc_index (nearbyNpcs a)) ->
  let diff := computeStateDiff b a in
  In (npc_ref n) (disappeared (d_npcs diff))
  /\ (npc_inCombat n = true ->
      In (npc_ref n) (died (d_npcs diff))
      /\ In (npc_name n ++ " died") (summary diff))
  /\ (npc_inCombat n = false ->
      forall r, In r (died (d_npcs diff)) -> ref_index r <> npc_index n).
Proof.
  intros Hnd Hin Hgone diff. subst diff. rewrite npcs_entries. simpl.
  pose proof (buildNpcs_in _ n Hnd Hin) as Hentry.
  assert (Hhas : JsMap.has (buildNpcs (nearbyNpcs a)) (npc_index n) = false).
  { destruct (JsMap.has (buildNpcs (nearbyNpcs a)) (npc_index n)) eqn:E;
      [|reflexivity]. apply buildNpcs_has_iff in E. contradiction. }
  split; [|split].
  - apply in_flat_map. exists (npc_index n, n). split; [exact Hentry|].
    rewrite Hhas. left. reflexivity.
  - intros Hc. split.
    + apply in_flat_map. exists (npc_index n, n). split; [exact Hentry|].
      rewrite Hhas, Hc. left. reflexivity.
    + unfold computeStateDiff. cbv zeta.
      match goal with
      | |- In _ (summary (diffMessages b a ?d)) =>
          destruct (diffMessages_keeps b a d) as [_ ->]
      end.
      unfold diffNpcs. apply (disappeared_fold_line _ _ _ (npc_index n) n);
        assumption.
  - intros Hc r Hr Hidx. apply in_flat_map in Hr as ([idx n'] & Hin' & Hr).
    destruct (JsMap.has (buildNpcs (nearbyNpcs a)) idx); [destruct Hr|].
    destruct (npc_inCombat n') eqn:Hc'; [|destruct Hr].
    destruct Hr as [<- | []]. simpl in Hidx. subst idx.
    pose proof (get_in_nodup _ _ _ (buildNpcs_nodup (nearbyNpcs b)) Hin') as H1.
    pose proof (get_in_nodup _ _ _ (buildNpcs_nodup (nearbyNpcs b)) Hentry) as H2.
    congruence.
Qed.

Lemma death_heuristic_witness :
  let b := mkWorld 10 [] [] None None false None None
             [mkNpc 1 "Rat" true; mkNpc 2 "Rat" false; mkNpc 3 "Cow" true] None in
  let a := mkWorld 12 [] [] None None false None None [mkNpc 3 "Cow" false] None in
  In (mkNpcRef "Rat" 1) (died (d_npcs (computeStateDiff b a)))
  /\ In (mkNpcRef "Rat" 2) (disappeared (d_npcs (computeStateDiff b a)))
  /\ In "Rat died" (summary (computeStateDiff b a)).
Proof.
  intros b a.
  assert (Hnd : NoDup (map npc_index (nearbyNpcs b)))
    by (apply (bool_decide_unpack _); vm_compute; exact I).
  assert (H1 : ~ In 1 (map npc_index (nearbyNpcs a)))
    by (intros [H | []]; discriminate H).
  assert (H2 : ~ In 2 (map npc_index (nearbyNpcs a)))
    by (intros [H | []]; discriminate H).
  pose proof (death_heuristic b a (mkNpc 1 "Rat" true) Hnd
                (or_introl eq_refl) H1) as (_ & Hdied & _).
  pose proof (death_heuristic b a (mkNpc 2 "Rat" false) Hnd
                (or_intror (or_introl eq_refl)) H2) as (Hdis & _).
  destruct (Hdied eq_refl) as [Hd Hline].
  split; [exact Hd|]. split; [exact Hdis | exact Hline].
Defined.

(** X7.  Entities are compared by index.  An entry appears exactly for
    the entities of the "after" snapshot whose index the "before"
    snapshot does not have; every disappeared entry has an index the
    "before" snapshot has and the "after" snapshot does not; every died
    entry is also a disappeared entry; so no index is both appeared and
    disappeared, and an entity present on both sides, whatever became of
    its name or combat flag, is in none of the three lists. *)
Theorem entities_by_index (b a : BotWorldState) :
  let npcs := d_npcs (computeStateDiff b a) in
  let before := map npc_index (nearbyNpcs b) in
  let after := map npc_index (nearbyNpcs a) in
  (forall r, In r (appeared npcs) <->
             exists n, In n (nearbyNpcs a) /\ r = npc_ref n
                       /\ ~ In (npc_index n) before)
  /\ (forall r, In r (disappeared npcs) ->
                In (ref_index r) before /\ ~ In (ref_index r) after)
  /\ (forall r, In r (died npcs) -> In r (disappeared npcs))
  /\ (forall r r', In r (appeared npcs) -> In r' (disappeared npcs) ->
                   ref_index r <> ref_index r')
  /\ (forall k, In k before -> In k after ->
        forall r, In r (appeared npcs) \/ In r (disappeared npcs) \/ In r (died npcs) ->
                  ref_index r <> k).
Proof.
  cbv zeta. rewrite npcs_entries. simpl.
  assert (Happ : forall r,
             In r (flat_map (fun n => if JsMap.has (buildNpcs (nearbyNpcs b)) (npc_index n)
                                      then [] else [npc_ref n]) (nearbyNpcs a))
             <-> exists n, In n (nearbyNpcs a) /\ r = npc_ref n
                           /\ ~ In (npc_index n) (map npc_index (nearbyNpcs b))).
  { intros r. rewrite in_flat_map. split.
    - intros (n & Hn & Hr).
      destruct (JsMap.has (buildNpcs (nearbyNpcs b)) (npc_index n)) eqn:E;
        [destruct Hr|]. destruct Hr as [<- | []].
      exists n. repeat split; [exact Hn|]. intros H.
      apply buildNpcs_has_iff in H. congruence.
    - intros (n & Hn & -> & Hnot). exists n. split; [exact Hn|].
      destruct (JsMap.has (buildNpcs (nearbyNpcs b)) (npc_index n)) eqn:E;
        [|left; reflexivity].
      apply buildNpcs_has_iff in E. contradiction. }
  assert (Hdis : forall r,
             In r (flat_map (fun '(idx, n) =>
                      if JsMap.has (buildNpcs (nearbyNpcs a)) idx then []
                      else [mkNpcRef (npc_name n) idx]) (buildNpcs (nearbyNpcs b))) ->
             In (ref_index r) (map npc_index (nearbyNpcs b))
             /\ ~ In (ref_index r) (map npc_index (nearbyNpcs a))).
  { intros r Hr. apply in_flat_map in Hr as ([idx n] & Hin & Hr).
    destruct (JsMap.has (buildNpcs (nearbyNpcs a)) idx) eqn:E; [destruct Hr|].
    destruct Hr as [<- | []]. simpl. split.
    - destruct (buildNpcs_entry _ _ _ Hin) as [<- Hn]. apply in_map. exact Hn.
    - intros H. apply buildNpcs_has_iff in H. congruence. }
  assert (Hdied : forall r,
             In r (flat_map (fun '(idx, n) =>
                      if JsMap.has (buildNpcs (nearbyNpcs a)) idx then []
                      else if npc_inCombat n then [mkNpcRef (npc_name n) idx] else [])
                     (buildNpcs (nearbyNpcs b))) ->
             In r (flat_map (fun '(idx, n) =>
                      if JsMap.has (buildNpcs (nearbyNpcs a)) idx then []
                      else [mkNpcRef (npc_name n) idx]) (buildNpcs (nearbyNpcs b)))).
  { intros r Hr. apply in_flat_map in Hr as ([idx n] & Hin & Hr).
    apply in_flat_map. exists (idx, n). split; [exact Hin|].
    destruct (JsMap.has (buildNpcs (nearbyNpcs a)) idx); [exact Hr|].
    destruct (npc_inCombat n); [exact Hr | destruct Hr]. }
  split; [exact Happ|]. split; [exact Hdis|]. split; [exact Hdied|]. split.
  - intros r r' Hr Hr' Heq. apply Happ in Hr as (n & Hn & -> & _).
    apply Hdis in Hr' as [_ Hr']. apply Hr'. rewrite <- Heq. simpl.
    apply in_map. exact Hn.
  - intros k Hb Ha r [Hr | [Hr | Hr]] Heq; subst k.
    + apply Happ in Hr as (n & _ & -> & Hnot). apply Hnot. exact Hb.
    + apply Hdis in Hr as [_ Hnot]. apply Hnot. exact Ha.
    + apply Hdied, Hdis in Hr as [_ Hnot]. apply Hnot. exact Ha.
Qed.

(** ** What an empty summary tells *)

Lemma grows_empty d d' : grows d d' -> summary d' = [] -> summary d = [].
Proof.
  intros [more H] H'. rewrite H' in H. symmetry in H.
  apply app_eq_nil in H as [H _]. exact H.
Qed.

Lemma push_not_empty line d : summary (push_summary line d) <> [].
Proof. simpl. intros H. apply app_eq_nil in H as [_ H]. discriminate H. Qed.

Ltac quiet_step :=
  unfold_steps; step_cases;
  try tauto;
  try (intros Hs; exfalso; simpl in Hs; apply app_eq_nil in Hs as [_ Hs];
       discriminate Hs).

Lemma diffInventory_quiet b a d :
  (summary d = [] -> d_inventory d = mkInventoryDiff [] [] []) ->
  summary (diffInventory b a d) = [] ->
  d_inventory (diffInventory b a d) = mkInventoryDiff [] [] [].
Proof.
  intros H0. unfold diffInventory.
  apply (fold_left_inv
    (fun d' => summary d' = [] -> d_inventory d' = mkInventoryDiff [] [] [])).
  - apply (fold_left_inv
      (fun d' => summary d' = [] -> d_inventory d' = mkInventoryDiff [] [] [])).
    + exact H0.
    + intros d' [id item] _ H. quiet_step.
  - intros d' [id item] _ H. quiet_step.
Qed.

Lemma diffSkills_quiet b a d :
  (summary d = [] -> d_xpGained d = []) ->
  summary (diffSkills b a d) = [] -> d_xpGained (diffSkills b a d) = [].
Proof.
  intros H0. unfold diffSkills.
  apply (fold_left_inv (fun d' => summary d' = [] -> d_xpGained d' = [])).
  - exact H0.
  - intros d' s _ H. quiet_step.
Qed.

Lemma diffNpcs_quiet b a d :
  (summary d = [] -> died (d_npcs d) = []) ->
  summary (diffNpcs b a d) = [] -> died (d_npcs (diffNpcs b a d)) = [].
Proof.
  intros H0. unfold diffNpcs.
  apply (fold_left_inv (fun d' => summary d' = [] -> died (d_npcs d') = [])).
  - apply (fold_left_inv (fun d' => summary d' = [] -> died (d_npcs d') = [])).
    + exact H0.
    + intros d' n _ H. quiet_step.
  - intros d' [idx n] _ H. quiet_step.
Qed.

Lemma diffCombat_quiet b a d :
  summary (diffCombat b a d) = [] ->
  damageTaken (d_combat (diffCombat b a d)) <= 0
  /\ damageDealt (d_combat (diffCombat b a d)) <= 0
  /\ kills (d_combat (diffCombat b a d)) <= 0.
Proof.
  unfold diffCombat. cbv zeta.
  set (c2 := match combatEvents a with
             | Some evts => _
             | None => _
             end).
  unfold push_if.
  destruct (damageTaken c2 >? 0) eqn:H1, (damageDealt c2 >? 0) eqn:H2,
    (kills c2 >? 0) eqn:H3; simpl; intros Hs;
    try (exfalso; apply app_eq_nil in Hs as [_ Hs]; discriminate Hs).
  rewrite Z.gtb_ltb in H1, H2, H3. apply Z.ltb_ge in H1, H2, H3. auto.
Qed.

Lemma diffUi_quiet b a d :
  summary (diffUi b a d) = [] ->
  dialogOpened (d_ui (diffUi b a d)) = false
  /\ dialogClosed (d_ui (diffUi b a d)) = false
  /\ shopOpened (d_ui (diffUi b a d)) = false
  /\ shopClosed (d_ui (diffUi b a d)) = false.
Proof.
  unfold diffUi, push_if. cbv zeta. simpl.
  destruct (negb (dialog_isOpen b) && dialog_isOpen a),
    (dialog_isOpen b && negb (dialog_isOpen a)),
    (negb (shop_open b) && shop_open a), (shop_open b && negb (shop_open a));
    simpl; intros Hs;
    try (exfalso; apply app_eq_nil in Hs as [_ Hs]; discriminate Hs); auto.
Qed.

(** X8.  Every change the differ records about the inventory, the
    skills, damage and kills, the dialog, the shop and deaths leaves a
    line in the summary: when the summary of a diff is empty there is no
    gained, lost or changed inventory entry, no xpGained entry, no
    positive damage taken or dealt, no kill, no dialog or shop
    transition, no died entity, and the player moved by a distance
    below 5 if at all.  (Interface transitions, arrivals and departures of
    entities, the health change, short moves and new messages leave no
    line.) *)
Theorem empty_summary_means (b a : BotWorldState) :
  summary (computeStateDiff b a) = [] ->
  let diff := computeStateDiff b a in
  d_inventory diff = mkInventoryDiff [] [] []
  /\ d_xpGained diff = []
  /\ damageTaken (d_combat diff) <= 0
  /\ damageDealt (d_combat diff) <= 0
  /\ kills (d_combat diff) <= 0
  /\ dialogOpened (d_ui diff) = false /\ dialogClosed (d_ui diff) = false
  /\ shopOpened (d_ui diff) = false /\ shopClosed (d_ui diff) = false
  /\ died (d_npcs diff) = []
  /\ (forall pb pa, player b = Some pb -> player a = Some pa -> dist2 pb pa < 25).
Proof.
  intros Hs diff. subst diff.
  set (d1 := initDiff b a).
  set (d2 := diffInventory b a d1). set (d3 := diffSkills b a d2).
  set (d4 := diffCombat b a d3). set (d5 := diffPosition b a d4).
  set (d6 := diffUi b a d5). set (d7 := diffNpcs b a d6).
  assert (Hfinal : computeStateDiff b a = diffMessages b a d7) by reflexivity.
  destruct (diffMessages_keeps b a d7) as [_ Hm].
  assert (H7 : summary d7 = []) by (rewrite <- Hm, <- Hfinal; exact Hs).
  assert (H6 : summary d6 = []) by (apply (grows_empty _ _ (diffNpcs_grows b a d6) H7)).
  assert (H5 : summary d5 = []) by (apply (grows_empty _ _ (diffUi_grows b a d5) H6)).
  assert (H4 : summary d4 = [])
    by (apply (grows_empty _ _ (diffPosition_grows b a d4) H5)).
  assert (H3 : summary d3 = []) by (apply (grows_empty _ _ (diffCombat_grows b a d3) H4)).
  assert (H2 : summary d2 = []) by (apply (grows_empty _ _ (diffSkills_grows b a d2) H3)).
  split; [|split; [|split; [|split; [|split; [|split; [|split; [|split; [|split; [|split]]]]]]]]].
  - rewrite computeStateDiff_inventory. fold d1 d2.
    apply diffInventory_quiet; [reflexivity | exact H2].
  - rewrite computeStateDiff_xpGained. fold d1 d2 d3.
    apply diffSkills_quiet; [|exact H3].
    intros _. subst d2. destruct (diffInventory_keeps b a d1) as [-> _]. reflexivity.
  - rewrite Hfinal. destruct (diffMessages_rest b a d7) as (_ & -> & _).
    subst d7. destruct (diffNpcs_rest b a d6) as (_ & -> & _).
    subst d6. destruct (diffUi_rest b a d5) as (_ & -> & _).
    subst d5. destruct (diffPosition_rest b a d4) as (_ & -> & _).
    apply (diffCombat_quiet b a d3 H4).
  - rewrite Hfinal. destruct (diffMessages_rest b a d7) as (_ & -> & _).
    subst d7. destruct (diffNpcs_rest b a d6) as (_ & -> & _).
    subst d6. destruct (diffUi_rest b a d5) as (_ & -> & _).
    subst d5. destruct (diffPosition_rest b a d4) as (_ & -> & _).
    apply (diffCombat_quiet b a d3 H4).
  - rewrite Hfinal. destruct (diffMessages_rest b a d7) as (_ & -> & _).
    subst d7. destruct (diffNpcs_rest b a d6) as (_ & -> & _).
    subst d6. destruct (diffUi_rest b a d5) as (_ & -> & _).
    subst d5. destruct (diffPosition_rest b a d4) as (_ & -> & _).
    apply (diffCombat_quiet b a d3 H4).
  - rewrite Hfinal. destruct (diffMessages_rest b a d7) as (_ & _ & -> & _).
    subst d7. destruct (diffNpcs_rest b a d6) as (_ & _ & -> & _).
    apply (diffUi_quiet b a d5 H6).
  - rewrite Hfinal. destruct (diffMessages_rest b a d7) as (_ & _ & -> & _).
    subst d7. destruct (diffNpcs_rest b a d6) as (_ & _ & -> & _).
    apply (diffUi_quiet b a d5 H6).
  - rewrite Hfinal. destruct (diffMessages_rest b a d7) as (_ & _ & -> & _).
    subst d7. destruct (diffNpcs_rest b a d6) as (_ & _ & -> & _).
    apply (diffUi_quiet b a d5 H6).
  - rewrite Hfinal. destruct (diffMessages_rest b a d7) as (_ & _ & -> & _).
    subst d7. destruct (diffNpcs_rest b a d6) as (_ & _ & -> & _).
    apply (diffUi_quiet b a d5 H6).
  - rewrite Hfinal. destruct (diffMessages_rest b a d7) as (_ & _ & _ & ->).
    apply diffNpcs_quiet; [|exact H7].
    intros _. subst d6.
    destruct (diffUi_rest b a d5) as (_ & _ & -> & _).
    subst d5. destruct (diffPosition_rest b a d4) as (_ & _ & _ & -> & _).
    subst d4. destruct (diffCombat_rest b a d3) as (_ & _ & -> & _).
    subst d3. destruct (diffSkills_rest b a d2) as (_ & _ & _ & -> & _).
    subst d2. destruct (diffInventory_rest b a d1) as (_ & _ & _ & -> & _).
    reflexivity.
  - intros pb pa Hb Ha. revert H5. subst d5.
    rewrite (diffPosition_spec b a d4 pb pa Hb Ha).
    destruct (dist2 pb pa >? 0) eqn:Hpos.
    + unfold push_if. destruct (dist2 pb pa >=? 25) eqn:Hge; simpl.
      * intros Hs5. exfalso. apply app_eq_nil in Hs5 as [_ Hs5]. discriminate Hs5.
      * intros _. rewrite Z.geb_leb in Hge. apply Z.leb_gt in Hge. exact Hge.
    + intros _. rewrite Z.gtb_ltb in Hpos. apply Z.ltb_ge in Hpos. lia.
Qed.

Lemma empty_summary_means_witness :
  let b := mkWorld 10 [] [mkSkill "Hitpoints" 1000 10 10] None
             (Some (mkPlayer 3200 3200)) false (Some false) None [] None in
  let a := mkWorld 12 [] [mkSkill "Hitpoints" 1000 7 10] None
             (Some (mkPlayer 3202 3201)) false (Some true) None [mkNpc 4 "Goblin" false]
             (Some [mkMessage 11 "Welcome"]) in
  summary (computeStateDiff b a) = []
  /\ d_xpGained (computeStateDiff b a) = []
  /\ interfaceOpened (d_ui (computeStateDiff b a)) = true
  /\ healthChange (d_combat (computeStateDiff b a)) = -3
  /\ moved (d_position (computeStateDiff b a)) = true
  /\ messages (computeStateDiff b a) = ["Welcome"].
Proof.
  intros b a.
  assert (Hs : summary (computeStateDiff b a) = []) by reflexivity.
  pose proof (empty_summary_means b a Hs) as (_ & Hxp & _).
  split; [exact Hs|]. split; [exact Hxp|]. repeat split.
Defined.

(** ** [formatStateDiff] *)

Lemma diff_same_snapshot (S : BotWorldState) :
  point_in_time S -> computeStateDiff S S = createEmptyDiff (tick S).
Proof.
  intros (Hskills & Hevents & Hmsgs). unfold computeStateDiff. cbv zeta.
  assert (H0 : initDiff S S = createEmptyDiff (tick S))
    by (unfold initDiff; cbv zeta; rewrite Z.sub_diag; reflexivity).
  rewrite H0, diffInventory_same, (diffSkills_same S _ Hskills).
  rewrite (diffCombat_same S _ Hevents), diffPosition_same, diffUi_same.
  rewrite diffNpcs_same. apply diffMessages_same. exact Hmsgs.
Qed.

Lemma concat_head (sep h : string) (t : list string) (c : ascii) :
  head_char h = Some c -> head_char (String.concat sep (h :: t)) = Some c.
Proof.
  intros H. destruct h as [|c' h]; [discriminate H|].
  destruct t; simpl in *; exact H.
Qed.

(** X9.  [formatStateDiff] answers "(no significant changes)" exactly
    when the summary of the diff is empty, whatever else the diff holds
    (its messages are then not shown); in particular it does for the
    diff of a point-in-time snapshot against itself.  Otherwise the text
    has a header line, one line per summary entry, and for a diff with
    messages a "Messages:" line followed by the last three messages at
    most. *)
Theorem formatStateDiff_shape (diff : StateDiff) :
  (formatStateDiff diff = "(no significant changes)" <-> summary diff = [])
  /\ (forall S, point_in_time S ->
        formatStateDiff (computeStateDiff S S) = "(no significant changes)")
  /\ (summary diff <> [] ->
      formatStateDiff diff = String.concat nl (formatStateDiff_lines diff))
  /\ length (formatStateDiff_lines diff)
     = (1 + length (summary diff)
        + match messages diff with
          | [] => 0
          | _ :: _ => 1 + Nat.min 3 (length (messages diff))
          end)%nat
  /\ (forall line, In line (formatStateDiff_lines diff) ->
        line = ("Changes over " ++ show (tick_elapsed (d_tick diff)) ++ " ticks:")%string
        \/ (exists item, In item (summary diff) /\ line = ("  - " ++ item)%string)
        \/ line = "Messages:"
        \/ (exists msg, In msg (slice_last 3 (messages diff))
                        /\ line = ("  > " ++ msg)%string)).
Proof.
  split; [|split; [|split; [|split]]].
  - unfold formatStateDiff. destruct (summary diff) as [|x xs]; [tauto|].
    split; [|discriminate]. intros H. exfalso.
    assert (Hh : head_char (String.concat nl (formatStateDiff_lines diff))
                 = Some "C"%char)
      by (unfold formatStateDiff_lines; cbv zeta; apply concat_head; reflexivity).
    rewrite H in Hh. discriminate Hh.
  - intros S HS. rewrite (diff_same_snapshot S HS). reflexivity.
  - unfold formatStateDiff. destruct (summary diff); [congruence | reflexivity].
  - unfold formatStateDiff_lines. cbv zeta. simpl.
    rewrite length_app, length_map.
    destruct (messages diff) as [|m ms] eqn:Hm; simpl; [lia|].
    rewrite length_map, slice_last_length. simpl. lia.
  - intros line Hin. unfold formatStateDiff_lines in Hin. cbv zeta in Hin.
    destruct Hin as [<- | Hin]; [left; reflexivity|].
    apply in_app_or in Hin as [Hin | Hin].
    + apply in_map_iff in Hin as (item & <- & Hitem). right. left. eauto.
    + destruct (messages diff) as [|m ms] eqn:Hm; [destruct Hin|].
      destruct Hin as [<- | Hin]; [right; right; left; reflexivity|].
      apply in_map_iff in Hin as (msg & <- & Hmsg). right. right. right. eauto.
Qed.

(** ** Formatting markers *)

Lemma span_word_app (s : list ascii) :
  let (w, r) := span_word s in
  s = (w ++ r)%list /\ Forall (fun c => is_word_char c = true) w.
Proof.
  induction s as [|c s IH]; simpl; [split; [reflexivity | constructor]|].
  destruct (is_word_char c) eqn:Hc; [|split; [reflexivity | constructor]].
  destruct (span_word s) as [w r]. destruct IH as [-> Hw].
  split; [reflexivity | constructor; assumption].
Qed.

Lemma match_marker_shorter (s rest : list ascii) :
  match_marker s = Some rest -> (length rest < length s)%nat.
Proof.
  unfold match_marker. pose proof (span_word_app s) as H.
  destruct (span_word s) as [w r]. destruct H as [-> _].
  destruct w as [|c w]; [discriminate|]. destruct r as [|c' r]; [discriminate|].
  destruct (is_at c'); [|discriminate]. intros [= <-].
  rewrite length_app. simpl. lia.
Qed.

Lemma strip_fuel_length (fuel : nat) (s : list ascii) :
  (length (strip_markers_fuel fuel s) <= length s)%nat.
Proof.
  revert s. induction fuel as [|fuel IH]; intros s; simpl; [lia|].
  destruct s as [|c r]; simpl; [lia|].
  destruct (is_at c).
  - destruct (match_marker r) as [rest|] eqn:Hm.
    + apply match_marker_shorter in Hm. specialize (IH rest). lia.
    + simpl. specialize (IH r). lia.
  - simpl. specialize (IH r). lia.
Qed.

Lemma strip_fuel_plain (fuel : nat) (s : list ascii) :
  Forall (fun c => is_at c = false) s -> strip_markers_fuel fuel s = s.
Proof.
  revert s. induction fuel as [|fuel IH]; intros s Hs; simpl; [reflexivity|].
  destruct Hs as [|c r Hc Hr]; [reflexivity|].
  rewrite Hc, (IH r Hr). reflexivity.
Qed.

Lemma string_list_length (s : string) :
  length (list_ascii_of_string s) = String.length s.
Proof. induction s as [|c s IH]; simpl; [reflexivity | rewrite IH; reflexivity]. Qed.

Lemma list_string_length (l : list ascii) :
  String.length (string_of_list_ascii l) = length l.
Proof. induction l as [|c l IH]; simpl; [reflexivity | rewrite IH; reflexivity]. Qed.

(** X10.  Stripping the [@word@] markers of a message never lengthens
    the text, and a text without the character [@] comes back
    unchanged. *)
Theorem strip_markers_safe (text : string) :
  (String.length (strip_markers text) <= String.length text)%nat
  /\ (Forall (fun c => c <> "@"%char) (list_ascii_of_string text) ->
      strip_markers text = text).
Proof.
  unfold strip_markers. cbv zeta. split.
  - rewrite list_string_length, <- string_list_length. apply strip_fuel_length.
  - intros H. rewrite strip_fuel_plain; [apply string_of_list_ascii_of_string|].
    eapply Forall_impl; [exact H|]. intros c Hc. simpl in *.
    unfold is_at. apply Nat.eqb_neq. intros Heq. apply Hc.
    rewrite <- (ascii_nat_embedding c), Heq. reflexivity.
Qed.

(* ===================================================================== *)
(** * Part VI. Further properties of the task context                     *)
(* ===================================================================== *)

(** ** One checkpoint *)

(** What the second half of [checkpoint] leaves alone. *)
Lemma checkpoint_settle_fields (o : Settled) (c : TaskContext.t) :
  let c' := (TaskContext.checkpoint_settle o c).2 in
  same_identity c c'
  /\ TaskContext.lastCheckpointState c' = TaskContext.lastCheckpointState c
  /\ TaskContext.checkpointCount c' = TaskContext.checkpointCount c
  /\ TaskContext.currentAction c' = TaskContext.currentAction c
  /\ TaskContext.progressReports c' = TaskContext.progressReports c
  /\ TaskContext.stateListener c' = TaskContext.stateListener c
  /\ TaskContext.lastAutoProgress c' = TaskContext.lastAutoProgress c
  /\ TaskContext.lastProgressReport c' = TaskContext.lastProgressReport c.
Proof.
  unfold TaskContext.checkpoint_settle, same_identity.
  destruct o as [r | err]; [|destruct (message_of err); repeat split].
  destruct (TaskContext.aborts r); [repeat split|].
  destruct (cr_newInstructions r) as [i|]; [|repeat split].
  destruct (truthy i); repeat split.
Qed.

Lemma checkpoint_settle_status (o : Settled) (c : TaskContext.t) :
  let out := TaskContext.checkpoint_settle o c in
  TaskContext.status out.2
  = (if asks_abort o then LAborted else TaskContext.status c)
  /\ TaskContext.logs c `prefix_of` TaskContext.logs out.2.
Proof.
  unfold TaskContext.checkpoint_settle, asks_abort.
  destruct o as [r | err].
  - destruct (TaskContext.aborts r); [split; reflexivity|].
    destruct (cr_newInstructions r) as [i|]; [|split; reflexivity].
    destruct (truthy i); (split; [reflexivity|]); [|reflexivity].
    simpl. apply prefix_app_r. reflexivity.
  - destruct (message_of err); (split; [reflexivity|]); [|reflexivity].
    simpl. apply prefix_app_r. reflexivity.
Qed.

(** The second half of [checkpoint] raises in one case only: the
    handler rejected with [null] or [undefined], and the [catch] raised
    on reading [error.message]. *)
Lemma checkpoint_settle_raises (o : Settled) (c : TaskContext.t) (x : JsError) :
  (TaskContext.checkpoint_settle o c).1 = Raised x
  <-> (o = Rejected ThrownNull /\ x = type_error "null")
      \/ (o = Rejected (ThrownValue VUndefined) /\ x = type_error "undefined").
Proof.
  unfold TaskContext.checkpoint_settle. split.
  - destruct o as [r | [|v|err]].
    + destruct (TaskContext.aborts r); [discriminate|].
      destruct (cr_newInstructions r) as [i|]; [|discriminate].
      destruct (truthy i); discriminate.
    + simpl. intros [= <-]. left. split; reflexivity.
    + destruct v; simpl; try discriminate.
      intros [= <-]. right. split; reflexivity.
    + discriminate.
  - intros [[-> ->] | [-> ->]]; reflexivity.
Qed.

(** X11.  A call of [checkpoint] counts one more checkpoint, logs the
    checkpoint line first, moves the reference state of the next diff
    to the current world state and keeps the start state and the
    progress history, whatever the handler answers.  It raises in one
    case only: a registered handler rejects with [null] or
    [undefined]; then the [catch] of [checkpoint], which reads
    [error.message], raises a [TypeError] itself, and that is what the
    caller gets.  In every other case the call returns.  The context
    stops being "running" exactly when a registered handler answers
    with [abort]; without a handler the call answers
    [{ continue: true }] at once and logs only the checkpoint line. *)
Theorem checkpoint_bookkeeping (e : Env) (reason : string)
    (handler : TaskStatus -> Settled) (c : TaskContext.t) :
  let st := (TaskContext.checkpoint_enter e reason c).2 in
  let out := TaskContext.checkpoint e reason handler c in
  let aborted := TaskContext.onCheckpoint c && asks_abort (handler st) in
  (forall x, out.1 = Raised x
             <-> TaskContext.onCheckpoint c = true
                 /\ (handler st = Rejected ThrownNull /\ x = type_error "null"
                     \/ handler st = Rejected (ThrownValue VUndefined)
                        /\ x = type_error "undefined"))
  /\ ((TaskContext.onCheckpoint c = false
       \/ handler st <> Rejected ThrownNull
          /\ handler st <> Rejected (ThrownValue VUndefined)) ->
      exists r, out.1 = Returned r)
  /\ TaskContext.checkpointCount out.2 = TaskContext.checkpointCount c + 1
  /\ TaskContext.lastCheckpointState out.2 = sdkState e
  /\ TaskContext.startState out.2 = TaskContext.startState c
  /\ TaskContext.progressReports out.2 = TaskContext.progressReports c
  /\ (TaskContext.logs c ++ [checkpoint_line c reason])%list
       `prefix_of` TaskContext.logs out.2
  /\ TaskContext.status out.2
     = (if aborted then LAborted else TaskContext.status c)
  /\ TaskContext.shouldContinue out.2
     = TaskContext.shouldContinue c && negb aborted
  /\ (TaskContext.onCheckpoint c = false ->
      out.1 = Returned TaskContext.continue_result
      /\ TaskContext.logs out.2
         = (TaskContext.logs c ++ [checkpoint_line c reason])%list).
Proof.
  intros st out aborted. subst st out aborted.
  unfold TaskContext.checkpoint.
  pose proof (checkpoint_enter_fields e reason c)
    as (Hon & Hlogs & Hst & Hab & Hpr & Hcnt & Hact & Hlis).
  assert (Hlast : TaskContext.lastCheckpointState
                    (TaskContext.checkpoint_enter e reason c).1 = sdkState e)
    by reflexivity.
  assert (Hstart : TaskContext.startState
                     (TaskContext.checkpoint_enter e reason c).1
                   = TaskContext.startState c) by reflexivity.
  destruct (TaskContext.checkpoint_enter e reason c) as [c1 s].
  cbn [fst snd] in *. unfold checkpoint_line.
  rewrite Hon. destruct (TaskContext.onCheckpoint c) eqn:Hreg.
  - pose proof (checkpoint_settle_fields (handler s) c1)
      as ((_ & _ & Hs0 & _) & Hl & Hc & _ & Hp & _).
    pose proof (checkpoint_settle_status (handler s) c1) as (Hs' & Hlg).
    pose proof (checkpoint_settle_raises (handler s) c1) as Hr.
    destruct (TaskContext.checkpoint_settle (handler s) c1) as [res c2].
    cbn [fst snd] in *. cbn [andb].
    split; [|split]; [| |split_and!; try congruence].
    + intros x. rewrite Hr. tauto.
    + intros [Hno | [Hn Hu]]; [discriminate|].
      destruct res as [r | x]; [eexists; reflexivity|].
      destruct (proj1 (Hr x) eq_refl) as [[H _] | [H _]]; contradiction.
    + rewrite Hs', Hst. reflexivity.
    + unfold TaskContext.shouldContinue. rewrite Hs', Hst.
      destruct (asks_abort (handler s)); [|rewrite andb_true_r; reflexivity].
      rewrite andb_false_r. reflexivity.
  - cbn [fst snd andb].
    split; [|split]; [| |split_and!; try congruence].
    + intros x. split; [discriminate | intros [H _]; discriminate].
    + intros _. eexists; reflexivity.
    + rewrite Hlogs. reflexivity.
    + unfold TaskContext.shouldContinue. rewrite Hst, andb_true_r. reflexivity.
    + intros _. split; [reflexivity | exact Hlogs].
Qed.

(** X12.  When the registered handler answers with [abort], the caller
    gets that very answer, the context is marked aborted, and its error
    is the given reason, or "Aborted by supervisor" when the reason is
    missing or empty, so it is never empty; instructions that come with
    the answer are not logged. *)
Theorem checkpoint_abort_marks (e : Env) (reason : string) (r : CheckpointResult)
    (handler : TaskStatus -> Settled) (c : TaskContext.t) :
  TaskContext.onCheckpoint c = true ->
  handler (TaskContext.checkpoint_enter e reason c).2 = Fulfilled r ->
  cr_abort r = Some true ->
  let out := TaskContext.checkpoint e reason handler c in
  out.1 = Returned r
  /\ TaskContext.status out.2 = LAborted
  /\ TaskContext.shouldContinue out.2 = false
  /\ TaskContext.abortReason out.2
     = Some (match cr_abortReason r with
             | Some (String a s) => String a s
             | _ => "Aborted by supervisor"
             end)
  /\ (exists why, TaskContext.abortReason out.2 = Some why /\ why <> "")
  /\ (forall e', ts_error (TaskContext.getStatus e' out.2)
                 = TaskContext.abortReason out.2)
  /\ TaskContext.logs out.2
     = (TaskContext.logs c ++ [checkpoint_line c reason])%list.
Proof.
  intros Hreg Hans Habort out. subst out.
  unfold TaskContext.checkpoint.
  pose proof (checkpoint_enter_fields e reason c) as (Hon & Hlogs & _).
  destruct (TaskContext.checkpoint_enter e reason c) as [c1 snap].
  cbn [fst snd] in *. unfold checkpoint_line. rewrite Hon, Hreg, Hans.
  unfold TaskContext.checkpoint_settle, TaskContext.aborts. rewrite Habort.
  cbn [default fst snd TaskContext.set_status TaskContext.status
       TaskContext.abortReason TaskContext.logs TaskContext.shouldContinue].
  assert (Hwhy : or_default (cr_abortReason r) "Aborted by supervisor"
                 = match cr_abortReason r with
                   | Some (String a s) => String a s
                   | _ => "Aborted by supervisor"
                   end)
    by (destruct (cr_abortReason r) as [[|a s]|]; reflexivity).
  rewrite Hwhy.
  repeat split; try reflexivity.
  - eexists. split; [reflexivity|].
    destruct (cr_abortReason r) as [[|a s]|]; discriminate.
  - exact Hlogs.
Qed.

Lemma checkpoint_abort_marks_witness :
  let c := TaskContext.create (mkEnv 1000 None "") "task-1-rs" true true None in
  let out := TaskContext.checkpoint (mkEnv 2000 None "") "A"
               (fun _ => Fulfilled (mkResult false (Some "stop") (Some true) (Some "")))
               c in
  TaskContext.status out.2 = LAborted
  /\ TaskContext.abortReason out.2 = Some "Aborted by supervisor"
  /\ TaskContext.logs out.2 = ["[Checkpoint 1] A"].
Proof.
  intros c out.
  pose proof (checkpoint_abort_marks (mkEnv 2000 None "") "A"
                (mkResult false (Some "stop") (Some true) (Some ""))
                (fun _ => Fulfilled (mkResult false (Some "stop") (Some true) (Some "")))
                c eq_refl eq_refl eq_refl) as (_ & H1 & _ & H2 & _ & _ & H3).
  split; [exact H1 | split; [exact H2 | exact H3]].
Defined.

(** X13.  When the registered handler answers without [abort], the
    caller gets that very answer and the context stays as live as it
    was, also when the answer says [continue: false]; the instructions
    of the answer are logged after the checkpoint line when they are a
    non-empty string, and not otherwise. *)
Theorem checkpoint_instructions (e : Env) (reason : string) (r : CheckpointResult)
    (handler : TaskStatus -> Settled) (c : TaskContext.t) :
  TaskContext.onCheckpoint c = true ->
  handler (TaskContext.checkpoint_enter e reason c).2 = Fulfilled r ->
  TaskContext.aborts r = false ->
  let out := TaskContext.checkpoint e reason handler c in
  out.1 = Returned r
  /\ TaskContext.status out.2 = TaskContext.status c
  /\ TaskContext.shouldContinue out.2 = TaskContext.shouldContinue c
  /\ TaskContext.abortReason out.2 = TaskContext.abortReason c
  /\ TaskContext.logs out.2
     = (TaskContext.logs c ++ checkpoint_line c reason
        :: match cr_newInstructions r with
           | Some (String a s) => [("[New Instructions] " ++ String a s)%string]
           | _ => []
           end)%list.
Proof.
  intros Hreg Hans Habort out. subst out.
  unfold TaskContext.checkpoint.
  pose proof (checkpoint_enter_fields e reason c) as (Hon & Hlogs & Hst & Hab & _).
  destruct (TaskContext.checkpoint_enter e reason c) as [c1 snap].
  cbn [fst snd] in *. unfold checkpoint_line.
  rewrite Hon, Hreg, Hans.
  unfold TaskContext.checkpoint_settle, TaskContext.shouldContinue.
  rewrite Habort.
  destruct (cr_newInstructions r) as [[|a s]|];
    cbn [truthy fst snd TaskContext.log TaskContext.push_log TaskContext.logs
         TaskContext.status TaskContext.abortReason String.concat];
    rewrite ?Hst; split_and!; try congruence.
  rewrite Hlogs, <- app_assoc. reflexivity.
Qed.

Lemma checkpoint_instructions_witness :
  let c := TaskContext.create (mkEnv 1000 None "") "task-1-rs" true true None in
  let out := TaskContext.checkpoint (mkEnv 2000 None "") "A"
               (fun _ => Fulfilled (mkResult false (Some "bank first") None None)) c in
  TaskContext.shouldContinue out.2 = true
  /\ TaskContext.logs out.2
     = ["[Checkpoint 1] A"; "[New Instructions] bank first"].
Proof.
  intros c out.
  pose proof (checkpoint_instructions (mkEnv 2000 None "") "A"
                (mkResult false (Some "bank first") None None)
                (fun _ => Fulfilled (mkResult false (Some "bank first") None None))
                c eq_refl eq_refl eq_refl) as (_ & _ & H1 & _ & H2).
  split; [exact H1 | exact H2].
Defined.

Lemma checkpoint_reference (e : Env) (reason : string)
    (handler : TaskStatus -> Settled) (c : TaskContext.t) :
  let c' := (TaskContext.checkpoint e reason handler c).2 in
  TaskContext.lastCheckpointState c' = sdkState e
  /\ same_identity c c'
  /\ TaskContext.checkpointCount c' = TaskContext.checkpointCount c + 1
  /\ TaskContext.progressReports c' = TaskContext.progressReports c
  /\ TaskContext.stateListener c' = TaskContext.stateListener c.
Proof.
  unfold TaskContext.checkpoint.
  assert (H1 : TaskContext.lastCheckpointState
                 (TaskContext.checkpoint_enter e reason c).1 = sdkState e)
    by reflexivity.
  assert (H2 : same_identity c (TaskContext.checkpoint_enter e reason c).1)
    by (repeat split).
  pose proof (checkpoint_enter_fields e reason c)
    as (_ & _ & _ & _ & Hpr & Hcnt & _ & Hlis).
  destruct (TaskContext.checkpoint_enter e reason c) as [c1 snap].
  cbn [fst snd] in *.
  destruct (TaskContext.onCheckpoint c1); [|cbn [snd]; split_and!; assumption].
  pose proof (checkpoint_settle_fields (handler snap) c1)
    as (Hid & Hl & Hc & _ & Hp & Hs & _).
  destruct (TaskContext.checkpoint_settle (handler snap) c1) as [res c2].
  cbn [fst snd] in *. unfold same_identity in *.
  destruct H2 as (? & ? & ? & ? & ? & ?). destruct Hid as (? & ? & ? & ? & ? & ?).
  split_and!; congruence.
Qed.

(** X14.  The status snapshot a checkpoint hands to the handler is
    marked paused while the context itself keeps its status; it is
    taken before the reference state moves, so its [stateDiff] is the
    diff since the previous checkpoint and already counts the new
    checkpoint.  After the call the diff since the last checkpoint is
    measured from the world state of the call, and is empty at that
    very state; the diff from the start is measured as before. *)
Theorem checkpoint_diff_window (e : Env) (reason : string)
    (handler : TaskStatus -> Settled) (c : TaskContext.t) :
  let st := (TaskContext.checkpoint_enter e reason c).2 in
  let c' := (TaskContext.checkpoint e reason handler c).2 in
  ts_status st = LPaused
  /\ TaskContext.status (TaskContext.checkpoint_enter e reason c).1
     = TaskContext.status c
  /\ ts_stateDiff st = TaskContext.getStateDiffSinceLastCheckpoint e c
  /\ ts_accumulatedDiff st = TaskContext.getStateDiffFromStart e c
  /\ ts_checkpointCount st = TaskContext.checkpointCount c + 1
  /\ (forall e',
        TaskContext.getStateDiffSinceLastCheckpoint e' c'
        = match sdkState e, sdkState e' with
          | Some s, Some cur => computeStateDiff s cur
          | _, _ => createEmptyDiff 0
          end)
  /\ (forall e',
        TaskContext.getStateDiffFromStart e' c'
        = TaskContext.getStateDiffFromStart e' c)
  /\ (forall S, sdkState e = Some S -> point_in_time S ->
        TaskContext.getStateDiffSinceLastCheckpoint e c'
        = createEmptyDiff (tick S)).
Proof.
  intros st c'.
  pose proof (checkpoint_reference e reason handler c)
    as (Hlast & (_ & _ & Hstart & _) & _).
  fold c' in Hlast, Hstart.
  split_and!; try reflexivity.
  - intros e'. unfold TaskContext.getStateDiffSinceLastCheckpoint.
    rewrite Hlast. reflexivity.
  - intros e'. unfold TaskContext.getStateDiffFromStart.
    rewrite Hstart. reflexivity.
  - intros S HS Hpt. unfold TaskContext.getStateDiffSinceLastCheckpoint.
    rewrite Hlast, HS. apply diff_same_snapshot. exact Hpt.
Qed.

(** ** The history of a context *)

Lemma same_identity_refl c : same_identity c c.
Proof. repeat split. Qed.

Lemma same_identity_trans c1 c2 c3 :
  same_identity c1 c2 -> same_identity c2 c3 -> same_identity c1 c3.
Proof.
  unfold same_identity.
  intros (? & ? & ? & ? & ? & ?) (? & ? & ? & ? & ? & ?). split_and!; congruence.
Qed.

(** One operation: what it keeps, and by how much it moves the
    counters. *)
Lemma apply_op_history (e : Env) (op : CtxOp) (c : TaskContext.t) :
  let c' := apply_op e op c in
  same_identity c c'
  /\ TaskContext.checkpointCount c'
     = TaskContext.checkpointCount c + (if is_checkpoint op then 1 else 0)
  /\ length (TaskContext.progressReports c')
     = (length (TaskContext.progressReports c)
        + (if is_report op then 1 else 0))%nat
  /\ TaskContext.logs c `prefix_of` TaskContext.logs c'
  /\ (length (TaskContext.logs c') <= length (TaskContext.logs c) + 2)%nat
  /\ (TaskContext.stateListener c' = true -> TaskContext.stateListener c = true).
Proof.
  destruct op as [p | a | args | args | reason handler | result | error | |];
    cbn [apply_op is_checkpoint is_report].
  1-4, 6-8:
    (split; [repeat split|];
     cbn [TaskContext.reportProgress TaskContext.setAction TaskContext.complete
          TaskContext.fail TaskContext.cleanup TaskContext.log TaskContext.warn
          TaskContext.push_log TaskContext.set_currentAction
          TaskContext.set_status fst
          TaskContext.checkpointCount TaskContext.progressReports
          TaskContext.logs TaskContext.stateListener];
     rewrite ?length_app; cbn [length];
     split_and!; try lia; try (apply prefix_app_r; reflexivity);
     try reflexivity; try (intros H; exact H); try discriminate).
  - pose proof (checkpoint_reference e reason handler c)
      as (_ & Hid & Hcnt & Hpr & Hlis).
    unfold TaskContext.checkpoint in *.
    pose proof (checkpoint_enter_fields e reason c) as (_ & Hlogs & _).
    destruct (TaskContext.checkpoint_enter e reason c) as [c1 snap].
    cbn [fst snd] in *.
    assert (Hlog2 : TaskContext.logs c1
                      `prefix_of` TaskContext.logs
                        (if TaskContext.onCheckpoint c1
                         then TaskContext.checkpoint_settle (handler snap) c1
                         else (Returned TaskContext.continue_result, c1)).2
                    /\ (length (TaskContext.logs
                          (if TaskContext.onCheckpoint c1
                           then TaskContext.checkpoint_settle (handler snap) c1
                           else (Returned TaskContext.continue_result, c1)).2)
                        <= length (TaskContext.logs c1) + 1)%nat).
    { destruct (TaskContext.onCheckpoint c1); [|split; [reflexivity | simpl; lia]].
      unfold TaskContext.checkpoint_settle.
      destruct (handler snap) as [r | err].
      - destruct (TaskContext.aborts r); [split; [reflexivity | simpl; lia]|].
        destruct (cr_newInstructions r) as [i|];
          [|split; [reflexivity | simpl; lia]].
        destruct (truthy i); [|split; [reflexivity | simpl; lia]].
        simpl. split; [apply prefix_app_r; reflexivity|].
        rewrite length_app. simpl. lia.
      - destruct (message_of err); [|split; [reflexivity | simpl; lia]].
        simpl. split; [apply prefix_app_r; reflexivity|].
        rewrite length_app. simpl. lia. }
    destruct Hlog2 as [Hpre Hlen].
    split_and!; try assumption.
    + rewrite Hpr. lia.
    + etransitivity; [|exact Hpre]. rewrite Hlogs. apply prefix_app_r. reflexivity.
    + rewrite Hlogs, length_app in Hlen. simpl in Hlen. lia.
    + rewrite Hlis. intros H; exact H.
  - unfold TaskContext.onStateUpdate.
    destruct (_ && _); [|cbn [fst]; split_and!;
      [apply same_identity_refl | lia | lia | reflexivity | lia | intros H; exact H]].
    destruct (summary _); cbn [fst]; (split; [repeat split|]);
      cbn [TaskContext.checkpointCount TaskContext.progressReports
           TaskContext.logs TaskContext.stateListener];
      split_and!; try lia; try reflexivity; intros H; exact H.
Qed.

Lemma count_ops_cons (p : CtxOp -> bool) (s : Env * CtxOp) ops :
  count_ops p (s :: ops) = ((if p s.2 then 1 else 0) + count_ops p ops)%nat.
Proof. unfold count_ops. simpl. destruct (p s.2); reflexivity. Qed.

(** X15.  Along any sequence of operations on a context, the fields
    fixed at construction stay, the checkpoint counter grows by the
    number of checkpoints, the progress history by the number of
    operations that report (a report, a new action, completion,
    failure; automatic reports on state updates are not recorded), the
    log only grows, by two lines an operation at most, and a released
    state subscription is never taken again. *)
Theorem context_history (ops : list (Env * CtxOp)) (c : TaskContext.t) :
  let c' := apply_ops ops c in
  same_identity c c'
  /\ TaskContext.checkpointCount c'
     = TaskContext.checkpointCount c + Z.of_nat (count_ops is_checkpoint ops)
  /\ length (TaskContext.progressReports c')
     = (length (TaskContext.progressReports c) + count_ops is_report ops)%nat
  /\ TaskContext.logs c `prefix_of` TaskContext.logs c'
  /\ (length (TaskContext.logs c')
      <= length (TaskContext.logs c) + 2 * length ops)%nat
  /\ (TaskContext.stateListener c' = true -> TaskContext.stateListener c = true).
Proof.
  unfold apply_ops. revert c.
  induction ops as [|[e op] ops IH]; intros c.
  - cbn [fold_left]. unfold count_ops. cbn [List.filter length].
    split_and!; try reflexivity; try lia; [apply same_identity_refl | tauto].
  - cbn [fold_left fst snd]. rewrite !count_ops_cons. cbn [snd length].
    pose proof (apply_op_history e op c) as (Hid & Hcnt & Hrep & Hlog & Hlen & Hlis).
    cbv zeta in Hid, Hcnt, Hrep, Hlog, Hlen, Hlis.
    specialize (IH (apply_op e op c)) as (Hid' & Hcnt' & Hrep' & Hlog' & Hlen' & Hlis').
    cbv zeta. split_and!.
    + eapply same_identity_trans; eassumption.
    + rewrite Hcnt', Hcnt. destruct (is_checkpoint op); lia.
    + rewrite Hrep', Hrep. lia.
    + etransitivity; eassumption.
    + lia.
    + intros H. apply Hlis, Hlis', H.
Qed.

(** ** Automatic progress reports *)

(** X16.  A state update makes the context emit one progress report at
    most, and only while the subscription is held, a progress listener
    is registered, the interval since the last automatic check has
    passed and the diff since the last checkpoint has a summary; the
    report carries that summary joined by commas under the current
    action.  After an emission no update emits until the interval has
    passed again; a context that was cleaned up emits nothing.  The
    update changes neither the status, nor the progress history, nor
    the log of the context. *)
Theorem state_update_throttle (e : Env) (c : TaskContext.t) :
  let out := TaskContext.onStateUpdate e c in
  let diff := TaskContext.getStateDiffSinceLastCheckpoint e c in
  (length out.2 <= 1)%nat
  /\ (forall p, In p out.2 ->
        TaskContext.stateListener c = true
        /\ TaskContext.onProgress c = true
        /\ TaskContext.progressInterval c <= now e - TaskContext.lastAutoProgress c
        /\ summary diff <> []
        /\ p = mkProgress (TaskContext.currentAction c) PInProgress None
                 (Some (String.concat ", " (summary diff))) None)
  /\ (out.2 <> [] ->
      forall e', now e' - now e < TaskContext.progressInterval c ->
        (TaskContext.onStateUpdate e' out.1).2 = [])
  /\ (TaskContext.onStateUpdate e (TaskContext.cleanup c)).2 = []
  /\ TaskContext.status out.1 = TaskContext.status c
  /\ TaskContext.progressReports out.1 = TaskContext.progressReports c
  /\ TaskContext.logs out.1 = TaskContext.logs c
  /\ TaskContext.lastCheckpointState out.1 = TaskContext.lastCheckpointState c.
Proof.
  intros out diff. subst out diff. unfold TaskContext.onStateUpdate.
  destruct (TaskContext.stateListener c) eqn:Hl; cbn [andb];
    [|split_and!; try reflexivity; [simpl; lia | intros p [] | intros H; contradiction]].
  destruct (TaskContext.onProgress c) eqn:Hp; cbn [andb];
    [|split_and!; try reflexivity; [simpl; lia | intros p [] | intros H; contradiction]].
  destruct (now e - TaskContext.lastAutoProgress c >=? TaskContext.progressInterval c)
    eqn:Ht;
    [|split_and!; try reflexivity; [simpl; lia | intros p [] | intros H; contradiction]].
  apply Z.geb_le in Ht.
  destruct (summary (TaskContext.getStateDiffSinceLastCheckpoint e c)) as [|x xs] eqn:Hs;
    cbn [fst snd];
    [split_and!; try reflexivity; [simpl; lia | intros p [] | intros H; contradiction]|].
  split_and!; try reflexivity.
  - intros p [<- | []]. split_and!; try reflexivity; [exact Ht | discriminate].
  - intros _ e' He'.
    cbn [TaskContext.stateListener TaskContext.onProgress
         TaskContext.lastAutoProgress TaskContext.progressInterval].
    cbn [andb].
    destruct (now e' - now e >=? TaskContext.progressInterval c) eqn:Ht';
      [|reflexivity].
    apply Z.geb_le in Ht'. lia.
Qed.

(** ** The final report *)

Lemma report_log_length (c : TaskContext.t) :
  length (TaskContext.report_log c)
  = match TaskContext.logs c with
    | [] => 0%nat
    | _ :: _ =>
        (2 + Nat.min 20 (length (TaskContext.logs c))
         + (if (20 <? length (TaskContext.logs c))%nat then 1 else 0))%nat
    end.
Proof.
  unfold TaskContext.report_log. cbv zeta.
  destruct (TaskContext.logs c) as [|l ls] eqn:Hl; [reflexivity|].
  rewrite !length_app, slice_last_length. cbn [length].
  destruct (20 <? _)%nat; cbn [length]; lia.
Qed.

(** X17.  The report of a context has between 6 and 35 entries whatever
    the history of the context: the log section shows the last 20 log
    lines at most, and when there are more it ends with a line that
    counts exactly the lines left out.  The duration is the elapsed
    time in seconds rounded to the nearest integer.  After [fail] the
    report reads FAILED, has an error section exactly when the error
    text is there and not empty, and has a log section; after
    [complete] it reads COMPLETED and keeps the error section it had. *)
Theorem report_shape (e : Env) (c : TaskContext.t) :
  let lines := TaskContext.formatReport_lines e c in
  let shown := slice_last 20 (TaskContext.logs c) in
  (6 <= length lines <= 35)%nat
  /\ (length shown <= 20)%nat
  /\ shown `suffix_of` TaskContext.logs c
  /\ ((20 < length (TaskContext.logs c))%nat ->
      last (TaskContext.report_log c)
      = Some ("... and "
              ++ show (Z.of_nat (length (TaskContext.logs c) - length shown))
              ++ " more entries")%string)
  /\ ((length (TaskContext.logs c) <= 20)%nat -> shown = TaskContext.logs c)
  /\ (forall ms, -500 < 1000 * TaskContext.round_seconds ms - ms <= 500)
  /\ (forall error : option string,
        let failed := (TaskContext.fail e error c).1 in
        TaskContext.formatReport_lines e failed !! 1%nat = Some "Status: FAILED"
        /\ TaskContext.report_error e failed
           = match error with
             | Some text => if truthy text then [""; "## Error"; text] else []
             | None => []
             end
        /\ TaskContext.report_log failed <> [])
  /\ (forall result,
        let done := (TaskContext.complete e result c).1 in
        TaskContext.formatReport_lines e done !! 1%nat = Some "Status: COMPLETED"
        /\ TaskContext.report_error e done = TaskContext.report_error e c).
Proof.
  intros lines shown. subst lines shown.
  split_and!.
  - unfold TaskContext.formatReport_lines. rewrite !length_app.
    rewrite report_log_length. cbn [length TaskContext.report_head].
    unfold TaskContext.report_error, TaskContext.report_changes.
    destruct (ts_error _) as [er|]; [destruct (truthy er)|];
      destruct (summary _); destruct (TaskContext.logs c);
      try destruct (20 <? _)%nat; cbn [length]; lia.
  - unfold TaskContext.formatReport_lines. rewrite !length_app.
    rewrite report_log_length. cbn [length TaskContext.report_head].
    unfold TaskContext.report_error, TaskContext.report_changes.
    destruct (ts_error _) as [er|]; [destruct (truthy er)|];
      destruct (summary _); destruct (TaskContext.logs c);
      try destruct (20 <? _)%nat; cbn [length]; lia.
  - rewrite slice_last_length. lia.
  - apply slice_last_suffix.
  - intros Hlen. unfold TaskContext.report_log. cbv zeta.
    destruct (TaskContext.logs c) as [|l ls] eqn:Hl; [simpl in Hlen; lia|].
    apply Nat.ltb_lt in Hlen. rewrite Hlen.
    rewrite !app_assoc, last_snoc. apply Nat.ltb_lt in Hlen.
    rewrite slice_last_length.
    replace (Z.of_nat (length (l :: ls) - Nat.min 20 (length (l :: ls))))
      with (Z.of_nat (length (l :: ls)) - 20) by lia.
    reflexivity.
  - intros Hlen. unfold slice_last.
    replace (length (TaskContext.logs c) - 20)%nat with 0%nat by lia.
    reflexivity.
  - intros ms. unfold TaskContext.round_seconds.
    pose proof (Z.div_mod (ms + 500) 1000 ltac:(lia)) as Hdm.
    pose proof (Z.mod_pos_bound (ms + 500) 1000 ltac:(lia)) as Hb. lia.
  - intros error failed. subst failed. split_and!; try reflexivity.
    unfold TaskContext.report_log. cbv zeta.
    cbn [TaskContext.fail TaskContext.reportProgress TaskContext.log
         TaskContext.push_log TaskContext.set_status TaskContext.logs fst].
    destruct (TaskContext.logs c) as [|l ls]; cbn [app]; discriminate.
  - intros result done. subst done. split; reflexivity.
Qed.

(* ===================================================================== *)
(** * Part VII. Further properties of the task manager                    *)
(* ===================================================================== *)

(** ** One task at a time *)

Lemma same_elsewhere_refl taskId m : same_elsewhere taskId m m.
Proof. repeat split; auto. Qed.

Lemma same_elsewhere_trans taskId m1 m2 m3 :
  same_elsewhere taskId m1 m2 -> same_elsewhere taskId m2 m3 ->
  same_elsewhere taskId m1 m3.
Proof.
  intros (Hc & Ho & Hi) (Hc' & Ho' & Hi'). split; [congruence|]. split.
  - intros other Hne. rewrite (Ho' other Hne). apply Ho, Hne.
  - rewrite Hi'. exact Hi.
Qed.

Lemma same_elsewhere_put taskId task m :
  is_Some (TaskManager.tasks m !! taskId) ->
  same_elsewhere taskId m (TaskManager.put taskId task m).
Proof.
  intros Hin. unfold TaskManager.put. split; [reflexivity|]. split.
  - intros other Hne. simpl. apply lookup_insert_ne. congruence.
  - simpl. rewrite lookup_insert_eq. split; [intros _; exact Hin | eauto].
Qed.

Lemma ctx_call_elsewhere e taskId op m :
  same_elsewhere taskId m (Harness.ctx_call e taskId op m).
Proof.
  unfold Harness.ctx_call.
  destruct (TaskManager.tasks m !! taskId) as [task|] eqn:Hid;
    [|apply same_elsewhere_refl].
  apply same_elsewhere_put. rewrite Hid. eauto.
Qed.

Lemma completeTask_elsewhere e taskId result m :
  same_elsewhere taskId m (TaskManager.completeTask e taskId result m).
Proof.
  unfold TaskManager.completeTask.
  destruct (TaskManager.tasks m !! taskId) as [task|] eqn:Hid;
    [|apply same_elsewhere_refl].
  apply same_elsewhere_put. rewrite Hid. eauto.
Qed.

Lemma failTask_elsewhere e taskId error m :
  same_elsewhere taskId m (TaskManager.failTask e taskId error m).
Proof.
  unfold TaskManager.failTask.
  destruct (TaskManager.tasks m !! taskId) as [task|] eqn:Hid;
    [|apply same_elsewhere_refl].
  apply same_elsewhere_put. rewrite Hid. eauto.
Qed.

Lemma on_throw_elsewhere e taskId error m :
  same_elsewhere taskId m (Harness.on_throw e taskId error m).
Proof.
  unfold Harness.on_throw.
  destruct (TaskManager.tasks m !! taskId) as [task|] eqn:Hid;
    [|apply same_elsewhere_refl].
  destruct (decide _); [apply same_elsewhere_refl|].
  destruct (message_of error); [apply failTask_elsewhere | apply same_elsewhere_refl].
Qed.

Lemma handleCheckpoint_elsewhere e taskId st k m :
  same_elsewhere taskId m (TaskManager.handleCheckpoint e taskId st k m).2.
Proof.
  unfold TaskManager.handleCheckpoint.
  destruct (TaskManager.tasks m !! taskId) as [task|] eqn:Hid;
    [|apply same_elsewhere_refl].
  apply same_elsewhere_put. rewrite Hid. eauto.
Qed.

Lemma run_body_elsewhere e taskId b :
  forall m, same_elsewhere taskId m (Harness.run_body e taskId b m).
Proof.
  induction b as [result | error | | reason k IH | reason k IH | a k IH | p k IH
                 | args k IH | args k IH | k IH]; intros m; cbn [Harness.run_body].
  - apply completeTask_elsewhere.
  - apply on_throw_elsewhere.
  - apply same_elsewhere_refl.
  - destruct (TaskManager.tasks m !! taskId) as [task|] eqn:Hid;
      [|apply same_elsewhere_refl].
    destruct (TaskContext.checkpoint_enter e reason (TaskManager.context task))
      as [c1 st].
    assert (H1 : same_elsewhere taskId m
                   (TaskManager.put taskId (TaskManager.set_context c1 task) m))
      by (apply same_elsewhere_put; rewrite Hid; eauto).
    destruct (TaskContext.onCheckpoint c1);
      [|eapply same_elsewhere_trans; [exact H1 | apply IH]].
    unfold TaskManager.handleCheckpoint.
    cbn [TaskManager.tasks TaskManager.put]. rewrite lookup_insert_eq.
    eapply same_elsewhere_trans; [exact H1|].
    apply same_elsewhere_put. simpl. rewrite lookup_insert_eq. eauto.
  - destruct (TaskManager.tasks m !! taskId) as [task|] eqn:Hid;
      [|apply same_elsewhere_refl].
    destruct (TaskContext.checkpoint_enter e reason (TaskManager.context task))
      as [c1 st].
    assert (H1 : same_elsewhere taskId m
                   (TaskManager.put taskId (TaskManager.set_context c1 task) m))
      by (apply same_elsewhere_put; rewrite Hid; eauto).
    destruct (TaskContext.onCheckpoint c1);
      (eapply same_elsewhere_trans; [exact H1|]); [|apply IH].
    eapply same_elsewhere_trans; [apply handleCheckpoint_elsewhere | apply IH].
  - eapply same_elsewhere_trans; [apply ctx_call_elsewhere | apply IH].
  - eapply same_elsewhere_trans; [apply ctx_call_elsewhere | apply IH].
  - eapply same_elsewhere_trans; [apply ctx_call_elsewhere | apply IH].
  - eapply same_elsewhere_trans; [apply ctx_call_elsewhere | apply IH].
  - destruct (TaskManager.tasks m !! taskId) as [task|] eqn:Hid;
      [apply IH | apply same_elsewhere_refl].
Qed.

Lemma run_job_elsewhere e j m :
  same_elsewhere (job_task j) m (Harness.run_job e m j).
Proof.
  unfold Harness.run_job.
  destruct (TaskManager.tasks m !! job_task j) as [task|] eqn:Hid;
    [|apply same_elsewhere_refl].
  destruct (TaskContext.checkpoint_settle _ _) as [res c].
  eapply same_elsewhere_trans;
    [apply same_elsewhere_put; rewrite Hid; eauto|].
  destruct res; [apply run_body_elsewhere | apply on_throw_elsewhere].
Qed.

Lemma continue_task_elsewhere e taskId instructions m :
  same_elsewhere taskId m (Harness.continue_task e taskId instructions m).
Proof.
  unfold Harness.continue_task, TaskManager.getTaskStatus,
    TaskManager.continueTask.
  destruct (TaskManager.tasks m !! taskId) as [task|] eqn:Hid;
    [|apply same_elsewhere_refl].
  destruct (decide _); [|apply same_elsewhere_refl].
  destruct (TaskManager.pendingCheckpoint task) as [pending|];
    [|apply same_elsewhere_refl].
  unfold Harness.run_jobs. cbn [fold_left].
  eapply same_elsewhere_trans;
    [apply same_elsewhere_put; rewrite Hid; eauto|].
  apply (run_job_elsewhere e (mkJob taskId _ _)).
Qed.

Lemma abort_task_elsewhere e taskId reason m :
  same_elsewhere taskId m (Harness.abort_task e taskId reason m).
Proof.
  unfold Harness.abort_task, TaskManager.abortTask.
  destruct (TaskManager.tasks m !! taskId) as [task|] eqn:Hid;
    [|apply same_elsewhere_refl].
  cbn [TaskManager.pendingCheckpoint TaskManager.set_status].
  destruct (TaskManager.pendingCheckpoint task) as [pending|].
  - unfold Harness.run_jobs. cbn [fold_left].
    eapply same_elsewhere_trans;
      [apply same_elsewhere_put; rewrite Hid; eauto|].
    apply (run_job_elsewhere e (mkJob taskId _ _)).
  - rewrite run_jobs_nil. apply same_elsewhere_put. rewrite Hid. eauto.
Qed.

(** X18.  Resuming a task, aborting it, a state update for it and
    whatever its body then does until it finishes or suspends concern
    that task only: the other records of the table are the very same
    afterwards, no task is added or removed, and the counter of issued
    identifiers does not move. *)
Theorem requests_touch_one_task (e : Env) (taskId : string) (m : TaskManager.t) :
  (forall instructions,
     same_elsewhere taskId m (Harness.continue_task e taskId instructions m))
  /\ (forall reason,
        same_elsewhere taskId m (Harness.abort_task e taskId reason m))
  /\ same_elsewhere taskId m
       (Harness.handle m (e, Harness.StateUpdate taskId))
  /\ (forall body, same_elsewhere taskId m (Harness.run_body e taskId body m))
  /\ (forall result,
        same_elsewhere taskId m (TaskManager.completeTask e taskId result m))
  /\ (forall error,
        same_elsewhere taskId m (TaskManager.failTask e taskId error m)).
Proof.
  split_and!.
  - intros instructions. apply continue_task_elsewhere.
  - intros reason. apply abort_task_elsewhere.
  - apply ctx_call_elsewhere.
  - intros body. apply run_body_elsewhere.
  - intros result. apply completeTask_elsewhere.
  - intros error. apply failTask_elsewhere.
Qed.

(** ** Fresh identifiers *)

Lemma no_dash_uint (d : Decimal.uint) :
  no_dash (NilEmpty.string_of_uint d) = true.
Proof. induction d; simpl; auto. Qed.

Lemma show_no_dash (n : Z) : 0 <= n -> no_dash (show n) = true.
Proof.
  intros Hn. unfold show. destruct n as [|p|p]; [reflexivity| |lia].
  cbn [Z.to_int NilZero.string_of_int]. unfold NilZero.string_of_uint.
  destruct (Pos.to_uint p); try reflexivity; apply (no_dash_uint (_ u)).
Qed.

Lemma show_inj (a b : Z) : show a = show b -> a = b.
Proof.
  intros H. apply DecimalZ.to_int_inj.
  assert (Hnn : forall z, Z.to_int z <> Decimal.Pos Decimal.Nil
                          /\ Z.to_int z <> Decimal.Neg Decimal.Nil).
  { intros [|p|p]; simpl; split; try discriminate;
      intros [= Hp]; exact (DecimalPos.Unsigned.to_uint_nonnil p Hp). }
  assert (Ha : NilZero.int_of_string (show a) = Some (Z.to_int a))
    by (apply NilZero.isi; apply Hnn).
  assert (Hb : NilZero.int_of_string (show b) = Some (Z.to_int b))
    by (apply NilZero.isi; apply Hnn).
  rewrite H in Ha. congruence.
Qed.

Lemma dash_splits (a b x y : string) :
  no_dash a = true -> no_dash b = true ->
  (a ++ String "-" x = b ++ String "-" y)%string -> a = b.
Proof.
  revert b. induction a as [|c a IH]; intros [|c' b] Ha Hb H; simpl in *.
  - reflexivity.
  - injection H as <- _. simpl in Hb. discriminate Hb.
  - injection H as -> _. simpl in Ha. discriminate Ha.
  - injection H as <- H.
    apply andb_prop in Ha as [_ Ha]. apply andb_prop in Hb as [_ Hb].
    f_equal. apply IH; assumption.
Qed.

(** Identifiers issued at different counter values differ. *)
Lemma issued_inj (n n' : Z) (k : string) :
  0 <= n -> 0 <= n' -> issued n k -> issued n' k -> n = n'.
Proof.
  intros Hn Hn' [s ->] [s' H]. apply show_inj.
  apply (dash_splits _ _ s s'); [apply show_no_dash, Hn | apply show_no_dash, Hn'|].
  cbn [String.append] in H. injection H as H. exact H.
Qed.

Lemma ids_bounded_elsewhere taskId m m' :
  same_elsewhere taskId m m' -> ids_bounded m -> ids_bounded m'.
Proof.
  intros (Hc & Ho & Hi) [H0 Hall]. split; [rewrite Hc; exact H0|].
  intros k task Hk. rewrite Hc.
  destruct (decide (k = taskId)) as [->|Hne].
  - destruct (proj1 Hi) as [task0 H1]; [rewrite Hk; eauto|].
    exact (Hall taskId task0 H1).
  - rewrite (Ho k Hne) in Hk. exact (Hall k task Hk).
Qed.

Lemma startTask_fresh e bot code desc interval m :
  ids_bounded m ->
  TaskManager.tasks m
    !! (TaskManager.startTask e bot code desc interval m).1.1 = None.
Proof.
  intros [H0 Hall]. unfold TaskManager.startTask, TaskManager.generateTaskId.
  cbn [fst snd].
  destruct (TaskManager.tasks m !! _) as [task|] eqn:Hk; [exfalso | reflexivity].
  destruct (Hall _ task Hk) as (n & Hn & Hiss).
  assert (Heq : n = TaskManager.taskCounter m + 1); [|lia].
  eapply (issued_inj n (TaskManager.taskCounter m + 1)); try lia; [exact Hiss|].
  eexists. reflexivity.
Qed.

Lemma startTask_ids_bounded e bot code desc interval m :
  ids_bounded m -> ids_bounded (TaskManager.startTask e bot code desc interval m).2.
Proof.
  intros [H0 Hall]. unfold TaskManager.startTask, TaskManager.generateTaskId.
  cbn [fst snd TaskManager.put TaskManager.tasks TaskManager.taskCounter].
  split; [simpl; lia|]. intros k task Hk. simpl in Hk |- *.
  destruct (decide (k = ("task-" ++ show (TaskManager.taskCounter m + 1) ++ "-"
                         ++ TaskManager.toString36 (now e))%string)) as [->|Hne].
  - exists (TaskManager.taskCounter m + 1). split; [lia|]. eexists. reflexivity.
  - rewrite lookup_insert_ne in Hk by congruence.
    destruct (Hall k task Hk) as (n & Hn & Hiss). exists n. split; [lia | exact Hiss].
Qed.

Lemma handle_ids_bounded m step :
  ids_bounded m -> ids_bounded (Harness.handle m step).
Proof.
  intros Hm. destruct step as [e [bot code desc body | taskId instructions
                                 | taskId reason | maxAgeMs | taskId
                                 | taskId body]];
    cbn [Harness.handle]; cycle 5.
  - exact (ids_bounded_elsewhere taskId _ _ (run_body_elsewhere e taskId body m) Hm).
  - unfold Harness.run_task.
    pose proof (startTask_ids_bounded e bot code desc None m Hm) as H1.
    destruct (TaskManager.startTask e bot code desc None m) as [[taskId st] m1].
    cbn [snd] in H1.
    exact (ids_bounded_elsewhere taskId _ _ (run_body_elsewhere e taskId body m1) H1).
  - exact (ids_bounded_elsewhere taskId _ _ (continue_task_elsewhere e taskId _ m) Hm).
  - exact (ids_bounded_elsewhere taskId _ _ (abort_task_elsewhere e taskId _ m) Hm).
  - destruct Hm as [H0 Hall].
    destruct (cleanup_loop (now e) (default (30 * 60 * 1000) maxAgeMs) m
                (TaskManager.tasks m)) as (Hc & _).
    cbv zeta in Hc. unfold TaskManager.cleanup. cbv zeta.
    split; [rewrite Hc; exact H0|].
    intros k task Hk. rewrite Hc.
    apply (proj1 (cleanup_evicts_lookup e maxAgeMs m k task)) in Hk as [Hk _].
    exact (Hall k task Hk).
  - exact (ids_bounded_elsewhere taskId _ _ (ctx_call_elsewhere e taskId _ m) Hm).
Qed.

Lemma reachable_ids_bounded m : Harness.reachable m -> ids_bounded m.
Proof.
  intros [trace ->]. unfold Harness.run.
  apply (fold_left_inv ids_bounded).
  - split; [simpl; lia|]. intros k task Hk. simpl in Hk.
    rewrite lookup_empty in Hk. discriminate.
  - intros m step _. apply handle_ids_bounded.
Qed.

(** X19.  In every state the system can reach, the identifier
    [startTask] issues is not in the table yet, also after tasks were
    evicted: starting a task and running its body overwrites no task,
    every earlier record is still there unchanged, the new task is in
    the table, and the counter has moved by one. *)
Theorem task_ids_fresh (e : Env) (bot code desc : string) (body : Body)
    (m : TaskManager.t) :
  Harness.reachable m ->
  let taskId := (TaskManager.startTask e bot code desc None m).1.1 in
  let m' := Harness.run_task e bot code desc body m in
  TaskManager.tasks m !! taskId = None
  /\ (forall k task,
        TaskManager.tasks m !! k = Some task ->
        TaskManager.tasks m' !! k = Some task)
  /\ (forall k, k <> taskId ->
        TaskManager.tasks m' !! k = TaskManager.tasks m !! k)
  /\ is_Some (TaskManager.tasks m' !! taskId)
  /\ TaskManager.taskCounter m' = TaskManager.taskCounter m + 1.
Proof.
  intros Hreach taskId m'.
  pose proof (startTask_fresh e bot code desc None m
                (reachable_ids_bounded m Hreach)) as Hfresh.
  fold taskId in Hfresh.
  assert (Hrun : same_elsewhere taskId
                   (TaskManager.startTask e bot code desc None m).2 m').
  { subst m' taskId. unfold Harness.run_task.
    destruct (TaskManager.startTask e bot code desc None m) as [[id st] m1].
    apply run_body_elsewhere. }
  destruct Hrun as (Hc & Ho & Hi).
  assert (Hput : TaskManager.tasks (TaskManager.startTask e bot code desc None m).2
                 = <[taskId := TaskManager.mkTask taskId bot
                       (TaskContext.create e taskId true true (Some 5000))
                       (now e) code desc Running (now e) None [] []]>
                     (TaskManager.tasks m)) by reflexivity.
  assert (Hcnt : TaskManager.taskCounter
                   (TaskManager.startTask e bot code desc None m).2
                 = TaskManager.taskCounter m + 1) by reflexivity.
  assert (Helse : forall k, k <> taskId ->
            TaskManager.tasks m' !! k = TaskManager.tasks m !! k).
  { intros k Hne. rewrite (Ho k Hne), Hput. apply lookup_insert_ne. congruence. }
  split_and!.
  - exact Hfresh.
  - intros k task Hk. rewrite Helse; [exact Hk|]. intros ->. congruence.
  - exact Helse.
  - apply Hi. rewrite Hput, lookup_insert_eq. eauto.
  - rewrite Hc. exact Hcnt.
Qed.

Lemma task_ids_fresh_witness :
  let e := mkEnv 1000 None "" in
  let m := Harness.run [(e, Harness.RunTask "bot" "code" "first" (Done None))] in
  let m' := Harness.run_task e "bot" "code" "second" (Done None) m in
  TaskManager.tasks m !! "task-2-rs" = None
  /\ TaskManager.taskCounter m' = 2.
Proof.
  intros e m m'.
  pose proof (task_ids_fresh e "bot" "code" "second" (Done None) m
                (ex_intro _ [(e, Harness.RunTask "bot" "code" "first" (Done None))]
                   eq_refl)) as (H1 & _ & _ & _ & H2).
  split; [exact H1 | exact H2].
Defined.

(** ** The records of the table *)

Lemma deliver_fields time ps task :
  let task' := TaskManager.deliver time ps task in
  TaskManager.id task' = TaskManager.id task
  /\ TaskManager.context task' = TaskManager.context task
  /\ TaskManager.status task' = TaskManager.status task
  /\ TaskManager.pendingCheckpoint task' = TaskManager.pendingCheckpoint task
  /\ TaskManager.logs task' = TaskManager.logs task
  /\ TaskManager.progressHistory task'
     = (TaskManager.progressHistory task ++ ps)%list.
Proof.
  unfold TaskManager.deliver. revert task.
  induction ps as [|p ps IH]; intros task; cbn [fold_left].
  - rewrite app_nil_r. repeat split.
  - specialize (IH (TaskManager.onProgress time task p)).
    cbv zeta in IH. destruct IH as (H1 & H2 & H3 & H4 & H5 & H6).
    cbv zeta. rewrite H1, H2, H3, H4, H5, H6. cbn.
    rewrite <- app_assoc. repeat split.
Qed.

Lemma tracked_reportProgress e p : tracked (TaskContext.reportProgress e p).
Proof.
  intros c Hp. split; [repeat split|]. split; [intros H; exact H|].
  split; [intros H; exact H|]. eexists. split; [reflexivity|].
  cbn [TaskContext.reportProgress snd]. unfold TaskContext.emit. rewrite Hp.
  reflexivity.
Qed.

Lemma tracked_setAction e a : tracked (TaskContext.setAction e a).
Proof.
  intros c Hp. split; [repeat split|]. split; [intros H; exact H|].
  split; [intros H; exact H|]. eexists. split; [reflexivity|].
  cbn [TaskContext.setAction TaskContext.reportProgress snd].
  unfold TaskContext.emit. cbn [TaskContext.set_currentAction TaskContext.onProgress].
  rewrite Hp. reflexivity.
Qed.

Lemma tracked_complete e result : tracked (TaskContext.complete e result).
Proof.
  intros c Hp. split; [repeat split|]. split; [intros H; exact H|].
  split; [intros _; discriminate|]. eexists. split; [reflexivity|].
  cbn [TaskContext.complete TaskContext.reportProgress snd].
  unfold TaskContext.emit. cbn [TaskContext.set_status TaskContext.onProgress].
  rewrite Hp. reflexivity.
Qed.

Lemma tracked_fail e error : tracked (TaskContext.fail e error).
Proof.
  intros c Hp. split; [repeat split|]. split; [intros H; exact H|].
  split; [intros _; discriminate|]. eexists. split; [reflexivity|].
  cbn [TaskContext.fail TaskContext.reportProgress snd].
  unfold TaskContext.emit. cbn [TaskContext.set_status TaskContext.onProgress].
  rewrite Hp. reflexivity.
Qed.

Lemma tracked_silent_log args : tracked (Harness.silent (TaskContext.log args)).
Proof.
  intros c Hp. split; [repeat split|]. split; [intros H; exact H|].
  split; [intros H; exact H|]. exists []. split; [|reflexivity].
  cbn. rewrite app_nil_r. reflexivity.
Qed.

Lemma tracked_silent_warn args : tracked (Harness.silent (TaskContext.warn args)).
Proof.
  intros c Hp. split; [repeat split|]. split; [intros H; exact H|].
  split; [intros H; exact H|]. exists []. split; [|reflexivity].
  cbn. rewrite app_nil_r. reflexivity.
Qed.

Lemma tracked_onStateUpdate e : tracked (TaskContext.onStateUpdate e).
Proof.
  intros c Hp. unfold TaskContext.onStateUpdate.
  destruct (_ && _);
    [destruct (summary _)|]; cbn [fst snd];
    (split; [repeat split|]); (split; [intros H; exact H|]);
    (split; [intros H; exact H|]); exists [];
    (split; [cbn; rewrite app_nil_r; reflexivity | apply sublist_nil_l]).
Qed.

Lemma table_wf_put k task m :
  table_wf m -> task_wf k task -> table_wf (TaskManager.put k task m).
Proof.
  intros Hm Ht k' task' Hk. unfold TaskManager.put in Hk. simpl in Hk.
  destruct (decide (k' = k)) as [->|Hne].
  - rewrite lookup_insert_eq in Hk. injection Hk as <-. exact Ht.
  - rewrite lookup_insert_ne in Hk by congruence. exact (Hm k' task' Hk).
Qed.

Lemma on_context_wf time op k task :
  tracked op -> task_wf k task -> task_wf k (TaskManager.on_context time op task).
Proof.
  intros Hop [Hid Hcid Hp Hc Hi Hh Hr Hl Hn Hcn].
  destruct (Hop (TaskManager.context task) Hp)
    as ((I1 & I2 & I3 & I4 & I5 & I6) & Hlis & Hst & extra & Hrep & Hsub).
  unfold TaskManager.on_context.
  destruct (op (TaskManager.context task)) as [c ps]. cbn [fst snd] in *.
  pose proof (deliver_fields time ps (TaskManager.set_context c task))
    as (D1 & D2 & D3 & D4 & D5 & D6).
  cbv zeta in D1, D2, D3, D4, D5, D6.
  constructor; rewrite ?D1, ?D2, ?D3, ?D5, ?D6;
    cbn [TaskManager.set_context TaskManager.id TaskManager.context
         TaskManager.status TaskManager.logs TaskManager.progressHistory];
    try congruence.
  - rewrite Hrep. apply sublist_app; assumption.
  - intros Ht. apply Hlis, Hr, Ht.
  - apply Hst, Hcn.
Qed.

Lemma ctx_call_wf e taskId op m :
  tracked op -> table_wf m -> table_wf (Harness.ctx_call e taskId op m).
Proof.
  intros Hop Hm. unfold Harness.ctx_call.
  destruct (TaskManager.tasks m !! taskId) as [task|] eqn:Hid; [|exact Hm].
  apply table_wf_put; [exact Hm|]. apply on_context_wf; [exact Hop|].
  exact (Hm taskId task Hid).
Qed.

(** A change of the context that keeps what the record relies on. *)
Lemma set_context_wf k task c :
  task_wf k task ->
  same_identity (TaskManager.context task) c ->
  TaskContext.progressReports c
  = TaskContext.progressReports (TaskManager.context task) ->
  (TaskContext.stateListener (TaskManager.context task) = false ->
   TaskContext.stateListener c = false) ->
  TaskContext.status c <> LPaused ->
  task_wf k (TaskManager.set_context c task).
Proof.
  intros [Hid Hcid Hp Hc Hi Hh Hr Hl Hn Hcn] (I1 & I2 & I3 & I4 & I5 & I6)
    Hrep Hlis Hst.
  constructor;
    cbn [TaskManager.set_context TaskManager.id TaskManager.context
         TaskManager.status TaskManager.logs TaskManager.progressHistory];
    try congruence.
  intros Ht. apply Hlis, Hr, Ht.
Qed.

Lemma set_status_wf k task s time :
  task_wf k task -> s <> Paused ->
  (terminal s = true ->
   TaskContext.stateListener (TaskManager.context task) = false) ->
  task_wf k (TaskManager.set_status s time task).
Proof.
  intros [Hid Hcid Hp Hc Hi Hh Hr Hl Hn Hcn] Hs Hrel.
  constructor;
    cbn [TaskManager.set_status TaskManager.id TaskManager.context
         TaskManager.status TaskManager.logs TaskManager.progressHistory];
    assumption.
Qed.

Lemma set_pending_wf k task p :
  task_wf k task -> task_wf k (TaskManager.set_pending p task).
Proof. intros [Hid Hcid Hp Hc Hi Hh Hr Hl Hn Hcn]. constructor; assumption. Qed.

(** Marking a task with a terminal status and releasing its
    subscription, with a context operation in between. *)
Lemma finish_wf k task s time op :
  task_wf k task -> s <> Paused -> tracked op ->
  let task2 := TaskManager.on_context time op (TaskManager.set_status s time task) in
  task_wf k
    (TaskManager.set_context (TaskContext.cleanup (TaskManager.context task2)) task2).
Proof.
  intros [Hid Hcid Hp Hc Hi Hh Hr Hl Hn Hcn] Hs Hop task2. subst task2.
  destruct (Hop (TaskManager.context task) Hp)
    as ((I1 & I2 & I3 & I4 & I5 & I6) & Hlis & Hst & extra & Hrep & Hsub).
  unfold TaskManager.on_context. cbn [TaskManager.set_status TaskManager.context].
  destruct (op (TaskManager.context task)) as [c ps]. cbn [fst snd] in *.
  match goal with
  | |- context [TaskManager.deliver time ps ?t] =>
      pose proof (deliver_fields time ps t) as (D1 & D2 & D3 & D4 & D5 & D6)
  end.
  cbv zeta in D1, D2, D3, D4, D5, D6.
  constructor;
    cbn [TaskManager.set_context TaskManager.id TaskManager.context
         TaskManager.status TaskManager.logs TaskManager.progressHistory
         TaskContext.cleanup TaskContext.taskId TaskContext.onProgress
         TaskContext.onCheckpoint TaskContext.progressInterval
         TaskContext.progressReports TaskContext.stateListener TaskContext.status];
    rewrite ?D1, ?D2, ?D3, ?D5, ?D6;
    cbn [TaskManager.set_context TaskManager.set_status TaskManager.id
         TaskManager.context TaskManager.status TaskManager.logs
         TaskManager.progressHistory];
    try congruence.
  - rewrite Hrep. apply sublist_app; assumption.
  - apply Hst, Hcn.
Qed.

Lemma completeTask_wf e taskId result m :
  table_wf m -> table_wf (TaskManager.completeTask e taskId result m).
Proof.
  intros Hm. unfold TaskManager.completeTask.
  destruct (TaskManager.tasks m !! taskId) as [task|] eqn:Hid; [|exact Hm].
  apply table_wf_put; [exact Hm|].
  apply (finish_wf taskId task Completed (now e) (TaskContext.complete e result));
    [exact (Hm taskId task Hid) | discriminate | apply tracked_complete].
Qed.

Lemma failTask_wf e taskId error m :
  table_wf m -> table_wf (TaskManager.failTask e taskId error m).
Proof.
  intros Hm. unfold TaskManager.failTask.
  destruct (TaskManager.tasks m !! taskId) as [task|] eqn:Hid; [|exact Hm].
  apply table_wf_put; [exact Hm|].
  apply (finish_wf taskId task Failed (now e) (TaskContext.fail e error));
    [exact (Hm taskId task Hid) | discriminate | apply tracked_fail].
Qed.

Lemma on_throw_wf e taskId error m :
  table_wf m -> table_wf (Harness.on_throw e taskId error m).
Proof.
  intros Hm. unfold Harness.on_throw.
  destruct (TaskManager.tasks m !! taskId) as [task|]; [|exact Hm].
  destruct (decide _); [exact Hm|].
  destruct (message_of error); [apply failTask_wf, Hm | exact Hm].
Qed.

Lemma handleCheckpoint_wf e taskId st k m :
  table_wf m -> table_wf (TaskManager.handleCheckpoint e taskId st k m).2.
Proof.
  intros Hm. unfold TaskManager.handleCheckpoint.
  destruct (TaskManager.tasks m !! taskId) as [task|] eqn:Hid; [|exact Hm].
  apply table_wf_put; [exact Hm|]. apply set_pending_wf.
  apply set_status_wf; [exact (Hm taskId task Hid) | discriminate | discriminate].
Qed.

Lemma checkpoint_enter_wf e reason k task :
  task_wf k task ->
  task_wf k
    (TaskManager.set_context
       (TaskContext.checkpoint_enter e reason (TaskManager.context task)).1 task).
Proof.
  intros Ht. apply set_context_wf; try exact Ht.
  - repeat split.
  - reflexivity.
  - intros H. exact H.
  - exact (wf_ctx_not_paused _ _ Ht).
Qed.

Lemma checkpoint_settle_wf o k task :
  task_wf k task ->
  task_wf k
    (TaskManager.set_context
       (TaskContext.checkpoint_settle o (TaskManager.context task)).2 task).
Proof.
  intros Ht.
  pose proof (checkpoint_settle_fields o (TaskManager.context task))
    as (Hid & _ & _ & _ & Hrep & Hlis & _).
  pose proof (checkpoint_settle_status o (TaskManager.context task))
    as (Hst & _).
  apply set_context_wf; try assumption.
  - intros H. cbv zeta in Hlis. rewrite Hlis. exact H.
  - cbv zeta in Hst. rewrite Hst.
    destruct (asks_abort o); [discriminate | exact (wf_ctx_not_paused _ _ Ht)].
Qed.

Lemma run_body_wf e taskId b :
  forall m, table_wf m -> table_wf (Harness.run_body e taskId b m).
Proof.
  induction b as [result | error | | reason k IH | reason k IH | a k IH | p k IH
                 | args k IH | args k IH | k IH]; intros m Hm;
    cbn [Harness.run_body].
  - apply completeTask_wf, Hm.
  - apply on_throw_wf, Hm.
  - exact Hm.
  - destruct (TaskManager.tasks m !! taskId) as [task|] eqn:Hid; [|exact Hm].
    pose proof (checkpoint_enter_wf e reason taskId task (Hm taskId task Hid)) as H1.
    destruct (TaskContext.checkpoint_enter e reason (TaskManager.context task))
      as [c1 st]. cbn [fst] in H1.
    assert (Hm1 : table_wf (TaskManager.put taskId (TaskManager.set_context c1 task) m))
      by (apply table_wf_put; assumption).
    destruct (TaskContext.onCheckpoint c1); [|apply IH; exact Hm1].
    unfold TaskManager.handleCheckpoint.
    cbn [TaskManager.tasks TaskManager.put]. rewrite lookup_insert_eq.
    apply table_wf_put; [exact Hm1|].
    apply set_pending_wf. apply set_status_wf; [exact H1 | discriminate | discriminate].
  - destruct (TaskManager.tasks m !! taskId) as [task|] eqn:Hid; [|exact Hm].
    pose proof (checkpoint_enter_wf e reason taskId task (Hm taskId task Hid)) as H1.
    destruct (TaskContext.checkpoint_enter e reason (TaskManager.context task))
      as [c1 st]. cbn [fst] in H1.
    assert (Hm1 : table_wf (TaskManager.put taskId (TaskManager.set_context c1 task) m))
      by (apply table_wf_put; assumption).
    destruct (TaskContext.onCheckpoint c1); apply IH; [|exact Hm1].
    apply handleCheckpoint_wf. exact Hm1.
  - apply IH. apply ctx_call_wf; [apply tracked_setAction | exact Hm].
  - apply IH. apply ctx_call_wf; [apply tracked_reportProgress | exact Hm].
  - apply IH. apply ctx_call_wf; [apply tracked_silent_log | exact Hm].
  - apply IH. apply ctx_call_wf; [apply tracked_silent_warn | exact Hm].
  - destruct (TaskManager.tasks m !! taskId) as [task|]; [apply IH|]; exact Hm.
Qed.

Lemma run_job_wf e j m : table_wf m -> table_wf (Harness.run_job e m j).
Proof.
  intros Hm. unfold Harness.run_job.
  destruct (TaskManager.tasks m !! job_task j) as [task|] eqn:Hid; [|exact Hm].
  pose proof (checkpoint_settle_wf (Fulfilled (job_result j)) _ task
                (Hm _ task Hid)) as H1.
  destruct (TaskContext.checkpoint_settle _ _) as [res c]. cbn [snd] in H1.
  assert (Hm1 : table_wf (TaskManager.put (job_task j)
                            (TaskManager.set_context c task) m))
    by (apply table_wf_put; assumption).
  destruct res; [apply run_body_wf | apply on_throw_wf]; exact Hm1.
Qed.

Lemma continue_task_wf e taskId instructions m :
  table_wf m -> table_wf (Harness.continue_task e taskId instructions m).
Proof.
  intros Hm. unfold Harness.continue_task, TaskManager.getTaskStatus,
    TaskManager.continueTask.
  destruct (TaskManager.tasks m !! taskId) as [task|] eqn:Hid; [|exact Hm].
  destruct (decide _); [|exact Hm].
  destruct (TaskManager.pendingCheckpoint task) as [pending|]; [|exact Hm].
  unfold Harness.run_jobs. cbn [fold_left].
  apply run_job_wf. apply table_wf_put; [exact Hm|].
  apply set_status_wf; [|discriminate | discriminate].
  apply set_pending_wf. exact (Hm taskId task Hid).
Qed.

Lemma abort_task_wf e taskId reason m :
  table_wf m -> table_wf (Harness.abort_task e taskId reason m).
Proof.
  intros Hm. unfold Harness.abort_task, TaskManager.abortTask.
  destruct (TaskManager.tasks m !! taskId) as [task|] eqn:Hid; [|exact Hm].
  cbn [TaskManager.pendingCheckpoint TaskManager.set_status].
  destruct (Hm taskId task Hid) as [Hid' Hcid Hp Hc Hi Hh Hr Hl Hn Hcn].
  destruct (TaskManager.pendingCheckpoint task) as [pending|].
  - unfold Harness.run_jobs. cbn [fold_left].
    apply run_job_wf. apply table_wf_put; [exact Hm|].
    constructor; cbn; try assumption; try discriminate. intros _. reflexivity.
  - rewrite run_jobs_nil. apply table_wf_put; [exact Hm|].
    constructor; cbn; try assumption; try discriminate. intros _. reflexivity.
Qed.

Lemma run_task_wf e bot code desc body m :
  table_wf m -> table_wf (Harness.run_task e bot code desc body m).
Proof.
  intros Hm. unfold Harness.run_task, TaskManager.startTask,
    TaskManager.generateTaskId.
  apply run_body_wf. apply table_wf_put.
  - intros k task Hk. exact (Hm k task Hk).
  - constructor; cbn; try reflexivity; try discriminate.
Qed.

Lemma handle_wf m step : table_wf m -> table_wf (Harness.handle m step).
Proof.
  intros Hm. destruct step as [e [bot code desc body | taskId instructions
                                 | taskId reason | maxAgeMs | taskId
                                 | taskId body]];
    cbn [Harness.handle]; cycle 5.
  - apply run_body_wf, Hm.
  - apply run_task_wf, Hm.
  - apply continue_task_wf, Hm.
  - apply abort_task_wf, Hm.
  - intros k task Hk.
    apply (proj1 (cleanup_evicts_lookup e maxAgeMs m k task)) in Hk as [Hk _].
    exact (Hm k task Hk).
  - apply ctx_call_wf; [apply tracked_onStateUpdate | exact Hm].
Qed.

Lemma reachable_wf m : Harness.reachable m -> table_wf m.
Proof.
  intros [trace ->]. unfold Harness.run.
  apply (fold_left_inv table_wf).
  - intros k task Hk. simpl in Hk. rewrite lookup_empty in Hk. discriminate.
  - intros m step _. apply handle_wf.
Qed.

(** X20.  In every state the system can reach, each record of the table
    is filed under its own identifier, which is also the identifier of
    its context; its [logs] field is empty (the log lines are kept by
    the context); neither the record nor its context ever has the
    status "paused"; every report in the history of the context is in
    the history of the record, in the same order; and the context of a
    completed, failed or aborted task has released its state
    subscription.  A record that awaits feedback holds a pending
    checkpoint, and a running or aborted one holds none; a pending
    checkpoint is held only by a record that awaits feedback, or by a
    completed or failed one (its body finished while a checkpoint it
    had not awaited was open). *)
Theorem reachable_records (m : TaskManager.t) (k : string)
    (task : TaskManager.RunningTask) :
  Harness.reachable m ->
  TaskManager.tasks m !! k = Some task ->
  TaskManager.id task = k
  /\ TaskContext.taskId (TaskManager.context task) = k
  /\ TaskManager.logs task = []
  /\ TaskManager.status task <> Paused
  /\ TaskContext.status (TaskManager.context task) <> LPaused
  /\ TaskContext.progressReports (TaskManager.context task)
       `sublist_of` TaskManager.progressHistory task
  /\ (terminal (TaskManager.status task) = true ->
      TaskContext.stateListener (TaskManager.context task) = false)
  /\ TaskContext.progressInterval (TaskManager.context task) = 5000
  /\ (TaskManager.status task = AwaitingFeedback ->
      is_Some (TaskManager.pendingCheckpoint task))
  /\ (TaskManager.status task = Running \/ TaskManager.status task = Aborted ->
      TaskManager.pendingCheckpoint task = None)
  /\ (is_Some (TaskManager.pendingCheckpoint task) ->
      TaskManager.status task = AwaitingFeedback
      \/ TaskManager.status task = Completed
      \/ TaskManager.status task = Failed).
Proof.
  intros Hreach Hk.
  destruct (reachable_wf m Hreach k task Hk) as [Hid Hcid Hp Hc Hi Hh Hr Hl Hn Hcn].
  destruct (reachable_sound m Hreach k task Hk) as [Hwait Hrec].
  split_and!; try assumption.
  intros Hst.
  destruct (TaskManager.pendingCheckpoint task) as [pending|]; [|reflexivity].
  destruct Hrec as [H | [H | H]]; [eauto | | |];
    destruct Hst as [H' | H']; congruence.
Qed.

Lemma reachable_records_witness :
  let e := mkEnv 1000 None "" in
  let m := Harness.run [(e, Harness.RunTask "bot" "code" "first" (Done None))] in
  exists task,
    TaskManager.tasks m !! "task-1-rs" = Some task
    /\ TaskManager.logs task = []
    /\ TaskContext.stateListener (TaskManager.context task) = false.
Proof.
  intros e m. eexists. split; [vm_compute; reflexivity|].
  pose proof (reachable_records m "task-1-rs" _
                (ex_intro _ [(e, Harness.RunTask "bot" "code" "first" (Done None))]
                   eq_refl)
                eq_refl) as (_ & _ & H1 & _ & _ & _ & H2 & _).
  split; [exact H1 | apply H2; reflexivity].
Defined.

(** ** Aborting and finishing, in any state of the table *)

(** X21.  [abortTask] raises "not found" for an unknown task and then
    changes nothing.  A known task is marked aborted whatever its
    status was, its pending checkpoint, if any, is answered with
    [{ continue: false, abort: true }] and a reason that is never empty
    ("Task aborted by user" by default) and is cleared, and its context
    releases the state subscription.  The call itself does not touch
    the liveness of the context: a task that is not at a checkpoint
    keeps a context that answers [shouldContinue] as before. *)
Theorem abortTask_effect (e : Env) (taskId : string) (reason : option string)
    (m : TaskManager.t) :
  let out := TaskManager.abortTask e taskId reason m in
  (TaskManager.tasks m !! taskId = None ->
   out = (Raised (TaskManager.not_found taskId), m, []))
  /\ (forall task,
        TaskManager.tasks m !! taskId = Some task ->
        exists task',
          out.1.1 = Returned tt
          /\ TaskManager.tasks out.1.2 !! taskId = Some task'
          /\ TaskManager.status task' = Aborted
          /\ TaskManager.lastUpdate task' = now e
          /\ TaskManager.pendingCheckpoint task' = None
          /\ TaskManager.context task'
             = TaskContext.cleanup (TaskManager.context task)
          /\ TaskContext.status (TaskManager.context task')
             = TaskContext.status (TaskManager.context task)
          /\ TaskContext.shouldContinue (TaskManager.context task')
             = TaskContext.shouldContinue (TaskManager.context task)
          /\ TaskManager.progressHistory task' = TaskManager.progressHistory task
          /\ out.2
             = match TaskManager.pendingCheckpoint task with
               | Some pending =>
                   [mkJob taskId (TaskManager.abort_result reason)
                      (pc_resolve pending)]
               | None => []
               end
          /\ (TaskManager.pendingCheckpoint task = None ->
              Harness.abort_task e taskId reason m = out.1.2))
  /\ cr_continue (TaskManager.abort_result reason) = false
  /\ TaskContext.aborts (TaskManager.abort_result reason) = true
  /\ cr_abortReason (TaskManager.abort_result reason)
     = Some (match reason with
             | Some (String a s) => String a s
             | _ => "Task aborted by user"
             end).
Proof.
  intros out. subst out. unfold TaskManager.abortTask. split_and!.
  - intros Hid. rewrite Hid. reflexivity.
  - intros task Hid. unfold Harness.abort_task, TaskManager.abortTask.
    rewrite Hid. cbn [TaskManager.pendingCheckpoint TaskManager.set_status].
    destruct (TaskManager.pendingCheckpoint task) as [pending|] eqn:Hp;
      eexists; cbn [fst snd TaskManager.put TaskManager.tasks];
      rewrite lookup_insert_eq;
      split_and!;
      first [reflexivity | exact Hp | intros [=] | intros _; reflexivity].
  - reflexivity.
  - reflexivity.
  - destruct reason as [[|a s]|]; reflexivity.
Qed.

(** X22.  [completeTask] and [failTask] do nothing for an unknown task.
    For a known one, whatever its status was, the record is marked
    completed (failed), its context is marked likewise and releases the
    state subscription, and one closing report under the current action
    is appended to the history of the context and, when the context has
    a progress listener, to the history of the record; [failTask]
    stores the error text on the context, or the absence of one when
    it is handed [undefined], and [completeTask] keeps the error that
    was there.  The pending checkpoint of the record is not touched. *)
Theorem finishing_marks (e : Env) (taskId : string) (m : TaskManager.t) :
  (TaskManager.tasks m !! taskId = None ->
   (forall result, TaskManager.completeTask e taskId result m = m)
   /\ (forall error, TaskManager.failTask e taskId error m = m))
  /\ (forall task result,
        TaskManager.tasks m !! taskId = Some task ->
        let ctx := TaskManager.context task in
        let report := mkProgress (TaskContext.currentAction ctx) PCompleted None
                        (Some "Task completed") result in
        exists task',
          TaskManager.tasks (TaskManager.completeTask e taskId result m) !! taskId
          = Some task'
          /\ TaskManager.status task' = Completed
          /\ TaskManager.lastUpdate task' = now e
          /\ TaskContext.status (TaskManager.context task') = LCompleted
          /\ TaskContext.stateListener (TaskManager.context task') = false
          /\ TaskContext.abortReason (TaskManager.context task')
             = TaskContext.abortReason ctx
          /\ TaskContext.progressReports (TaskManager.context task')
             = (TaskContext.progressReports ctx ++ [report])%list
          /\ TaskManager.progressHistory task'
             = (TaskManager.progressHistory task
                ++ if TaskContext.onProgress ctx then [report] else [])%list
          /\ TaskManager.pendingCheckpoint task'
             = TaskManager.pendingCheckpoint task)
  /\ (forall task error,
        TaskManager.tasks m !! taskId = Some task ->
        let ctx := TaskManager.context task in
        let report := mkProgress (TaskContext.currentAction ctx) PFailed None
                        error None in
        exists task',
          TaskManager.tasks (TaskManager.failTask e taskId error m) !! taskId
          = Some task'
          /\ TaskManager.status task' = Failed
          /\ TaskManager.lastUpdate task' = now e
          /\ TaskContext.status (TaskManager.context task') = LFailed
          /\ TaskContext.stateListener (TaskManager.context task') = false
          /\ TaskContext.abortReason (TaskManager.context task') = error
          /\ TaskContext.progressReports (TaskManager.context task')
             = (TaskContext.progressReports ctx ++ [report])%list
          /\ TaskManager.progressHistory task'
             = (TaskManager.progressHistory task
                ++ if TaskContext.onProgress ctx then [report] else [])%list
          /\ TaskManager.pendingCheckpoint task'
             = TaskManager.pendingCheckpoint task).
Proof.
  split_and!.
  - intros Hid. unfold TaskManager.completeTask, TaskManager.failTask.
    rewrite Hid. split; reflexivity.
  - intros task result Hid ctx report. subst ctx report.
    unfold TaskManager.completeTask. rewrite Hid.
    cbn [TaskManager.put TaskManager.tasks]. rewrite lookup_insert_eq.
    eexists. split; [reflexivity|].
    unfold TaskManager.on_context.
    cbn [TaskManager.set_status TaskManager.context TaskContext.complete
         TaskContext.reportProgress].
    unfold TaskContext.emit.
    cbn [TaskContext.set_status TaskContext.onProgress TaskContext.currentAction].
    destruct (TaskContext.onProgress (TaskManager.context task));
      cbn; rewrite ?app_nil_r; split_and!; reflexivity.
  - intros task error Hid ctx report. subst ctx report.
    unfold TaskManager.failTask. rewrite Hid.
    cbn [TaskManager.put TaskManager.tasks]. rewrite lookup_insert_eq.
    eexists. split; [reflexivity|].
    unfold TaskManager.on_context.
    cbn [TaskManager.set_status TaskManager.context TaskContext.fail
         TaskContext.reportProgress].
    unfold TaskContext.emit.
    cbn [TaskContext.set_status TaskContext.onProgress TaskContext.currentAction].
    destruct (TaskContext.onProgress (TaskManager.context task));
      cbn; rewrite ?app_nil_r; split_and!; reflexivity.
Qed.

(** ** How a run of a body ends *)

Lemma completeTask_known e taskId result m task :
  TaskManager.tasks m !! taskId = Some task ->
  exists task',
    TaskManager.tasks (TaskManager.completeTask e taskId result m) !! taskId
    = Some task'
    /\ TaskManager.status task' = Completed
    /\ TaskContext.status (TaskManager.context task') = LCompleted
    /\ TaskManager.pendingCheckpoint task' = TaskManager.pendingCheckpoint task.
Proof.
  intros Hid. unfold TaskManager.completeTask. rewrite Hid.
  cbn [TaskManager.put TaskManager.tasks]. rewrite lookup_insert_eq.
  eexists. split; [reflexivity|].
  unfold TaskManager.on_context.
  cbn [TaskManager.set_status TaskManager.context TaskContext.complete
       TaskContext.reportProgress].
  match goal with
  | |- context [TaskManager.deliver ?t ?ps ?k] =>
      pose proof (deliver_fields t ps k) as (_ & D2 & D3 & D4 & _)
  end.
  cbv zeta in D2, D3, D4.
  cbn [TaskManager.set_context TaskManager.status TaskManager.context
       TaskManager.pendingCheckpoint].
  rewrite D2, D3, D4. split_and!; reflexivity.
Qed.

Lemma failTask_known e taskId error m task :
  TaskManager.tasks m !! taskId = Some task ->
  exists task',
    TaskManager.tasks (TaskManager.failTask e taskId error m) !! taskId
    = Some task'
    /\ TaskManager.status task' = Failed
    /\ TaskContext.status (TaskManager.context task') = LFailed
    /\ TaskContext.abortReason (TaskManager.context task') = error
    /\ TaskManager.pendingCheckpoint task' = TaskManager.pendingCheckpoint task.
Proof.
  intros Hid. unfold TaskManager.failTask. rewrite Hid.
  cbn [TaskManager.put TaskManager.tasks]. rewrite lookup_insert_eq.
  eexists. split; [reflexivity|].
  unfold TaskManager.on_context.
  cbn [TaskManager.set_status TaskManager.context TaskContext.fail
       TaskContext.reportProgress].
  match goal with
  | |- context [TaskManager.deliver ?t ?ps ?k] =>
      pose proof (deliver_fields t ps k) as (_ & D2 & D3 & D4 & _)
  end.
  cbv zeta in D2, D3, D4.
  cbn [TaskManager.set_context TaskManager.status TaskManager.context
       TaskManager.pendingCheckpoint].
  rewrite D2, D3, D4. split_and!; reflexivity.
Qed.

(** How a run of a piece of a body leaves the record of its task, seen
    from the record [task] it started with. *)
Lemma settled_from_waiting (task cur task' : TaskManager.RunningTask) :
  TaskManager.status cur = AwaitingFeedback ->
  is_Some (TaskManager.pendingCheckpoint cur) ->
  settled cur task' -> settled task task'.
Proof.
  intros Hs Hp [H | [H | [H | [H1 H2]]]].
  - left. exact H.
  - right. left. exact H.
  - right. right. left. exact H.
  - right. right. left. split; congruence.
Qed.

Lemma settled_from_same (task cur task' : TaskManager.RunningTask) :
  TaskManager.status cur = TaskManager.status task ->
  TaskManager.pendingCheckpoint cur = TaskManager.pendingCheckpoint task ->
  settled cur task' -> settled task task'.
Proof.
  intros Hs Hp [H | [H | [H | [H1 H2]]]].
  - left. exact H.
  - right. left. exact H.
  - right. right. left. exact H.
  - right. right. right. split; congruence.
Qed.

Lemma put_lookup taskId task m :
  TaskManager.tasks (TaskManager.put taskId task m) !! taskId = Some task.
Proof. apply lookup_insert_eq. Qed.

Lemma run_body_settled (e : Env) (taskId : string) (body : Body) :
  forall (m : TaskManager.t) (task : TaskManager.RunningTask),
  TaskManager.tasks m !! taskId = Some task ->
  exists task',
    TaskManager.tasks (Harness.run_body e taskId body m) !! taskId = Some task'
    /\ settled task task'.
Proof.
  induction body as [result | error | | reason k IH | reason k IH | a k IH | p k IH
                    | args k IH | args k IH | k IH]; intros m task Hid;
    cbn [Harness.run_body].
  - destruct (completeTask_known e taskId result m task Hid)
      as (task' & Hk & H1 & H2 & H3).
    exists task'. split; [exact Hk|]. left. split; assumption.
  - unfold Harness.on_throw. rewrite Hid.
    destruct (decide _) as [Heq|_];
      [exists task; split; [exact Hid | do 3 right; split; reflexivity]|].
    destruct (message_of error) as [message|type_err];
      [|exists task; split; [exact Hid | do 3 right; split; reflexivity]].
    destruct (failTask_known e taskId message m task Hid)
      as (task' & Hk & H1 & H2 & H3 & H4).
    exists task'. split; [exact Hk|]. right. left. split; assumption.
  - exists task. split; [exact Hid | do 3 right; split; reflexivity].
  - rewrite Hid.
    destruct (TaskContext.checkpoint_enter e reason (TaskManager.context task))
      as [c1 st].
    destruct (TaskContext.onCheckpoint c1).
    + unfold TaskManager.handleCheckpoint.
      cbn [TaskManager.tasks TaskManager.put]. rewrite lookup_insert_eq.
      cbn [TaskManager.tasks TaskManager.put]. rewrite lookup_insert_eq.
      eexists. split; [reflexivity|]. right. right. left. split; [reflexivity|].
      cbn. eauto.
    + destruct (IH TaskContext.continue_result _ (TaskManager.set_context c1 task)
                  (put_lookup taskId _ m)) as (task' & Hk & Hset).
      exists task'. split; [exact Hk|].
      exact (settled_from_same task _ task' eq_refl eq_refl Hset).
  - rewrite Hid.
    destruct (TaskContext.checkpoint_enter e reason (TaskManager.context task))
      as [c1 st].
    destruct (TaskContext.onCheckpoint c1).
    + unfold TaskManager.handleCheckpoint.
      cbn [TaskManager.tasks TaskManager.put]. rewrite lookup_insert_eq.
      cbn [snd].
      match goal with
      | |- context [Harness.run_body e taskId k (TaskManager.put taskId ?t ?m0)] =>
          destruct (IH (TaskManager.put taskId t m0) t (put_lookup taskId t m0))
            as (task' & Hk & Hset)
      end.
      exists task'. split; [exact Hk|].
      refine (settled_from_waiting task _ task' _ _ Hset); [reflexivity | cbn; eauto].
    + destruct (IH _ (TaskManager.set_context c1 task) (put_lookup taskId _ m))
        as (task' & Hk & Hset).
      exists task'. split; [exact Hk|].
      exact (settled_from_same task _ task' eq_refl eq_refl Hset).
  - unfold Harness.ctx_call. rewrite Hid.
    destruct (on_context_shape (now e) (TaskContext.setAction e a) task) as [Hs' Hp'].
    destruct (IH _ (TaskManager.on_context (now e) (TaskContext.setAction e a) task)
                (put_lookup taskId _ m)) as (task' & Hk & Hset).
    exists task'. split; [exact Hk|].
    exact (settled_from_same task _ task' Hs' Hp' Hset).
  - unfold Harness.ctx_call. rewrite Hid.
    destruct (on_context_shape (now e) (TaskContext.reportProgress e p) task)
      as [Hs' Hp'].
    destruct (IH _ (TaskManager.on_context (now e) (TaskContext.reportProgress e p) task)
                (put_lookup taskId _ m)) as (task' & Hk & Hset).
    exists task'. split; [exact Hk|].
    exact (settled_from_same task _ task' Hs' Hp' Hset).
  - unfold Harness.ctx_call. rewrite Hid.
    destruct (on_context_shape (now e) (Harness.silent (TaskContext.log args)) task)
      as [Hs' Hp'].
    destruct (IH _ (TaskManager.on_context (now e)
                      (Harness.silent (TaskContext.log args)) task)
                (put_lookup taskId _ m)) as (task' & Hk & Hset).
    exists task'. split; [exact Hk|].
    exact (settled_from_same task _ task' Hs' Hp' Hset).
  - unfold Harness.ctx_call. rewrite Hid.
    destruct (on_context_shape (now e) (Harness.silent (TaskContext.warn args)) task)
      as [Hs' Hp'].
    destruct (IH _ (TaskManager.on_context (now e)
                      (Harness.silent (TaskContext.warn args)) task)
                (put_lookup taskId _ m)) as (task' & Hk & Hset).
    exists task'. split; [exact Hk|].
    exact (settled_from_same task _ task' Hs' Hp' Hset).
  - rewrite Hid. apply (IH _ m task Hid).
Qed.

(** X23.  A piece of the body of a task that is in the table, run until
    it finishes, suspends at a checkpoint or waits for something else,
    leaves the task in one of four states and no other: completed,
    with a context marked completed (the body returned); failed, with
    a context marked failed (the body raised something whose [message]
    can be read); awaiting feedback, with a pending checkpoint in
    place; or with the status and the pending record it had before.
    The last is the case of a body that waits for something else, and
    of one that throws [null] or [undefined]: the [catch] of the
    execution wrapper raises on reading [error.message], so
    [failTask] is never called and the table stays exactly as it was.
    A raise while the task awaits feedback changes nothing either.
    Otherwise a raise fails the task with the [message] of what was
    thrown as its error, which is missing when the thrown value is not
    an error object (a string, say); and a return completes the task
    and keeps its pending record. *)
Theorem body_settles (e : Env) (taskId : string) (body : Body)
    (m : TaskManager.t) (task : TaskManager.RunningTask) :
  TaskManager.tasks m !! taskId = Some task ->
  (exists task',
     TaskManager.tasks (Harness.run_body e taskId body m) !! taskId = Some task'
     /\ ((TaskManager.status task' = Completed
          /\ TaskContext.status (TaskManager.context task') = LCompleted)
         \/ (TaskManager.status task' = Failed
             /\ TaskContext.status (TaskManager.context task') = LFailed)
         \/ (TaskManager.status task' = AwaitingFeedback
             /\ is_Some (TaskManager.pendingCheckpoint task'))
         \/ (TaskManager.status task' = TaskManager.status task
             /\ TaskManager.pendingCheckpoint task'
                = TaskManager.pendingCheckpoint task)))
  /\ (forall thrown,
        thrown = ThrownNull \/ thrown = ThrownValue VUndefined ->
        Harness.run_body e taskId (Throw thrown) m = m)
  /\ (forall thrown,
        TaskManager.status task = AwaitingFeedback ->
        Harness.run_body e taskId (Throw thrown) m = m)
  /\ (forall thrown message,
        TaskManager.status task <> AwaitingFeedback ->
        message_of thrown = Returned message ->
        exists task',
          TaskManager.tasks (Harness.run_body e taskId (Throw thrown) m) !! taskId
          = Some task'
          /\ TaskManager.status task' = Failed
          /\ TaskContext.status (TaskManager.context task') = LFailed
          /\ TaskContext.abortReason (TaskManager.context task') = message
          /\ TaskManager.pendingCheckpoint task'
             = TaskManager.pendingCheckpoint task)
  /\ (forall result,
        exists task',
          TaskManager.tasks (Harness.run_body e taskId (Done result) m) !! taskId
          = Some task'
          /\ TaskManager.status task' = Completed
          /\ TaskContext.status (TaskManager.context task') = LCompleted
          /\ TaskManager.pendingCheckpoint task'
             = TaskManager.pendingCheckpoint task).
Proof.
  intros Hid. split_and!.
  - destruct (run_body_settled e taskId body m task Hid) as (task' & Hk & Hset).
    exists task'. split; [exact Hk | exact Hset].
  - intros thrown Hthrown. cbn [Harness.run_body]. unfold Harness.on_throw.
    rewrite Hid. destruct (decide _); [reflexivity|].
    destruct Hthrown as [-> | ->]; reflexivity.
  - intros thrown Hst. cbn [Harness.run_body]. unfold Harness.on_throw.
    rewrite Hid. destruct (decide _); [reflexivity | contradiction].
  - intros thrown message Hst Hmsg. cbn [Harness.run_body].
    unfold Harness.on_throw. rewrite Hid, Hmsg.
    destruct (decide _); [contradiction|].
    exact (failTask_known e taskId message m task Hid).
  - intros result. cbn [Harness.run_body].
    exact (completeTask_known e taskId result m task Hid).
Qed.

Lemma body_settles_witness :
  let e := mkEnv 1000 None "" in
  let id := "task-1-rs" in
  let m := (TaskManager.startTask e "bot" "code" "first" None TaskManager.empty).2 in
  Harness.run_body e id (Throw ThrownNull) m = m
  /\ exists task',
       TaskManager.tasks
         (Harness.run_body e id (Throw (ThrownValue (VString "text"))) m) !! id
       = Some task'
       /\ TaskManager.status task' = Failed
       /\ TaskContext.abortReason (TaskManager.context task') = None.
Proof.
  intros e id m.
  destruct (body_settles e id (Done None) m
              (TaskManager.mkTask id "bot"
                 (TaskContext.create e id true true (Some 5000))
                 1000 "code" "first" Running 1000 None [] [])
              ltac:(vm_compute; reflexivity))
    as (_ & Hnull & _ & Hfail & _).
  split; [exact (Hnull ThrownNull (or_introl eq_refl))|].
  destruct (Hfail (ThrownValue (VString "text")) None ltac:(discriminate) eq_refl)
    as (task' & Hk & H1 & _ & H2 & _).
  exists task'. split; [exact Hk | split; [exact H1 | exact H2]].
Defined.

(** X24.  A checkpoint of a task that is no longer in the table is
    answered at once, and the table stays as it is: the answer tells
    the body not to continue, and the context that took the checkpoint
    is marked aborted with the error "Task not found". *)
Theorem checkpoint_of_unknown_task (e : Env) (taskId reason : string)
    (k : CheckpointResult -> Body) (c : TaskContext.t) (m : TaskManager.t) :
  TaskManager.tasks m !! taskId = None ->
  TaskContext.onCheckpoint c = true ->
  let handler st :=
    match (TaskManager.handleCheckpoint e taskId st k m).1 with
    | Some r => Fulfilled r
    | None => Rejected (ThrownError (mkError "pending"))
    end in
  let out := TaskContext.checkpoint e reason handler c in
  (forall st, TaskManager.handleCheckpoint e taskId st k m
              = (Some TaskManager.not_found_result, m))
  /\ out.1 = Returned TaskManager.not_found_result
  /\ cr_continue TaskManager.not_found_result = false
  /\ TaskContext.status out.2 = LAborted
  /\ TaskContext.shouldContinue out.2 = false
  /\ TaskContext.abortReason out.2 = Some "Task not found"
  /\ TaskContext.logs out.2
     = (TaskContext.logs c ++ [checkpoint_line c reason])%list.
Proof.
  intros Hid Hreg handler out.
  assert (Hh : forall st, TaskManager.handleCheckpoint e taskId st k m
                          = (Some TaskManager.not_found_result, m))
    by (intros st; unfold TaskManager.handleCheckpoint; rewrite Hid; reflexivity).
  split; [exact Hh|]. subst out. unfold TaskContext.checkpoint.
  pose proof (checkpoint_enter_fields e reason c) as (Hon & Hlogs & _).
  destruct (TaskContext.checkpoint_enter e reason c) as [c1 st].
  cbn [fst snd] in *. rewrite Hon, Hreg. subst handler. cbv beta.
  rewrite Hh. cbn [fst]. unfold checkpoint_line.
  split_and!; try reflexivity. exact Hlogs.
Qed.

Lemma checkpoint_of_unknown_task_witness :
  let e := mkEnv 1000 None "" in
  let c := TaskContext.create e "task-9-rs" true true None in
  let handler st :=
    match (TaskManager.handleCheckpoint e "task-9-rs" st (fun _ => Done None)
             TaskManager.empty).1 with
    | Some r => Fulfilled r
    | None => Rejected (ThrownError (mkError "pending"))
    end in
  TaskContext.abortReason (TaskContext.checkpoint e "A" handler c).2
  = Some "Task not found".
Proof.
  intros e c handler.
  pose proof (checkpoint_of_unknown_task e "task-9-rs" "A" (fun _ => Done None) c
                TaskManager.empty eq_refl eq_refl) as (_ & _ & _ & _ & _ & H & _).
  exact H.
Defined.

(* ===================================================================== *)
(** * Part VIII. The supervised loop                                      *)
(* ===================================================================== *)

Lemma keeps_refl c : keeps c c.
Proof. split; [apply same_identity_refl|]. split; reflexivity. Qed.

Lemma keeps_trans c1 c2 c3 : keeps c1 c2 -> keeps c2 c3 -> keeps c1 c3.
Proof.
  intros (I & A & L) (I' & A' & L'). split; [eapply same_identity_trans; eassumption|].
  split; [congruence | etransitivity; eassumption].
Qed.

Lemma keeps_reportProgress e p c :
  let c' := (TaskContext.reportProgress e p c).1 in
  keeps c c'
  /\ length (TaskContext.progressReports c')
     = S (length (TaskContext.progressReports c))
  /\ TaskContext.checkpointCount c' = TaskContext.checkpointCount c
  /\ TaskContext.shouldContinue c' = TaskContext.shouldContinue c.
Proof.
  cbv zeta. split; [split; [repeat split|]; split; [reflexivity|]|].
  - cbn. apply prefix_app_r. reflexivity.
  - cbn. rewrite length_app. cbn. split_and!; [lia | reflexivity | reflexivity].
Qed.

Lemma keeps_checkpoint e reason handler c :
  let c' := (TaskContext.checkpoint e reason handler c).2 in
  keeps c c'
  /\ TaskContext.progressReports c' = TaskContext.progressReports c
  /\ TaskContext.checkpointCount c' = TaskContext.checkpointCount c + 1.
Proof.
  cbv zeta.
  pose proof (checkpoint_reference e reason handler c) as (_ & Hid & Hcnt & Hpr & _).
  pose proof (apply_op_history e (OpCheckpoint reason handler) c)
    as (_ & _ & _ & Hlog & _).
  cbn [apply_op] in Hlog. cbv zeta in Hid, Hcnt, Hpr, Hlog.
  split; [|split; assumption]. split; [exact Hid|]. split; [|exact Hlog].
  unfold TaskContext.checkpoint.
  pose proof (checkpoint_enter_fields e reason c) as (_ & _ & _ & _ & _ & _ & Hact & _).
  destruct (TaskContext.checkpoint_enter e reason c) as [c1 st]. cbn [fst snd] in *.
  destruct (TaskContext.onCheckpoint c1); [|exact Hact].
  pose proof (checkpoint_settle_fields (handler st) c1) as (_ & _ & _ & Ha & _).
  cbv zeta in Ha. congruence.
Qed.

Lemma keeps_log_instructions feedback c :
  let c' := Patterns.log_instructions feedback c in
  keeps c c'
  /\ TaskContext.progressReports c' = TaskContext.progressReports c
  /\ TaskContext.checkpointCount c' = TaskContext.checkpointCount c.
Proof.
  cbv zeta. unfold Patterns.log_instructions.
  destruct (cr_newInstructions feedback) as [ins|];
    [destruct (truthy ins)|]; (split; [|split; reflexivity]);
    try apply keeps_refl.
  split; [repeat split|]. split; [reflexivity|].
  cbn. apply prefix_app_r. reflexivity.
Qed.

Lemma stop_check_reason lower o state i reason :
  Patterns.stop_check lower o state i = Some reason -> Patterns.stop_reason o reason.
Proof.
  unfold Patterns.stop_check, Patterns.stop_reason.
  destruct (_ && _); [intros [= <-]; auto|].
  destruct (Patterns.stopOnItemCount o) as [k|].
  - destruct (_ >=? _); [intros [= <-]; right; right; right; right; left; eauto|].
    destruct (Patterns.stopOnSkillLevel o) as [s|].
    + destruct (find_first _ _) as [skill|];
        [destruct (_ >=? _); [intros [= <-]; do 5 right; eauto|]|];
        (destruct (Patterns.stopWhen o) as [p|]; [|discriminate];
         destruct (p state i); [intros [= <-]; auto | discriminate]).
    + destruct (Patterns.stopWhen o) as [p|]; [|discriminate].
      destruct (p state i); [intros [= <-]; auto | discriminate].
  - destruct (Patterns.stopOnSkillLevel o) as [s|].
    + destruct (find_first _ _) as [skill|];
        [destruct (_ >=? _); [intros [= <-]; do 5 right; eauto|]|];
        (destruct (Patterns.stopWhen o) as [p|]; [|discriminate];
         destruct (p state i); [intros [= <-]; auto | discriminate]).
    + destruct (Patterns.stopWhen o) as [p|]; [|discriminate].
      destruct (p state i); [intros [= <-]; auto | discriminate].
Qed.

(** The [for] statement, from any iteration on: what it keeps of the
    context and how its counters are bounded by the number [n] of
    actions it performed. *)
Lemma loop_from_spec lower o name r :
  forall remaining i d c,
    let out := Patterns.loop_from lower o name r remaining i d c in
    keeps c out.2
    /\ exists n : nat,
         (n <= remaining)%nat
         /\ length (TaskContext.progressReports out.2)
            = (length (TaskContext.progressReports c) + n)%nat
         /\ TaskContext.checkpointCount c <= TaskContext.checkpointCount out.2
            <= TaskContext.checkpointCount c + Z.of_nat n
         /\ (Patterns.checkpoint_every o = 0 ->
             TaskContext.checkpointCount out.2 = TaskContext.checkpointCount c)
         /\ forall res, out.1 = Returned res ->
              d <= Patterns.completed res <= d + Z.of_nat n
              /\ Patterns.stop_reason o (Patterns.stopped res).
Proof.
  assert (Hstop : forall c d s, Patterns.stop_reason o s ->
            keeps c c
            /\ exists n : nat,
                 (n <= 0)%nat
                 /\ length (TaskContext.progressReports c)
                    = (length (TaskContext.progressReports c) + n)%nat
                 /\ TaskContext.checkpointCount c <= TaskContext.checkpointCount c
                    <= TaskContext.checkpointCount c + Z.of_nat n
                 /\ (Patterns.checkpoint_every o = 0 ->
                     TaskContext.checkpointCount c = TaskContext.checkpointCount c)
                 /\ forall res, Returned (Patterns.mkLoopResult d s) = Returned res ->
                      d <= Patterns.completed res <= d + Z.of_nat n
                      /\ Patterns.stop_reason o (Patterns.stopped res)).
  { intros c d s Hs. split; [apply keeps_refl|]. exists 0%nat.
    split_and!; try lia; try reflexivity.
    intros res [= <-]. cbn. split; [lia | exact Hs]. }
  assert (Hmax : Patterns.stop_reason o "max iterations") by (left; reflexivity).
  induction remaining as [|rest IH]; intros i d c; cbn [Patterns.loop_from].
  - cbv zeta. cbn [fst snd]. apply Hstop, Hmax.
  - cbv zeta.
    destruct (_ && _).
    2: { cbn [fst snd]. destruct (Hstop c d _ Hmax) as (K & n & Hn & R & C & Z0 & F).
         split; [exact K|]. exists n. split_and!; try assumption; lia. }
    destruct (match sdkState (Patterns.world r i) with
              | Some state => Patterns.stop_check lower o state i
              | None => None
              end) as [reason|] eqn:Hcheck.
    { assert (Hr : Patterns.stop_reason o reason).
      { destruct (sdkState (Patterns.world r i)) as [state|]; [|discriminate].
        exact (stop_check_reason lower o state i reason Hcheck). }
      cbn [fst snd]. destruct (Hstop c d _ Hr) as (K & n & Hn & R & C & Z0 & F).
      split; [exact K|]. exists n. split_and!; try assumption; lia. }
    destruct (Patterns.action r i) as [success | err].
    2: { cbn [fst snd]. split; [apply keeps_refl|]. exists 0%nat.
         split_and!; try lia; try reflexivity. intros res [=]. }
    set (d1 := if success then d + 1 else d).
    assert (Hd1 : d <= d1 <= d + 1) by (subst d1; destruct success; lia).
    pose proof (keeps_reportProgress (Patterns.world_after r i)
                  (Patterns.progress_of o name d1 success) c) as (K1 & R1 & C1 & _).
    cbv zeta in K1, R1, C1.
    set (c1 := (TaskContext.reportProgress (Patterns.world_after r i)
                  (Patterns.progress_of o name d1 success) c).1) in *.
    destruct (Patterns.checkpoint_due o (i + 1)) eqn:Hdue.
    + assert (Hce : Patterns.checkpoint_every o <> 0).
      { intros H0. unfold Patterns.checkpoint_due in Hdue. rewrite H0 in Hdue.
        discriminate Hdue. }
      pose proof (keeps_checkpoint (Patterns.world_after r i)
                    (Patterns.checkpoint_reason o ++ ": " ++ show d1 ++ " completed")%string
                    (Patterns.answer r i) c1) as (K2 & R2 & C2).
      cbv zeta in K2, R2, C2.
      destruct (TaskContext.checkpoint _ _ _ c1) as [[feedback | err] c2];
        cbn [fst snd] in *.
      * destruct (negb (cr_continue feedback)).
        -- cbn [fst snd]. split; [eapply keeps_trans; eassumption|].
           exists 1%nat. split_and!; try lia; [rewrite R2, R1; lia|].
           intros res [= <-]. cbn. split; [lia|]. do 3 right. left. reflexivity.
        -- pose proof (keeps_log_instructions feedback c2) as (K3 & R3 & C3).
           cbv zeta in K3, R3, C3.
           specialize (IH (i + 1) d1 (Patterns.log_instructions feedback c2)).
           cbv zeta in IH. destruct IH as (K4 & n & Hn & R4 & C4 & _ & F4).
           split; [eapply keeps_trans; [exact K1|];
                   eapply keeps_trans; [exact K2|];
                   eapply keeps_trans; [exact K3 | exact K4]|].
           exists (S n). split_and!; try lia.
           ++ rewrite R4, R3, R2, R1. lia.
           ++ intros res Hres. destruct (F4 res Hres) as [Hc Hs]. split; [lia | exact Hs].
      * split; [eapply keeps_trans; eassumption|].
        exists 1%nat. split_and!; try lia; [rewrite R2, R1; lia|].
        intros res [=].
    + specialize (IH (i + 1) d1 c1). cbv zeta in IH.
      destruct IH as (K4 & n & Hn & R4 & C4 & Z4 & F4).
      split; [eapply keeps_trans; eassumption|].
      exists (S n). split_and!; try lia.
      intros res Hres. destruct (F4 res Hres) as [Hc Hs]. split; [lia | exact Hs].
Qed.

(** X25.  When [loop] returns, the context carries the loop's action
    as its current action and the line "Loop finished: ..." with the
    returned count and reason as its last log line.  The number of
    actions performed is the number of progress reports beyond the
    first; the returned count of successes is at most that number,
    which is at most [maxIterations]; at most one checkpoint an action
    was taken, and none when [checkpointEvery] is 0; and the stop
    reason is one of: max iterations, inventory full, custom condition,
    aborted, or the two "reached ..." texts of the options. *)
Theorem loop_accounting (lower : string -> string) (o : Patterns.LoopOptions)
    (name : string) (r : Patterns.Run) (e0 : Env) (c c' : TaskContext.t)
    (res : Patterns.LoopResult) :
  Patterns.loop lower o name r e0 c = (Returned res, c') ->
  TaskContext.currentAction c' = name
  /\ 0 <= Patterns.completed res <= performed c c'
  /\ performed c c' <= Z.max 0 (Patterns.max_iterations o)
  /\ TaskContext.checkpointCount c <= TaskContext.checkpointCount c'
     <= TaskContext.checkpointCount c + performed c c'
  /\ (Patterns.checkpoint_every o = 0 ->
      TaskContext.checkpointCount c' = TaskContext.checkpointCount c)
  /\ Patterns.stop_reason o (Patterns.stopped res)
  /\ last (TaskContext.logs c')
     = Some ("Loop finished: " ++ show (Patterns.completed res)
             ++ " completed, stopped: " ++ Patterns.stopped res)%string
  /\ same_identity c c'
  /\ TaskContext.logs c `prefix_of` TaskContext.logs c'.
Proof.
  unfold Patterns.loop. cbv zeta.
  pose proof (loop_from_spec lower o name r (Z.to_nat (Patterns.max_iterations o))
                0 0 (TaskContext.setAction e0 name c).1)
    as ((I & A & L) & n & Hn & R & C & Z0 & F).
  cbv zeta in I, A, L, R, C, Z0, F.
  destruct (Patterns.loop_from _ _ _ _ _ _ _ _) as [[res0 | err] c1];
    [|discriminate].
  cbn [fst snd] in *. intros [= <- <-].
  destruct (F res0 eq_refl) as [Hc Hs].
  assert (Hrep : performed c (TaskContext.log
            ["Loop finished: " ++ show (Patterns.completed res0)
             ++ " completed, stopped: " ++ Patterns.stopped res0]%string c1)
          = Z.of_nat n).
  { unfold performed. cbn [TaskContext.log TaskContext.push_log
                           TaskContext.progressReports].
    rewrite R. cbn. rewrite length_app. cbn. lia. }
  rewrite Hrep.
  cbn [TaskContext.log TaskContext.push_log TaskContext.currentAction
       TaskContext.checkpointCount TaskContext.logs].
  assert (Hc0 : TaskContext.checkpointCount (TaskContext.setAction e0 name c).1
                = TaskContext.checkpointCount c) by reflexivity.
  rewrite Hc0 in C, Z0.
  split_and!; try lia; try assumption.
  - apply last_snoc.
  - etransitivity; [|apply prefix_app_r; exact L].
    cbn. apply prefix_app_r. reflexivity.
Qed.

Lemma loop_accounting_witness :
  let c := TaskContext.create (mkEnv 1000 None "") "task-1-rs" false true None in
  let out := Patterns.loop (fun s => s) two_rounds "Chop" steady_run
               (mkEnv 1000 None "") c in
  TaskContext.currentAction out.2 = "Chop"
  /\ TaskContext.checkpointCount out.2 <= 2.
Proof.
  intros c out.
  destruct out as [[res | err] c'] eqn:Hout.
  - pose proof (loop_accounting (fun s => s) two_rounds "Chop" steady_run
                  (mkEnv 1000 None "") c c' res Hout)
      as (H1 & _ & H2 & H3 & _).
    split; [exact H1|]. cbn [snd]. change (TaskContext.checkpointCount c) with 0 in H3.
    change (Z.max 0 (Patterns.max_iterations two_rounds)) with 2 in H2. lia.
  - exfalso. subst out. vm_compute in Hout. discriminate Hout.
Defined.

(** X26.  A call of [loop] on a context that is not running, or with
    [maxIterations] at most 0, performs no action and takes no
    checkpoint, whatever the surroundings would answer: it sets the
    action, logs the closing line and returns 0 completed with the
    reason "max iterations". *)
Theorem loop_idle (lower : string -> string) (o : Patterns.LoopOptions)
    (name : string) (r : Patterns.Run) (e0 : Env) (c : TaskContext.t) :
  TaskContext.shouldContinue c = false \/ Patterns.max_iterations o <= 0 ->
  let out := Patterns.loop lower o name r e0 c in
  out.1 = Returned (Patterns.mkLoopResult 0 "max iterations")
  /\ out.2
     = TaskContext.log ["Loop finished: 0 completed, stopped: max iterations"]
         (TaskContext.setAction e0 name c).1
  /\ TaskContext.checkpointCount out.2 = TaskContext.checkpointCount c
  /\ performed c out.2 = 0
  /\ (forall r', Patterns.loop lower o name r' e0 c = out).
Proof.
  intros Hidle out.
  assert (Hloop : forall r',
            Patterns.loop_from lower o name r' (Z.to_nat (Patterns.max_iterations o))
              0 0 (TaskContext.setAction e0 name c).1
            = (Returned (Patterns.mkLoopResult 0 "max iterations"),
               (TaskContext.setAction e0 name c).1)).
  { intros r'. destruct (Z.to_nat (Patterns.max_iterations o)) as [|rest] eqn:Hn;
      [reflexivity|].
    cbn [Patterns.loop_from].
    destruct Hidle as [Hs | Hmax]; [|lia].
    assert (Hs' : TaskContext.shouldContinue (TaskContext.setAction e0 name c).1
                  = false) by exact Hs.
    rewrite Hs', andb_false_r. reflexivity. }
  assert (Hout : forall r',
            Patterns.loop lower o name r' e0 c
            = (Returned (Patterns.mkLoopResult 0 "max iterations"),
               TaskContext.log ["Loop finished: 0 completed, stopped: max iterations"]
                 (TaskContext.setAction e0 name c).1)).
  { intros r'. unfold Patterns.loop. cbv zeta. rewrite Hloop. reflexivity. }
  subst out. rewrite (Hout r). cbn [fst snd].
  split_and!; try reflexivity.
  - unfold performed. cbn. rewrite length_app. cbn. lia.
  - intros r'. apply Hout.
Qed.

Lemma loop_idle_witness :
  let e := mkEnv 1000 None "" in
  let c := (TaskContext.fail e (Some "lost") (TaskContext.create e "task-1-rs" false true None)).1 in
  (Patterns.loop (fun s => s) two_rounds "Chop" steady_run e c).1
  = Returned (Patterns.mkLoopResult 0 "max iterations").
Proof.
  intros e c.
  pose proof (loop_idle (fun s => s) two_rounds "Chop" steady_run e c
                (or_introl eq_refl)) as (H & _).
  exact H.
Defined.

Lemma stop_check_not_aborted lower o state i reason :
  Patterns.stop_check lower o state i = Some reason -> reason <> "aborted".
Proof.
  unfold Patterns.stop_check.
  destruct (_ && _); [intros [= <-]; discriminate|].
  destruct (Patterns.stopOnItemCount o) as [k|];
    [destruct (_ >=? _); [intros [= <-]; discriminate|]|];
    (destruct (Patterns.stopOnSkillLevel o) as [s|];
     [destruct (find_first _ _) as [skill|];
      [destruct (_ >=? _); [intros [= <-]; discriminate|]|]|]);
    (destruct (Patterns.stopWhen o) as [p|]; [|discriminate];
     destruct (p state i); [intros [= <-]; discriminate | discriminate]).
Qed.

(** The [for] statement does not report "aborted" when every
    checkpoint answer lets it go on. *)
Lemma loop_from_continues lower o name r :
  always_continue r ->
  forall remaining i d c res,
    (Patterns.loop_from lower o name r remaining i d c).1 = Returned res ->
    Patterns.stopped res <> "aborted".
Proof.
  intros Hr. induction remaining as [|rest IH]; intros i d c res;
    cbn [Patterns.loop_from].
  - intros [= <-]. discriminate.
  - destruct (_ && _); [|intros [= <-]; discriminate].
    destruct (match sdkState (Patterns.world r i) with
              | Some state => Patterns.stop_check lower o state i
              | None => None
              end) as [reason|] eqn:Hcheck.
    { intros [= <-]. cbn.
      destruct (sdkState (Patterns.world r i)) as [state|]; [|discriminate].
      exact (stop_check_not_aborted lower o state i reason Hcheck). }
    destruct (Patterns.action r i) as [success | err]; [|discriminate].
    cbv zeta.
    destruct (Patterns.checkpoint_due o (i + 1)); [|apply IH].
    unfold TaskContext.checkpoint.
    destruct (TaskContext.checkpoint_enter _ _ _) as [c1 st].
    destruct (TaskContext.onCheckpoint c1).
    + specialize (Hr i st). unfold TaskContext.checkpoint_settle.
      destruct (Patterns.answer r i st) as [feedback | err].
      * destruct (TaskContext.aborts feedback); cbn [fst snd].
        -- rewrite Hr. cbn [negb]. apply IH.
        -- destruct (cr_newInstructions feedback) as [ins|];
             [destruct (truthy ins)|]; cbn [fst snd]; rewrite Hr; cbn [negb];
             apply IH.
      * destruct (message_of err); [|discriminate].
        cbn [fst snd TaskContext.continue_result cr_continue negb]. apply IH.
    + cbn [fst snd TaskContext.continue_result cr_continue negb]. apply IH.
Qed.

(** X27.  [loop] reports the reason "aborted" only when a checkpoint
    answer told it not to continue: when every answer says
    [continue: true] (or the handler raises, which counts as
    [continue: true] or makes the call of [loop] raise), the returned
    reason is not "aborted", whatever the stop options, the actions and
    the worlds are. *)
Theorem loop_aborted_only_on_answer (lower : string -> string)
    (o : Patterns.LoopOptions) (name : string) (r : Patterns.Run) (e0 : Env)
    (c : TaskContext.t) (res : Patterns.LoopResult) :
  always_continue r ->
  (Patterns.loop lower o name r e0 c).1 = Returned res ->
  Patterns.stopped res <> "aborted".
Proof.
  intros Hr. unfold Patterns.loop. cbv zeta.
  pose proof (loop_from_continues lower o name r Hr
                (Z.to_nat (Patterns.max_iterations o)) 0 0
                (TaskContext.setAction e0 name c).1) as H.
  destruct (Patterns.loop_from _ _ _ _ _ _ _ _) as [[res0 | err] c1];
    cbn [fst]; [|discriminate].
  intros [= <-]. apply H. reflexivity.
Qed.

Lemma loop_aborted_only_on_answer_witness :
  let e := mkEnv 1000 None "" in
  let c := TaskContext.create e "task-1-rs" false true None in
  Patterns.stopped (Patterns.mkLoopResult 2 "max iterations") <> "aborted".
Proof.
  intros e c.
  apply (loop_aborted_only_on_answer (fun s => s) two_rounds "Chop" steady_run e c).
  - intros i st. reflexivity.
  - vm_compute. reflexivity.
Defined.

(** ** A loop that nothing stops *)










